(** * dmOverlay: a shallow embedding of the overlay plugin and its properties

    The development follows the source modules of the plugin:
    - [Template] : the HTML escaping helper of the overlay template;
    - [Native]   : the overlay registry and layout engine of the native
                   helper (state, layout pass, IPC handlers, exported API);
    - [Plugin]   : the nonce generator and the reply dispatcher of the
                   renderer-side entry point.

    JavaScript strings are modelled as [string], integers as [Z], numbers
    that may not be finite as [Js.number], the insertion-ordered [Map] as an
    association list in iteration order, and the [BrowserWindow] objects as
    cells of a window store addressed by handles, so that a window outlives
    the registry entry that pointed to it. Clock readings ([Date.now()]) and
    the work area of the primary display are inputs.

    Definitions come first; the properties follow, grouped by topic. *)

From Stdlib Require Import ZArith QArith Qround Lia List String Ascii.
From Stdlib Require Import DecimalString DecimalZ.
From stdpp Require Import base list strings.

Local Open Scope Z_scope.

(* ===================================================================== *)
(** * Configuration constants ([types.ts]) *)
(* ===================================================================== *)

Definition WINDOW_WIDTH : Z := 494.
Definition WINDOW_MIN_HEIGHT : Z := 160.
Definition WINDOW_MAX_HEIGHT : Z := 420.
Definition WINDOW_MARGIN : Z := 20.
Definition WINDOW_SPACING : Z := 10.
Definition MAX_RENDERED_MESSAGES : nat := 200.
Definition MAX_OVERLAY_WINDOWS : nat := 5.

(* ===================================================================== *)
(** * [template.ts]: HTML escaping *)
(* ===================================================================== *)

Module Template.
Local Open Scope string_scope.

(** [text.replace(/c/g, rep)] for a one-character pattern [c]: every
    occurrence of [c] is replaced, scanning left to right. None of the
    replacement strings of this file contains a [$] pattern. *)
Fixpoint replaceAll (c : ascii) (rep : string) (text : string) : string :=
  match text with
  | EmptyString => EmptyString
  | String a rest =>
      if Ascii.eqb a c then rep ++ replaceAll c rep rest
      else String a (replaceAll c rep rest)
  end.

Definition amp : ascii := "&"%char.
Definition lt : ascii := "<"%char.
Definition gt : ascii := ">"%char.
Definition dquote : ascii := "034"%char.
Definition squote : ascii := "'"%char.

(** [escapeHtml]: the five chained [replace] calls, in source order. *)
Definition escapeHtml (text : string) : string :=
  replaceAll squote "&#039;"
    (replaceAll dquote "&quot;"
       (replaceAll gt "&gt;"
          (replaceAll lt "&lt;"
             (replaceAll amp "&amp;" text)))).

(** The replacement a single input character ends up with. *)
Definition escapeChar (a : ascii) : string :=
  if Ascii.eqb a amp then "&amp;"
  else if Ascii.eqb a lt then "&lt;"
  else if Ascii.eqb a gt then "&gt;"
  else if Ascii.eqb a dquote then "&quot;"
  else if Ascii.eqb a squote then "&#039;"
  else String a EmptyString.

(** Characters that may not occur raw in escaped text. *)
Definition isMarkupChar (a : ascii) : bool :=
  Ascii.eqb a lt || Ascii.eqb a gt || Ascii.eqb a dquote || Ascii.eqb a squote.

Fixpoint noRawMarkup (s : string) : bool :=
  match s with
  | EmptyString => true
  | String a rest => negb (isMarkupChar a) && noRawMarkup rest
  end.

(** [startsWith p s]: [p] is a prefix of [s]. *)
Fixpoint startsWith (p s : string) : bool :=
  match p, s with
  | EmptyString, _ => true
  | String a p', String b s' => Ascii.eqb a b && startsWith p' s'
  | String _ _, EmptyString => false
  end.

(** The text right after an ampersand completes one of the five entities. *)
Definition completesEntity (s : string) : bool :=
  startsWith "amp;" s || startsWith "lt;" s || startsWith "gt;" s
  || startsWith "quot;" s || startsWith "#039;" s.

(** Every ampersand of [s] introduces one of the five entities. *)
Fixpoint ampersandsIntroduceEntities (s : string) : bool :=
  match s with
  | EmptyString => true
  | String a rest =>
      (if Ascii.eqb a amp then completesEntity rest else true)
      && ampersandsIntroduceEntities rest
  end.

(** The decoder the round-trip property is stated with: a single left to
    right pass that turns each of the five entities back into its character
    and copies everything else. It is not part of the source, which only
    encodes. *)
Fixpoint unescapeHtml (s : string) : string :=
  match s with
  | EmptyString => EmptyString
  | String c t =>
      if negb (Ascii.eqb c amp) then String c (unescapeHtml t)
      else
        match t with
        | String c1 (String c2 (String c3 t3)) =>
            if startsWith "lt;" t then String lt (unescapeHtml t3)
            else if startsWith "gt;" t then String gt (unescapeHtml t3)
            else
              match t3 with
              | String c4 t4 =>
                  if startsWith "amp;" t then String amp (unescapeHtml t4)
                  else
                    match t4 with
                    | String c5 t5 =>
                        if startsWith "quot;" t then String dquote (unescapeHtml t5)
                        else if startsWith "#039;" t then String squote (unescapeHtml t5)
                        else String c (unescapeHtml t)
                    | EmptyString => String c (unescapeHtml t)
                    end
              | EmptyString => String c (unescapeHtml t)
              end
        | _ => String c (unescapeHtml t)
        end
  end.


(** [escapeJs]: the five chained [replace] calls, in source order. The
    replacement texts are a backslash followed by one character. *)
Definition backslash : ascii := "\"%char.
Definition lineFeed : ascii := "010"%char.
Definition carriageReturn : ascii := "013"%char.

Definition escaped (a : ascii) : string := String backslash (String a EmptyString).

Definition escapeJs (text : string) : string :=
  replaceAll carriageReturn (escaped "r")
    (replaceAll lineFeed (escaped "n")
       (replaceAll dquote (escaped dquote)
          (replaceAll squote (escaped squote)
             (replaceAll backslash (escaped backslash) text)))).

(** The replacement a single input character ends up with under [escapeJs]. *)
Definition escapeJsChar (a : ascii) : string :=
  if Ascii.eqb a backslash then escaped backslash
  else if Ascii.eqb a squote then escaped squote
  else if Ascii.eqb a dquote then escaped dquote
  else if Ascii.eqb a lineFeed then escaped "n"
  else if Ascii.eqb a carriageReturn then escaped "r"
  else String a EmptyString.

(** How JavaScript reads the body of a quoted string literal, for bodies
    that use no escape but backslash, the two quotes, [n] and [r]: a raw
    quote or line break ends or breaks the literal, a backslash at the end
    or before another character is refused. [None] is a body that is not
    read as one string. *)
Fixpoint readLiteralBody (body : string) : option string :=
  match body with
  | EmptyString => Some EmptyString
  | String c rest =>
      if Ascii.eqb c backslash then
        match rest with
        | EmptyString => None
        | String e rest' =>
            let decoded :=
              if Ascii.eqb e backslash then Some backslash
              else if Ascii.eqb e squote then Some squote
              else if Ascii.eqb e dquote then Some dquote
              else if Ascii.eqb e "n" then Some lineFeed
              else if Ascii.eqb e "r" then Some carriageReturn
              else None in
            match decoded, readLiteralBody rest' with
            | Some d, Some tail => Some (String d tail)
            | _, _ => None
            end
        end
      else if Ascii.eqb c squote || Ascii.eqb c dquote
              || Ascii.eqb c lineFeed || Ascii.eqb c carriageReturn
      then None
      else option_map (String c) (readLiteralBody rest)
  end.

(** [c] occurs in [s]. *)
Fixpoint occurs (c : ascii) (s : string) : bool :=
  match s with
  | EmptyString => false
  | String a rest => Ascii.eqb a c || occurs c rest
  end.

(** [safeJsonForInlineScript]; [json] is the text [JSON.stringify(obj)]
    returns. *)
Definition safeJsonForInlineScript (json : string) : string :=
  replaceAll lt "\u003c" json.

End Template.

(* ===================================================================== *)
(** * JavaScript values used by the native helper *)
(* ===================================================================== *)

Module Js.

(** A JavaScript number: a finite double (a rational; [Math.ceil],
    [Math.max] and [Math.min] are exact on doubles) or one of the three
    non-finite values. *)
Inductive number : Type :=
| Finite (q : Q)
| NaN
| PosInfinity
| NegInfinity.

(** A value that crosses the IPC bridge as [payload.height]: either a
    number already, or any other structured-clonable value, given with the
    number that [Number(h)] converts it to. *)
Inductive value : Type :=
| Num (n : number)
| Other (converted : number).

(** [typeof h === "number" ? h : Number(h)] *)
Definition toNumber (h : value) : number :=
  match h with
  | Num n => n
  | Other converted => converted
  end.

(** [Number.isFinite] *)
Definition isFinite (n : number) : bool :=
  match n with
  | Finite _ => true
  | _ => false
  end.

(** [n < z] and [n > z] for an integer [z]; every comparison with [NaN]
    is false. *)
Definition lessThan (n : number) (z : Z) : Prop :=
  match n with
  | Finite q => (q < inject_Z z)%Q
  | NegInfinity => True
  | _ => False
  end.

Definition greaterThan (n : number) (z : Z) : Prop :=
  match n with
  | Finite q => (inject_Z z < q)%Q
  | PosInfinity => True
  | _ => False
  end.

(** Truthiness of a string: only the empty string is falsy. *)
Definition truthy (s : string) : bool := negb (String.eqb s EmptyString).

(** [a || b] on strings. *)
Definition orElse (a b : string) : string := if truthy a then a else b.

(** [`${n}`] and [BigInt.prototype.toString] for an integer [n]. *)
Definition toString (n : Z) : string := NilZero.string_of_int (Z.to_int n).

(** Reading a decimal string back as an integer, as the host does with a
    nonce. *)
Definition parseInteger (s : string) : option Z :=
  option_map Z.of_int (NilZero.int_of_string s).

End Js.

(* ===================================================================== *)
(** * The insertion-ordered [Map<string, V>] *)
(* ===================================================================== *)

(** Iteration order is the order of the list: the head is the entry that
    was inserted first among those still present. *)
Module JsMap.
Section Ops.
Context {V : Type}.

Fixpoint get (key : string) (m : list (string * V)) : option V :=
  match m with
  | [] => None
  | (k, v) :: rest => if String.eqb k key then Some v else get key rest
  end.

(** [set] keeps the position of a key that is present and appends a new
    key at the end. *)
Fixpoint set (key : string) (v : V) (m : list (string * V)) : list (string * V) :=
  match m with
  | [] => [(key, v)]
  | (k, v0) :: rest =>
      if String.eqb k key then (k, v) :: rest else (k, v0) :: set key v rest
  end.

Fixpoint delete (key : string) (m : list (string * V)) : list (string * V) :=
  match m with
  | [] => []
  | (k, v) :: rest =>
      if String.eqb k key then delete key rest else (k, v) :: delete key rest
  end.

(** [m.keys().next().value] *)
Definition firstKey (m : list (string * V)) : option string :=
  match m with
  | [] => None
  | (k, _) :: _ => Some k
  end.

End Ops.
End JsMap.

(* ===================================================================== *)
(** * The native helper: overlay registry and layout engine *)
(* ===================================================================== *)

Module NotificationData.
Record t : Type := mk {
  id : string;
  authorId : option string;
  authorName : string;
  authorAvatar : string;
  content : string;
  channelId : string;
  timestamp : Z;
  messageId : option string
}.
End NotificationData.

Module OverlayMessage.
Record t : Type := mk {
  id : string;
  content : string;
  timestamp : Z
}.
End OverlayMessage.

(** The part of an Electron [BrowserWindow] the registry reads and writes.
    Visibility, opacity and the always-on-top level are set by best-effort
    calls that no registry decision reads back; they are left out. *)
Module BrowserWindow.
Record t : Type := mk {
  isDestroyed : bool;
  position : Z * Z;
  size : Z * Z
}.

Definition close (w : t) : t := mk true (position w) (size w).
Definition setPosition (x y : Z) (w : t) : t := mk (isDestroyed w) (x, y) (size w).
Definition setSize (width height : Z) (w : t) : t :=
  mk (isDestroyed w) (position w) (width, height).
End BrowserWindow.

(** [WindowState]; [win] is a handle into the window store. *)
Module WindowState.
Record t : Type := mk {
  win : nat;
  channelId : string;
  authorName : string;
  authorAvatar : string;
  messages : list OverlayMessage.t;
  lastTimestamp : Z;
  currentHeight : Z;
  manualPos : option (Z * Z)
}.

Definition withMessages (ms : list OverlayMessage.t) (ts : Z) (st : t) : t :=
  mk (win st) (channelId st) (authorName st) (authorAvatar st) ms ts
     (currentHeight st) (manualPos st).
Definition withCurrentHeight (h : Z) (st : t) : t :=
  mk (win st) (channelId st) (authorName st) (authorAvatar st) (messages st)
     (lastTimestamp st) h (manualPos st).
Definition withManualPos (p : Z * Z) (st : t) : t :=
  mk (win st) (channelId st) (authorName st) (authorAvatar st) (messages st)
     (lastTimestamp st) (currentHeight st) (Some p).
End WindowState.

Module Native.

(** The module-level state of the native helper, the window objects it has
    created, and the work area of the primary display. *)
Record State : Type := mkState {
  activeWindows : list (string * WindowState.t);
  windows : list BrowserWindow.t;
  lastDraggedPos : option (Z * Z);
  workAreaSize : Z * Z
}.

Definition withRegistry (aw : list (string * WindowState.t)) (s : State) : State :=
  mkState aw (windows s) (lastDraggedPos s) (workAreaSize s).
Definition withWindows (ws : list BrowserWindow.t) (s : State) : State :=
  mkState (activeWindows s) ws (lastDraggedPos s) (workAreaSize s).

(** State at module load: no overlay, no window, and the last dragged
    position read from the persisted state file, if any. *)
Definition initialState (persisted : option (Z * Z)) (area : Z * Z) : State :=
  mkState [] [] persisted area.

(** [win && !win.isDestroyed()] for the window behind a handle. *)
Definition isLive (ws : list BrowserWindow.t) (h : nat) : bool :=
  match ws !! h with
  | Some w => negb (BrowserWindow.isDestroyed w)
  | None => false
  end.

Definition clamp (n min max : Z) : Z := Z.max min (Z.min max n).

Definition normalizeRequestedHeight (h : Js.value) : Z :=
  match Js.toNumber h with
  | Js.Finite q => clamp (Qceiling q) WINDOW_MIN_HEIGHT WINDOW_MAX_HEIGHT
  | _ => WINDOW_MIN_HEIGHT
  end.

Definition getWindowPosition (area : Z * Z) (index : Z) (winHeight stackedHeightBelow : Z)
  : Z * Z :=
  let '(width, height) := area in
  (width - WINDOW_WIDTH - WINDOW_MARGIN,
   height - WINDOW_MARGIN - stackedHeightBelow - winHeight - index * WINDOW_SPACING).

(** The loop of [repositionWindows], with its two counters. *)
Fixpoint repositionLoop (area : Z * Z) (index stackedBelow : Z)
    (entries : list (string * WindowState.t)) (ws : list BrowserWindow.t)
  : list BrowserWindow.t :=
  match entries with
  | [] => ws
  | (_, st) :: rest =>
      match ws !! WindowState.win st with
      | Some w =>
          if BrowserWindow.isDestroyed w then
            repositionLoop area index stackedBelow rest ws
          else
            match WindowState.manualPos st with
            | Some _ => repositionLoop area index stackedBelow rest ws
            | None =>
                let pos :=
                  getWindowPosition area index (WindowState.currentHeight st) stackedBelow in
                repositionLoop area (index + 1)
                  (stackedBelow + WindowState.currentHeight st) rest
                  (<[WindowState.win st := BrowserWindow.setPosition pos.1 pos.2 w]> ws)
            end
      | None => repositionLoop area index stackedBelow rest ws
      end
  end.

Definition repositionWindows (s : State) : State :=
  withWindows (repositionLoop (workAreaSize s) 0 0 (activeWindows s) (windows s)) s.

(** [win.getPosition()] throws on a destroyed window; the handler catches
    it and changes nothing. Persisting the position is a debounced file
    write and is not part of the state. *)
Definition updateDraggedPosition (key : string) (h : nat) (s : State) : State :=
  match windows s !! h with
  | Some w =>
      if BrowserWindow.isDestroyed w then s
      else
        let pos := BrowserWindow.position w in
        let aw :=
          match JsMap.get key (activeWindows s) with
          | Some st => JsMap.set key (WindowState.withManualPos pos st) (activeWindows s)
          | None => activeWindows s
          end in
        mkState aw (windows s) (Some pos) (workAreaSize s)
  | None => s
  end.

(** [if (win && !win.isDestroyed()) win.close()] *)
Definition closeIfLive (h : nat) (ws : list BrowserWindow.t) : list BrowserWindow.t :=
  match ws !! h with
  | Some w => if BrowserWindow.isDestroyed w then ws else <[h := BrowserWindow.close w]> ws
  | None => ws
  end.

Definition closeNotification (id : string) (s : State) : State :=
  let ws :=
    match JsMap.get id (activeWindows s) with
    | Some st => closeIfLive (WindowState.win st) (windows s)
    | None => windows s
    end in
  repositionWindows (mkState (JsMap.delete id (activeWindows s)) ws
                             (lastDraggedPos s) (workAreaSize s)).

Definition closeAll (s : State) : State :=
  mkState []
    (fold_left (fun ws e => closeIfLive (WindowState.win e.2) ws) (activeWindows s) (windows s))
    (lastDraggedPos s) (workAreaSize s).

(** The [msg] built at the top of [showNotification]; [now] is [Date.now()]. *)
Definition makeMessage (data : NotificationData.t) (now : Z) : OverlayMessage.t :=
  OverlayMessage.mk
    (Js.orElse (default EmptyString (NotificationData.messageId data))
       (Js.orElse (NotificationData.id data) (Js.toString now)))
    (NotificationData.content data)
    (if NotificationData.timestamp data =? 0 then now else NotificationData.timestamp data).

(** [messages.push(msg)] followed by the [splice] that trims the front. *)
Definition pushMessage (msgs : list OverlayMessage.t) (msg : OverlayMessage.t)
  : list OverlayMessage.t :=
  let pushed := msgs ++ [msg] in
  if (MAX_RENDERED_MESSAGES <? length pushed)%nat
  then drop (length pushed - MAX_RENDERED_MESSAGES) pushed
  else pushed.

(** The branch of [showNotification] for a conversation whose window is open. *)
Definition appendToExisting (key : string) (existing : WindowState.t)
    (msg : OverlayMessage.t) (s : State) : State :=
  let existing' :=
    WindowState.withMessages (pushMessage (WindowState.messages existing) msg)
      (OverlayMessage.timestamp msg) existing in
  repositionWindows
    (withRegistry (JsMap.set key existing' (JsMap.delete key (activeWindows s))) s).

(** [if (activeWindows.size >= MAX_OVERLAY_WINDOWS) { ... }] *)
Definition limitOverlays (s : State) : State :=
  if (MAX_OVERLAY_WINDOWS <=? length (activeWindows s))%nat then
    match JsMap.firstKey (activeWindows s) with
    | Some oldest => if Js.truthy oldest then closeNotification oldest s else s
    | None => s
    end
  else s.

(** The rest of [showNotification]: a new window and a new registry entry. *)
Definition createOverlay (key : string) (data : NotificationData.t)
    (msg : OverlayMessage.t) (s : State) : State :=
  let defaultPos :=
    getWindowPosition (workAreaSize s) (Z.of_nat (length (activeWindows s)))
      WINDOW_MIN_HEIGHT 0 in
  let pos := default defaultPos (lastDraggedPos s) in
  let initialHeight := WINDOW_MIN_HEIGHT in
  let h := length (windows s) in
  let w := BrowserWindow.mk false pos (WINDOW_WIDTH, initialHeight) in
  let st :=
    WindowState.mk h key (NotificationData.authorName data)
      (NotificationData.authorAvatar data) [msg] (OverlayMessage.timestamp msg)
      initialHeight (lastDraggedPos s) in
  mkState (JsMap.set key st (activeWindows s)) (windows s ++ [w])
          (lastDraggedPos s) (workAreaSize s).

Definition showNotification (data : NotificationData.t) (now : Z) (s : State) : State :=
  let key := NotificationData.channelId data in
  let msg := makeMessage data now in
  match JsMap.get key (activeWindows s) with
  | Some existing =>
      if isLive (windows s) (WindowState.win existing)
      then appendToExisting key existing msg s
      else createOverlay key data msg (limitOverlays s)
  | None => createOverlay key data msg (limitOverlays s)
  end.

(** The payload of a [DMOVERLAY_RESIZE] message. *)
Record ResizePayload : Type := mkResize {
  payload_id : string;
  payload_height : Js.value
}.

(** The [DMOVERLAY_RESIZE] handler; [None] is a missing payload. *)
Definition onResize (payload : option ResizePayload) (s : State) : State :=
  match payload with
  | None => s
  | Some p =>
      let key := payload_id p in
      if Js.truthy key then
        match JsMap.get key (activeWindows s) with
        | Some st =>
            match windows s !! WindowState.win st with
            | Some w =>
                if BrowserWindow.isDestroyed w then s
                else
                  let h := normalizeRequestedHeight (payload_height p) in
                  if WindowState.currentHeight st =? h then s
                  else
                    repositionWindows
                      (mkState
                         (JsMap.set key (WindowState.withCurrentHeight h st) (activeWindows s))
                         (<[WindowState.win st := BrowserWindow.setSize WINDOW_WIDTH h w]>
                            (windows s))
                         (lastDraggedPos s) (workAreaSize s))
            | None => s
            end
        | None => s
        end
      else s
  end.

(** The ["closed"] listener installed by [showNotification] for [key]. *)
Definition onClosed (key : string) (s : State) : State :=
  repositionWindows (withRegistry (JsMap.delete key (activeWindows s)) s).

(** The ["did-finish-load"] listener: the layout pass it runs. *)
Definition onDidFinishLoad (s : State) : State := repositionWindows s.

(** What the windowing system does on its own: the user moves a window or
    closes it. *)
Definition moveWindow (h : nat) (x y : Z) (s : State) : State :=
  match windows s !! h with
  | Some w =>
      if BrowserWindow.isDestroyed w then s
      else withWindows (<[h := BrowserWindow.setPosition x y w]> (windows s)) s
  | None => s
  end.

Definition destroyWindow (h : nat) (s : State) : State :=
  withWindows (closeIfLive h (windows s)) s.

(** The user drags the window of conversation [key] to [(x, y)]: the window
    moves and its ["moved"] listener runs. *)
Definition userDrag (key : string) (x y : Z) (s : State) : State :=
  match JsMap.get key (activeWindows s) with
  | Some st =>
      updateDraggedPosition key (WindowState.win st) (moveWindow (WindowState.win st) x y s)
  | None => s
  end.

(** The size of the registry, [activeWindows.size]. *)
Definition registrySize (s : State) : nat := length (activeWindows s).

(** Everything that can happen to the registry. *)
Inductive Event : Type :=
| ShowNotification (data : NotificationData.t) (now : Z)
| CloseNotification (id : string)
| CloseAll
| Resize (payload : option ResizePayload)
| Moved (key : string) (h : nat)
| Closed (key : string)
| DidFinishLoad
| UserMoves (h : nat) (x y : Z)
| UserCloses (h : nat).

Definition step (s : State) (e : Event) : State :=
  match e with
  | ShowNotification data now => showNotification data now s
  | CloseNotification id => closeNotification id s
  | CloseAll => closeAll s
  | Resize payload => onResize payload s
  | Moved key h => updateDraggedPosition key h s
  | Closed key => onClosed key s
  | DidFinishLoad => onDidFinishLoad s
  | UserMoves h x y => moveWindow h x y s
  | UserCloses h => destroyWindow h s
  end.

Definition run (s : State) (es : list Event) : State := fold_left step es s.

(** The channel id of a [ShowNotification] event is truthy. *)
Definition showsTruthyKey (e : Event) : Prop :=
  match e with
  | ShowNotification data _ => Js.truthy (NotificationData.channelId data) = true
  | _ => True
  end.

(** The window store position of the entry of [key], when it has one. *)
Definition windowOf (key : string) (s : State) : option BrowserWindow.t :=
  match JsMap.get key (activeWindows s) with
  | Some st => windows s !! WindowState.win st
  | None => None
  end.

(** Where the window of the entry of [key] is. *)
Definition positionOf (key : string) (s : State) : option (Z * Z) :=
  BrowserWindow.position <$> windowOf key s.

(** The messages the registry buffers for [key]. *)
Definition bufferOf (key : string) (s : State) : option (list OverlayMessage.t) :=
  WindowState.messages <$> JsMap.get key (activeWindows s).

(** [key] has an entry whose window is open. *)
Definition hasOpenOverlay (key : string) (s : State) : bool :=
  match JsMap.get key (activeWindows s) with
  | Some st => isLive (windows s) (WindowState.win st)
  | None => false
  end.

(** A run of [showNotification] calls, each with its clock reading. *)
Definition showAll (calls : list (NotificationData.t * Z)) (s : State) : State :=
  run s (map (fun c => ShowNotification c.1 c.2) calls).

(** The last [n] elements of a list, in order. *)
Definition lastN {A} (n : nat) (l : list A) : list A := drop (length l - n) l.

(** The height the registry stores for [key]. *)
Definition storedHeight (key : string) (s : State) : option Z :=
  WindowState.currentHeight <$> JsMap.get key (activeWindows s).

End Native.

(* ===================================================================== *)
(** * Vocabulary for the layout pass and the registry *)
(* ===================================================================== *)

Module Layout.
Import Native.

(** The layout pass places an entry when its window is open and it has no
    manual position. *)
Definition placed (ws : list BrowserWindow.t) (st : WindowState.t) : bool :=
  isLive ws (WindowState.win st)
  && match WindowState.manualPos st with None => true | Some _ => false end.

(** Number of placed entries, and the sum of their heights. *)
Fixpoint placedCount (ws : list BrowserWindow.t) (entries : list (string * WindowState.t)) : Z :=
  match entries with
  | [] => 0
  | (_, st) :: rest => (if placed ws st then 1 else 0) + placedCount ws rest
  end.

Fixpoint placedHeight (ws : list BrowserWindow.t) (entries : list (string * WindowState.t)) : Z :=
  match entries with
  | [] => 0
  | (_, st) :: rest =>
      (if placed ws st then WindowState.currentHeight st else 0) + placedHeight ws rest
  end.

(** The [setPosition] calls of a pass, in the order they are made. *)
Fixpoint layoutWrites (area : Z * Z) (index stackedBelow : Z)
    (entries : list (string * WindowState.t)) (ws : list BrowserWindow.t)
  : list (nat * (Z * Z)) :=
  match entries with
  | [] => []
  | (_, st) :: rest =>
      if placed ws st then
        (WindowState.win st,
         getWindowPosition area index (WindowState.currentHeight st) stackedBelow)
        :: layoutWrites area (index + 1) (stackedBelow + WindowState.currentHeight st) rest ws
      else layoutWrites area index stackedBelow rest ws
  end.

Definition applyWrite (ws : list BrowserWindow.t) (hp : nat * (Z * Z)) : list BrowserWindow.t :=
  alter (BrowserWindow.setPosition hp.2.1 hp.2.2) hp.1 ws.

Definition applyWrites (writes : list (nat * (Z * Z))) (ws : list BrowserWindow.t)
  : list BrowserWindow.t :=
  fold_left applyWrite writes ws.

(** The position the last call for window [h] sets, if there is a call. *)
Fixpoint lastWrite (h : nat) (writes : list (nat * (Z * Z))) : option (Z * Z) :=
  match writes with
  | [] => None
  | (h', p) :: rest =>
      match lastWrite h rest with
      | Some q => Some q
      | None => if Nat.eqb h' h then Some p else None
      end
  end.

(** The handles held by the registry. *)
Definition handles (entries : list (string * WindowState.t)) : list nat :=
  (fun e => WindowState.win e.2) <$> entries.
Arguments handles : simpl never.

(** Every entry has a window of its own in the store. *)
Definition wellFormed (s : State) : Prop :=
  NoDup (handles (activeWindows s))
  /\ Forall (fun e => (WindowState.win e.2 < length (windows s))%nat) (activeWindows s).

(** The pass as the specification words it: entries are walked with the
    most recently updated one first, that is, in reverse iteration order. *)
Definition repositionWindows_mostRecentFirst (s : State) : State :=
  withWindows (repositionLoop (workAreaSize s) 0 0 (rev (activeWindows s)) (windows s)) s.

(** The limit holds as long as every conversation key is a non-empty
    string: then the oldest key is truthy whenever the registry is full. *)
Definition boundedWithTruthyKeys (s : State) : Prop :=
  (registrySize s <= MAX_OVERLAY_WINDOWS)%nat
  /\ Forall (fun e => Js.truthy e.1 = true) (activeWindows s).

(** The first half of the claim about resize requests, as stated: a
    request for the open overlay [key] with a height above
    [WINDOW_MAX_HEIGHT] leaves [WINDOW_MAX_HEIGHT] stored. *)
Definition heightAboveMaxStoresMax (s : State) (key : string) (h : Js.value) : Prop :=
  Js.greaterThan (Js.toNumber h) WINDOW_MAX_HEIGHT ->
  storedHeight key (onResize (Some (mkResize key h)) s) = Some WINDOW_MAX_HEIGHT.

(** The claim about the normalization, as stated: a value that is not a
    finite number, be it no number at all, [NaN] or an infinity, gives
    [WINDOW_MIN_HEIGHT]. *)
Definition notAFiniteNumber (h : Js.value) : Prop :=
  match h with
  | Js.Num (Js.Finite _) => False
  | _ => True
  end.

Definition notAFiniteNumberGivesMinimum (h : Js.value) : Prop :=
  notAFiniteNumber h -> normalizeRequestedHeight h = WINDOW_MIN_HEIGHT.

(** The second half of the claim about dragging, as stated: after the
    window of [dragged] was moved to [(x, y)], the overlay a message then
    opens for another conversation has no manual position and is one of the
    windows the layout pass places. *)
Definition laterOverlayIsAutoPlaced (s : State) (dragged : string) (x y : Z)
    (data : NotificationData.t) (now : Z) : Prop :=
  let s2 := showNotification data now (userDrag dragged x y s) in
  exists st,
    JsMap.get (NotificationData.channelId data) (activeWindows s2) = Some st
    /\ WindowState.manualPos st = None
    /\ placed (windows s2) st = true.

(** The window of every entry has the width of an overlay and the height
    the entry stores. *)
Definition sizesAgree (s : State) : Prop :=
  Forall (fun e => forall w, windows s !! WindowState.win e.2 = Some w ->
                             BrowserWindow.size w
                             = (WINDOW_WIDTH, WindowState.currentHeight e.2))
         (activeWindows s).

(** Every window of [ws'] was in [ws] with the same size. *)
Definition sizesKept (ws ws' : list BrowserWindow.t) : Prop :=
  forall h w', ws' !! h = Some w' ->
               exists w, ws !! h = Some w /\ BrowserWindow.size w' = BrowserWindow.size w.

(** A dragged position is on record and every entry has a manual position. *)
Definition allPinned (s : State) : Prop :=
  lastDraggedPos s <> None
  /\ Forall (fun e => WindowState.manualPos e.2 <> None) (activeWindows s).

(** Five open overlays, for conversations ["a"] to ["e"]. *)
Definition fiveOverlays : State :=
  showAll [ (NotificationData.mk "a" None "Ann" "avatar" "1" "a" 1000 (Some "m1"), 1000);
            (NotificationData.mk "b" None "Bob" "avatar" "2" "b" 2000 (Some "m2"), 2000);
            (NotificationData.mk "c" None "Cid" "avatar" "3" "c" 3000 (Some "m3"), 3000);
            (NotificationData.mk "d" None "Dee" "avatar" "4" "d" 4000 (Some "m4"), 4000);
            (NotificationData.mk "e" None "Eve" "avatar" "5" "e" 5000 (Some "m5"), 5000) ]%string
    (initialState None (1920, 1080)).

(** The keys of the registry, in iteration order. *)
Definition keys (s : State) : list string := map fst (activeWindows s).

End Layout.

(* ===================================================================== *)
(** * Sample inputs *)
(* ===================================================================== *)

Module Sample.
Import Native.

(** A friend's message in conversation [channel]. *)
Definition message (channel text : string) : NotificationData.t :=
  NotificationData.mk channel (Some "42"%string) "Ann"%string
    "https://cdn.discordapp.com/embed/avatars/0.png"%string text channel 1000
    (Some "m1"%string).

(** A fresh process on a 1920 by 1080 work area, nothing persisted. *)
Definition start : State := initialState None (1920, 1080).

(** One overlay for conversation ["a"], grown to 300 pixels. *)
Definition oneOverlay : State :=
  run start
    [ ShowNotification (message "a" "hi") 1000;
      DidFinishLoad;
      Resize (Some (mkResize "a" (Js.Num (Js.Finite (300 # 1))))) ].

(** Conversation ["a"] and then conversation ["b"] receive a message. *)
Definition twoOverlays : State :=
  run start
    [ ShowNotification (message "a" "hi") 1000;
      ShowNotification (message "b" "yo") 2000 ].

(** Six conversations receive a message each; the first one has the empty
    string as its channel id. *)
Definition sixConversations : list (NotificationData.t * Z) :=
  [ (message EmptyString "zero", 1000); (message "a" "one", 2000);
    (message "b" "two", 3000); (message "c" "three", 4000);
    (message "d" "four", 5000); (message "e" "five", 6000) ].

(** Three overlays; the user then drags ["b"] to [(100, 200)], and ["c"]
    grows to 300 pixels. *)
Definition threeOverlays : State :=
  run start
    [ ShowNotification (message "a" "hi") 1000;
      ShowNotification (message "b" "yo") 2000;
      ShowNotification (message "c" "hey") 3000;
      UserMoves 1 100 200;
      Moved "b" 1;
      Resize (Some (mkResize "c" (Js.Num (Js.Finite (300 # 1))))) ].

End Sample.

(* ===================================================================== *)
(** * The plugin entry point: nonce and reply dispatcher *)
(* ===================================================================== *)

Definition PRIME_TTL_MS : Z := 60000.

Module Plugin.

(** [generateNonce]; [now] is [Date.now()]. [BigInt] arithmetic is exact,
    so the shift is [Z.shiftl]. *)
Definition generateNonce (now : Z) : string :=
  Js.toString (Z.shiftl (now - 1420070400000) 22).

(** The property the specification asks of two successive calls, made at
    clock readings [t1] and then [t2]: the nonces differ and the second is
    the greater integer. *)
Definition laterNonceIsGreater (t1 t2 : Z) : Prop :=
  generateNonce t1 <> generateNonce t2 /\
  exists n1 n2,
    Js.parseInteger (generateNonce t1) = Some n1 /\
    Js.parseInteger (generateNonce t2) = Some n2 /\
    n1 < n2.

(** How a call into the host, or a block of code, ends. *)
Inductive Outcome (A : Type) : Type :=
| Returned (a : A)
| Thrown.
Arguments Returned {A} a.
Arguments Thrown {A}.

(** The second argument of [sendMessage]. *)
Record MessageData : Type := mkMessageData {
  content : string;
  nonce : string;
  tts : bool;
  invalidEmojis : list string;
  validNonShortcutEmojis : list string
}.

(** The arguments of one call of [sendMessage]: the third and fourth
    arguments are absent in some calling conventions. *)
Record SendArgs : Type := mkSendArgs {
  args_channelId : string;
  args_message : MessageData;
  args_flag : option bool;
  args_options : option string
}.

(** The calls a run of the loop adds to the record: the first [k] variants,
    each of which threw, followed by the call that returned, if any. *)
Definition callsOf (fns : list SendArgs) (k : nat) (ok : bool) : list (SendArgs * bool) :=
  map (fun a => (a, true)) (take k fns)
  ++ (if ok then option_list ((fun a => (a, false)) <$> fns !! k) else []).

Section Host.
(** The host application is a state the plugin cannot see into; each
    capability is a function that changes it and returns or throws (a
    rejected promise is a throw at the [await]). *)
Variable Host : Type.

Definition HostFn (A : Type) : Type := A -> Host -> Host * Outcome unit.

(** A truthy value of [MessageActions.sendMessage], given by what
    [.bind(MessageActions)] does with it: the call may change the host, and
    it returns the value the loop then calls as [send], or throws. A call of
    a value that is no function throws; such a [send] is a function that
    always throws. *)
Definition SendProperty : Type := Host -> Host * Outcome (HostFn SendArgs).

(** A function: [Function.prototype.bind] returns it bound and leaves the
    host as it is. *)
Definition aFunction (f : HostFn SendArgs) : SendProperty := fun h => (h, Returned f).

(** A truthy value without a [bind] method, such as an object or a number:
    the call of [bind] throws a [TypeError]. *)
Definition notAFunction : SendProperty := fun h => (h, Thrown).

(** The module found by [findByPropsLazy("sendMessage", "receiveMessage")],
    with the properties the plugin looks up; each may be missing.
    [sendMessage] is tested for truthiness only, the others with [typeof]. *)
Record MessageActionsT : Type := mkMessageActions {
  sendMessage : option SendProperty;
  jumpToPresent : option (HostFn string);
  fetchMessages : option (HostFn (string * Z));
  fetchLocalMessages : option (HostFn string);
  fetchNewLocalMessages : option (HostFn string)
}.

(** The host, the plugin's priming cache, and the record of the
    [sendMessage] calls made so far, each with whether it threw. *)
Record World : Type := mkWorld {
  host : Host;
  lastPrimedAt : list (string * Z);
  sendCalls : list (SendArgs * bool)
}.

(** Computations that change the world and return or throw. *)
Definition M (A : Type) : Type := World -> World * Outcome A.

Definition ret {A} (a : A) : M A := fun w => (w, Returned a).

Definition throw {A} : M A := fun w => (w, Thrown).

Definition bind {A B} (m : M A) (k : A -> M B) : M B :=
  fun w =>
    match m w with
    | (w', Returned a) => k a w'
    | (w', Thrown) => (w', Thrown)
    end.

(** [try { body } catch { handler }] *)
Definition tryCatch {A} (body handler : M A) : M A :=
  fun w =>
    match body w with
    | (w', Returned a) => (w', Returned a)
    | (w', Thrown) => handler w'
    end.

(** A call of a host function other than [sendMessage]. *)
Definition callHost {A} (f : HostFn A) (a : A) : M unit :=
  fun w =>
    let '(h, r) := f a (host w) in
    (mkWorld h (lastPrimedAt w) (sendCalls w), r).

(** A call of [sendMessage], awaited when it returns a promise. *)
Definition callSend (send : HostFn SendArgs) (a : SendArgs) : M unit :=
  fun w =>
    let '(h, r) := send a (host w) in
    (mkWorld h (lastPrimedAt w)
       (sendCalls w ++ [(a, match r with Thrown => true | Returned _ => false end)]),
     r).

(** [if (typeof actions?.f === "function") { try { f(x) } catch {} }] *)
Definition bestEffort {A} (f : option (HostFn A)) (a : A) : M unit :=
  match f with
  | Some fn => tryCatch (callHost fn a) (ret tt)
  | None => ret tt
  end.

Definition primeChannel (actions : option MessageActionsT) (channelId : string) (now : Z)
  : M unit :=
  fun w =>
    let last := default 0 (JsMap.get channelId (lastPrimedAt w)) in
    if now - last <? PRIME_TTL_MS then (w, Returned tt)
    else
      let w1 := mkWorld (host w) (JsMap.set channelId now (lastPrimedAt w)) (sendCalls w) in
      tryCatch
        (bind (bestEffort (actions ≫= jumpToPresent) channelId) (fun _ =>
         bind (bestEffort (actions ≫= fetchMessages) (channelId, 50)) (fun _ =>
         bind (bestEffort (actions ≫= fetchLocalMessages) channelId) (fun _ =>
               bestEffort (actions ≫= fetchNewLocalMessages) channelId))))
        (ret tt) w1.

(** The [attempts] array: the four calling conventions, in order. *)
Definition attempts (channelId : string) (messageData : MessageData) (nonce : string)
  : list SendArgs :=
  [ mkSendArgs channelId messageData (Some true) (Some nonce);
    mkSendArgs channelId messageData (Some false) (Some nonce);
    mkSendArgs channelId messageData (Some true) None;
    mkSendArgs channelId messageData None None ].

(** The [for] loop over [attempts]: the first call that does not throw
    ends it with [true]; a throw is caught and the loop goes on. *)
Fixpoint tryAttempts (send : HostFn SendArgs) (fns : list SendArgs) : M bool :=
  match fns with
  | [] => ret false
  | a :: rest =>
      tryCatch (bind (callSend send a) (fun _ => ret true)) (tryAttempts send rest)
  end.

(** [MessageActions.sendMessage.bind(MessageActions)], outside any [try]. *)
Definition bindSend (property : SendProperty) : M (HostFn SendArgs) :=
  fun w =>
    let '(h, r) := property (host w) in
    (mkWorld h (lastPrimedAt w) (sendCalls w), r).

(** [sendMessageSafe]; [now] is the reading of [Date.now()] in
    [generateNonce], [nowPrime] the later one in [primeChannel]. *)
Definition sendMessageSafe (actions : option MessageActionsT)
    (channelId content : string) (now nowPrime : Z) : M bool :=
  match actions ≫= sendMessage with
  | None => ret false
  | Some property =>
      let nonce := generateNonce now in
      let messageData := mkMessageData content nonce false [] [] in
      bind (bindSend property) (fun send =>
      bind (primeChannel actions channelId nowPrime) (fun _ =>
        tryAttempts send (attempts channelId messageData nonce)))
  end.

(** The host after the calls of a record, made one after the other with
    the function [send]. *)
Definition hostAfterSends (send : HostFn SendArgs) (calls : list (SendArgs * bool))
    (h : Host) : Host :=
  fold_left (fun h c => (send c.1 h).1) calls h.

(** Whether each call of a record, made with [send] from [h] on, threw as
    the record says. *)
Fixpoint sendsThrewAsRecorded (send : HostFn SendArgs) (calls : list (SendArgs * bool))
    (h : Host) : Prop :=
  match calls with
  | [] => True
  | c :: rest =>
      (match (send c.1 h).2 with
       | Thrown => c.2 = true
       | Returned _ => c.2 = false
       end)
      /\ sendsThrewAsRecorded send rest (send c.1 h).1
  end.

(** The claim about errors, as stated: whatever the module found is, the
    call returns a boolean and no error reaches the caller. *)
Definition neverPropagates (actions : option MessageActionsT) : Prop :=
  forall channelId content now nowPrime w,
    exists (b : bool) w',
      sendMessageSafe actions channelId content now nowPrime w = (w', Returned b).

End Host.

Arguments sendMessage {Host} _.
Arguments host {Host} _.
Arguments lastPrimedAt {Host} _.
Arguments sendCalls {Host} _.
Arguments mkWorld {Host} _ _ _.
Arguments sendMessageSafe {Host} _ _ _ _ _ _.
Arguments aFunction {Host} _.
Arguments notAFunction {Host}.
Arguments hostAfterSends {Host} _ _ _.
Arguments sendsThrewAsRecorded {Host} _ _ _.
Arguments neverPropagates {Host} _.
Arguments tryAttempts {Host} _ _ _.
Arguments primeChannel {Host} _ _ _ _.

(** A host whose [sendMessage] accepts only the two-argument convention. *)
Definition twoArgumentHost : MessageActionsT unit :=
  mkMessageActions unit
    (Some (aFunction (fun (a : SendArgs) (h : unit) =>
             match args_flag a, args_options a with
             | None, None => (h, Returned tt)
             | _, _ => (h, Thrown)
             end)))
    None None None None.

(** A host that counts the calls of [sendMessage] and accepts only the
    two-argument convention. *)
Definition countingHost : MessageActionsT nat :=
  mkMessageActions nat
    (Some (aFunction (fun (a : SendArgs) (h : nat) =>
             match args_flag a, args_options a with
             | None, None => (S h, Returned tt)
             | _, _ => (S h, Thrown)
             end)))
    None None None None.

(** A host whose [sendMessage] is a truthy value that is no function. *)
Definition uncallableHost : MessageActionsT unit :=
  mkMessageActions unit (Some notAFunction) None None None None.

End Plugin.

(* ===================================================================== *)
(** * The script of the overlay page: sending a reply *)
(* ===================================================================== *)

Module Surface.

(** The argument of [window.dmOverlay.reply]. *)
Record Reply : Type := mkReply {
  reply_channelId : string;
  reply_content : string;
  reply_notificationId : string
}.

(** What [doSend] reads and writes: the [sending] flag, the input field,
    the send button, the replies handed to the bridge so far, and the
    number of [setTimeout(doClose, 10)] timers started. *)
Record Page : Type := mkPage {
  sending : bool;
  inputValue : string;
  buttonText : string;
  buttonDisabled : bool;
  replies : list Reply;
  closeTimers : nat
}.

Definition initialPage : Page := mkPage false EmptyString "Send" false [] 0.

Section Script.
(** [trim] is [String.prototype.trim]; [channelId] is the constant the
    script is generated with; [bridge] says whether [window.dmOverlay] is
    defined. *)
Variable trim : string -> string.
Variable channelId : string.
Variable bridge : bool.

Definition doSend (p : Page) : Page :=
  if sending p then p
  else
    let text := trim (inputValue p) in
    if negb (Js.truthy text) then p
    else if bridge then
      mkPage true (inputValue p) "..." true
        (replies p ++ [mkReply channelId text channelId]) (S (closeTimers p))
    else mkPage false (inputValue p) "Error" true (replies p) (closeTimers p).

(** What the user does: types into the field, clicks the button, presses
    a key in the field. *)
Inductive Action : Type :=
| TypeText (value : string)
| ClickSend
| KeyDown (key : string).

Definition act (p : Page) (a : Action) : Page :=
  match a with
  | TypeText value =>
      mkPage (sending p) value (buttonText p) (buttonDisabled p) (replies p) (closeTimers p)
  | ClickSend => doSend p
  | KeyDown key => if String.eqb key "Enter" then doSend p else p
  end.

Definition actAll (actions : list Action) : Page := fold_left act actions initialPage.

(** What stays true of the page whatever the user does. *)
Definition pageInvariant (p : Page) : Prop :=
  closeTimers p = length (replies p)
  /\ Forall (fun r => Js.truthy (reply_content r) = true
                      /\ reply_channelId r = channelId
                      /\ reply_notificationId r = channelId) (replies p)
  /\ (if sending p then bridge = true /\ length (replies p) = 1%nat
      else replies p = []).

End Script.
End Surface.

(* ===================================================================== *)
(** * The plugin entry point: sound, avatar and the message handler *)
(* ===================================================================== *)

Module Dispatch.
Import Plugin.

(** The [candidates] of [playOverlaySound], in the order they are tried. *)
Definition candidates : list string :=
  [ "activity_user_leave"; "user_leave"; "activity_leave"; "leave" ]%string.

(** The two functions of the sound module the plugin may call. *)
Inductive SoundFn : Type :=
| PlayUISound
| PlaySound.

(** One call into the sound module: the function, the key it was given,
    and whether it threw. *)
Record SoundCall : Type := mkSoundCall {
  call_fn : SoundFn;
  call_key : string;
  call_threw : bool
}.

(** [msg.author], [event.message] and the event of ["MESSAGE_CREATE"], with
    the fields the handler reads. [global_name], [avatar] and [guild_id] may
    be null or missing. *)
Record Author : Type := mkAuthor {
  author_id : string;
  username : string;
  global_name : option string;
  avatar : option string
}.

Record Message : Type := mkMessage {
  message_id : string;
  channel_id : string;
  guild_id : option string;
  author : Author;
  message_content : string
}.

Record MessageEvent : Type := mkEvent {
  optimistic : bool;
  message : option Message
}.

(** What a best-effort call leaves of the host: the state the function
    left behind, whether it returned or threw; the state as it was when the
    function is missing. *)
Definition hostAfter {Host A} (f : option (HostFn Host A)) (a : A) (h : Host) : Host :=
  match f with
  | Some fn => (fn a h).1
  | None => h
  end.

Section Host.
Variable Host : Type.

(** The module found by [findByPropsLazy("playUISound", ...)]. *)
Record SoundModuleT : Type := mkSoundModule {
  playUISound : option (HostFn Host string);
  playSound : option (HostFn Host string)
}.

(** The function an iteration of the loop calls: [playUISound] when it is
    a function, otherwise [playSound] when that is one. *)
Definition soundFunction (sound : option SoundModuleT)
  : option (SoundFn * HostFn Host string) :=
  match sound ≫= playUISound with
  | Some f => Some (PlayUISound, f)
  | None => (fun f => (PlaySound, f)) <$> (sound ≫= playSound)
  end.

(** The [for] loop over the keys still to be tried: a call that returns
    ends the function, a call that throws is caught and the next key is
    tried. The calls made are returned with the host. *)
Fixpoint playKeys (sound : option SoundModuleT) (keys : list string) (h : Host)
  : Host * list SoundCall :=
  match keys with
  | [] => (h, [])
  | key :: rest =>
      match soundFunction sound with
      | Some (fn, f) =>
          match f key h with
          | (h', Returned _) => (h', [mkSoundCall fn key false])
          | (h', Thrown) =>
              let '(h'', calls) := playKeys sound rest h' in
              (h'', mkSoundCall fn key true :: calls)
          end
      | None => playKeys sound rest h
      end
  end.

Definition playOverlaySound (sound : option SoundModuleT) (h : Host)
  : Host * list SoundCall :=
  playKeys sound candidates h.

(** The host after the calls of a record, made one after the other with
    the function [f]. *)
Definition hostAfterCalls (f : HostFn Host string) (calls : list SoundCall) (h : Host)
  : Host :=
  fold_left (fun h c => (f (call_key c) h).1) calls h.

(** Whether each call of a record, made with [f] from [h] on, threw as the
    record says. *)
Fixpoint callsThrewAsRecorded (f : HostFn Host string) (calls : list SoundCall) (h : Host)
  : Prop :=
  match calls with
  | [] => True
  | c :: rest =>
      (match (f (call_key c) h).2 with
       | Thrown => call_threw c = true
       | Returned _ => call_threw c = false
       end)
      /\ callsThrewAsRecorded f rest (f (call_key c) h).1
  end.

(** [BigInt(userId)] is [None] when the string is no integer literal and
    the conversion throws; [Number] of a [BigInt] is the nearest double, an
    integer, or [None] for an infinity. *)
Variable BigInt : string -> option Z.
Variable Number : Z -> option Z.

(** [`${n % d}`] for the number [Number] returned; the remainder has the
    sign of the dividend, and an infinity gives [NaN]. *)
Definition remainderText (n : option Z) (d : Z) : string :=
  match n with
  | Some m => Js.toString (Z.rem m d)
  | None => "NaN"
  end.

Definition getAvatarUrl (userId : string) (avatar : option string) : Outcome string :=
  let hash := default EmptyString avatar in
  if Js.truthy hash then
    let ext := if String.prefix "a_" hash then "gif"%string else "png"%string in
    Returned ("https://cdn.discordapp.com/avatars/" ++ userId ++ "/" ++ hash ++ "."
              ++ ext ++ "?size=128")%string
  else
    match BigInt userId with
    | Some n =>
        Returned ("https://cdn.discordapp.com/embed/avatars/"
                  ++ remainderText (Number (Z.shiftr n 22)) 6 ++ ".png")%string
    | None => Thrown
    end.

(** The plugin as a whole: the host with the plugin's priming cache, the
    native helper the bridge [VencordNative.pluginHelpers.dmOverlay] calls
    into, and the calls made into the sound module. *)
Record System : Type := mkSystem {
  world : World Host;
  helper : Native.State;
  soundCalls : list SoundCall
}.

(** [UserStore.getCurrentUser()?.id], [RelationshipStore.isFriend], and the
    two modules looked up at load time. *)
Variable currentUser : option string.
Variable isFriend : string -> bool.
Variable actions : option (MessageActionsT Host).
Variable sound : option SoundModuleT.

(** The object handed to [Native.showNotification]. *)
Definition notificationOf (msg : Message) (avatarUrl : string) (now : Z)
  : NotificationData.t :=
  NotificationData.mk
    (channel_id msg)
    (Some (author_id (author msg)))
    (Js.orElse (default EmptyString (global_name (author msg))) (username (author msg)))
    avatarUrl
    (Js.orElse (message_content msg) "[Attachment/Embed]")
    (channel_id msg)
    now
    (Some (message_id msg)).

(** [onMessageCreate]; [now], [nowHelper] and [nowPrime] are the readings
    of [Date.now()] in the handler, in the helper and in [primeChannel].
    The call of [getAvatarUrl] is inside the [try], after the sound: when
    it throws, the handler logs the error and returns. [primeChannel] is
    started and not awaited; the host calls it makes are shown here in one
    piece, as they are where it is awaited. *)
Definition onMessageCreate (event : MessageEvent) (now nowHelper nowPrime : Z)
    (sys : System) : System :=
  if optimistic event then sys
  else
    match message event with
    | None => sys
    | Some msg =>
        if Js.truthy (default EmptyString (guild_id msg)) then sys
        else
          match currentUser with
          | None => sys
          | Some me =>
              if String.eqb (author_id (author msg)) me then sys
              else if negb (isFriend (author_id (author msg))) then sys
              else
                let '(h1, calls) := playOverlaySound sound (host (world sys)) in
                let w1 := mkWorld h1 (lastPrimedAt (world sys)) (sendCalls (world sys)) in
                match getAvatarUrl (author_id (author msg)) (avatar (author msg)) with
                | Thrown => mkSystem w1 (helper sys) (soundCalls sys ++ calls)
                | Returned url =>
                    mkSystem
                      (primeChannel actions (channel_id msg) nowPrime w1).1
                      (Native.showNotification (notificationOf msg url now) nowHelper
                         (helper sys))
                      (soundCalls sys ++ calls)
                end
          end
    end.

(** The message of an event the handler does not ignore: a direct message
    a friend sent, not an optimistic echo and not the user's own. *)
Definition friendMessage (event : MessageEvent) : option Message :=
  match message event, currentUser with
  | Some msg, Some me =>
      if negb (optimistic event)
         && negb (Js.truthy (default EmptyString (guild_id msg)))
         && negb (String.eqb (author_id (author msg)) me)
         && isFriend (author_id (author msg))
      then Some msg
      else None
  | _, _ => None
  end.

(** What happens to the plugin and its helper: a message event is
    dispatched, or something happens in the helper. *)
Inductive SystemEvent : Type :=
| MessageCreate (event : MessageEvent) (now nowHelper nowPrime : Z)
| Helper (e : Native.Event).

Definition systemStep (sys : System) (e : SystemEvent) : System :=
  match e with
  | MessageCreate event now nowHelper nowPrime =>
      onMessageCreate event now nowHelper nowPrime sys
  | Helper e => mkSystem (world sys) (Native.step (helper sys) e) (soundCalls sys)
  end.

Definition systemRun (sys : System) (events : list SystemEvent) : System :=
  fold_left systemStep events sys.

(** The helper shows a notification only when the plugin asks it to: among
    the events of the helper itself there is no [showNotification]. *)
Definition helperOnly (e : SystemEvent) : Prop :=
  match e with
  | Helper (Native.ShowNotification _ _) => False
  | _ => True
  end.

(** [key] is the conversation of a friend's message dispatched in [events]. *)
Definition friendConversation (events : list SystemEvent) (key : string) : Prop :=
  exists event now nowHelper nowPrime msg,
    MessageCreate event now nowHelper nowPrime ∈ events
    /\ friendMessage event = Some msg
    /\ channel_id msg = key.

End Host.

Arguments playUISound {Host} _.
Arguments playSound {Host} _.
Arguments mkSoundModule {Host} _ _.
Arguments soundFunction {Host} _.
Arguments playKeys {Host} _ _ _.
Arguments playOverlaySound {Host} _ _.
Arguments hostAfterCalls {Host} _ _ _.
Arguments callsThrewAsRecorded {Host} _ _ _.
Arguments world {Host} _.
Arguments helper {Host} _.
Arguments soundCalls {Host} _.
Arguments mkSystem {Host} _ _ _.

(** Hosts for the examples: the host state is the list of the calls made,
    as texts. [jumpToPresent] throws after it was called. *)
Definition loggingActions : MessageActionsT (list string) :=
  mkMessageActions (list string)
    None
    (Some (fun (c : string) h => (h ++ [("jump " ++ c)%string], Thrown)))
    (Some (fun (a : string * Z) h => (h ++ [("fetch " ++ a.1)%string], Returned tt)))
    None
    (Some (fun (c : string) h => (h ++ [("fetchNew " ++ c)%string], Thrown))).

(** A sound module whose [playUISound] knows only the key ["leave"]. *)
Definition pickySound : SoundModuleT (list string) :=
  mkSoundModule
    (Some (fun (key : string) h =>
             (h ++ [("ui " ++ key)%string],
              if String.eqb key "leave" then Returned tt else Thrown)))
    (Some (fun (key : string) h => (h ++ [("sound " ++ key)%string], Returned tt))).

(** A friend's direct message, and the same message sent to a guild. *)
Definition friendDm : MessageEvent :=
  mkEvent false
    (Some (mkMessage "m7" "dm1" None (mkAuthor "80351110224678912" "ann" None None) "hello")).

Definition guildMessage : MessageEvent :=
  mkEvent false
    (Some (mkMessage "m8" "g1" (Some "guild"%string)
             (mkAuthor "80351110224678912" "ann" None None) "hello")).

End Dispatch.

(* ===================================================================== *)
(** * Properties of [template.ts] *)
(* ===================================================================== *)

Section TemplateFacts.
Import Template.
Local Open Scope string_scope.
#[local] Arguments String.append !_ _ / : simpl nomatch.

Lemma append_assoc (s1 s2 s3 : string) : (s1 ++ s2) ++ s3 = s1 ++ (s2 ++ s3).
Proof. induction s1 as [|a s1 IH]; simpl; [reflexivity|now rewrite IH]. Qed.

Lemma replaceAll_app c rep s1 s2 :
  replaceAll c rep (s1 ++ s2) = replaceAll c rep s1 ++ replaceAll c rep s2.
Proof.
  induction s1 as [|a s1 IH]; simpl; [reflexivity|].
  destruct (Ascii.eqb a c); simpl; rewrite IH; [|reflexivity].
  symmetry. apply append_assoc.
Qed.

Lemma escapeHtml_cons a s :
  escapeHtml (String a s) = escapeChar a ++ escapeHtml s.
Proof.
  unfold escapeHtml, escapeChar. simpl.
  destruct (Ascii.eqb a amp) eqn:Ea; [reflexivity|].
  simpl. destruct (Ascii.eqb a lt) eqn:El; [reflexivity|].
  simpl. destruct (Ascii.eqb a gt) eqn:Eg; [reflexivity|].
  simpl. destruct (Ascii.eqb a dquote) eqn:Ed; [reflexivity|].
  simpl. destruct (Ascii.eqb a squote) eqn:Es; reflexivity.
Qed.

Lemma escapeHtml_nil : escapeHtml EmptyString = EmptyString.
Proof. reflexivity. Qed.

(** Tactic for goals about one escaped character followed by escaped text:
    split on which of the five characters it is. *)
Ltac split_on_char a :=
  unfold escapeChar;
  destruct (Ascii.eqb_spec a amp) as [->|Hamp]; [|
  destruct (Ascii.eqb_spec a lt) as [->|Hlt]; [|
  destruct (Ascii.eqb_spec a gt) as [->|Hgt]; [|
  destruct (Ascii.eqb_spec a dquote) as [->|Hdq]; [|
  destruct (Ascii.eqb_spec a squote) as [->|Hsq]]]]].

Lemma unescapeHtml_escapeHtml s : unescapeHtml (escapeHtml s) = s.
Proof.
  induction s as [|a s IH]; [reflexivity|].
  rewrite escapeHtml_cons.
  split_on_char a; simpl; rewrite ?IH; try reflexivity.
  destruct (Ascii.eqb_spec a amp) as [E|_]; [contradiction|].
  simpl. now rewrite ?IH.
Qed.

Lemma noRawMarkup_escapeHtml s : noRawMarkup (escapeHtml s) = true.
Proof.
  induction s as [|a s IH]; [reflexivity|].
  rewrite escapeHtml_cons.
  split_on_char a; simpl; rewrite ?IH; try reflexivity.
  unfold isMarkupChar.
  destruct (Ascii.eqb_spec a lt); [contradiction|].
  destruct (Ascii.eqb_spec a gt); [contradiction|].
  destruct (Ascii.eqb_spec a dquote); [contradiction|].
  destruct (Ascii.eqb_spec a squote); [contradiction|].
  reflexivity.
Qed.

Lemma ampersands_escapeHtml s : ampersandsIntroduceEntities (escapeHtml s) = true.
Proof.
  induction s as [|a s IH]; [reflexivity|].
  rewrite escapeHtml_cons.
  split_on_char a; simpl; rewrite ?IH; try reflexivity.
  destruct (Ascii.eqb_spec a amp); [contradiction|]. reflexivity.
Qed.

(** C8. [escapeHtml] can be decoded: turning the five entities back into
    their characters recovers the input, so the encoding is injective; its
    output contains no raw [<], [>], double quote or single quote, and
    every [&] of the output introduces one of the five entities. *)
Theorem escapeHtml_inert_and_invertible :
  (forall text, unescapeHtml (escapeHtml text) = text) /\
  (forall text1 text2, escapeHtml text1 = escapeHtml text2 -> text1 = text2) /\
  (forall text, noRawMarkup (escapeHtml text) = true) /\
  (forall text, ampersandsIntroduceEntities (escapeHtml text) = true).
Proof.
  split; [exact unescapeHtml_escapeHtml|].
  split; [|split; [exact noRawMarkup_escapeHtml|exact ampersands_escapeHtml]].
  intros t1 t2 E.
  rewrite <- (unescapeHtml_escapeHtml t1), <- (unescapeHtml_escapeHtml t2).
  now rewrite E.
Qed.

(** The script-breaking author name of the specification's example. *)
Example escapeHtml_script :
  escapeHtml "<script>alert('x')</script>&"
  = "&lt;script&gt;alert(&#039;x&#039;)&lt;/script&gt;&amp;".
Proof. reflexivity. Qed.

End TemplateFacts.

(* ===================================================================== *)
(** * Properties of the plugin entry point *)
(* ===================================================================== *)

Section JsFacts.

Lemma to_int_not_nil z :
  Z.to_int z <> Decimal.Pos Decimal.Nil /\ Z.to_int z <> Decimal.Neg Decimal.Nil.
Proof.
  destruct z; simpl; split; try discriminate.
  all: intros H; injection H as H; revert H; apply DecimalPos.Unsigned.to_uint_nonnil.
Qed.

Lemma parseInteger_toString z : Js.parseInteger (Js.toString z) = Some z.
Proof.
  unfold Js.parseInteger, Js.toString.
  destruct (to_int_not_nil z) as [Hp Hn].
  rewrite (NilZero.isi _ Hp Hn). simpl. now rewrite DecimalZ.of_to.
Qed.

Lemma toString_inj z1 z2 : Js.toString z1 = Js.toString z2 -> z1 = z2.
Proof.
  intros E. apply (f_equal Js.parseInteger) in E.
  rewrite !parseInteger_toString in E. now injection E.
Qed.

End JsFacts.

Section NonceFacts.
Import Plugin.

(** The integer a nonce denotes. *)
Lemma generateNonce_value now :
  Js.parseInteger (generateNonce now) = Some ((now - 1420070400000) * 2 ^ 22).
Proof.
  unfold generateNonce. rewrite parseInteger_toString.
  now rewrite Z.shiftl_mul_pow2 by lia.
Qed.

(** C9, as stated, fails: two calls within the same millisecond return the
    same nonce. *)
Lemma generateNonce_same_millisecond_collides :
  generateNonce 1700000000000 = "1174109840998400000"%string /\
  ~ laterNonceIsGreater 1700000000000 1700000000000.
Proof.
  split; [vm_compute; reflexivity|].
  intros [Hne _]. now apply Hne.
Qed.

(** C9, amended. For clock readings [t1 <= t2] the nonces are ordered like
    the readings: strictly increasing and distinct when [t1 < t2], and one
    and the same nonce when [t1 = t2]. Each nonce is the decimal numeral of
    [(t - 1420070400000) * 2^22]. *)
Theorem generateNonce_ordered_by_clock (t1 t2 : Z) (Hle : t1 <= t2) :
  exists n1 n2,
    Js.parseInteger (generateNonce t1) = Some n1 /\
    Js.parseInteger (generateNonce t2) = Some n2 /\
    n1 = Z.shiftl (t1 - 1420070400000) 22 /\
    n2 = Z.shiftl (t2 - 1420070400000) 22 /\
    n1 <= n2 /\
    (t1 < t2 -> laterNonceIsGreater t1 t2) /\
    (t1 = t2 -> generateNonce t1 = generateNonce t2).
Proof.
  exists ((t1 - 1420070400000) * 2 ^ 22), ((t2 - 1420070400000) * 2 ^ 22).
  rewrite !generateNonce_value, !Z.shiftl_mul_pow2 by lia.
  repeat split; try reflexivity.
  - apply Z.mul_le_mono_nonneg_r; lia.
  - intros E. apply toString_inj in E.
    rewrite !Z.shiftl_mul_pow2 in E by lia. lia.
  - exists ((t1 - 1420070400000) * 2 ^ 22), ((t2 - 1420070400000) * 2 ^ 22).
    rewrite !generateNonce_value. repeat split.
    apply Z.mul_lt_mono_pos_r; lia.
  - intros ->. reflexivity.
Qed.

Lemma generateNonce_ordered_by_clock_witness :
  1700000000000 <= 1700000000001 /\
  exists n1 n2,
    Js.parseInteger (generateNonce 1700000000000) = Some n1 /\
    Js.parseInteger (generateNonce 1700000000001) = Some n2 /\
    n1 = Z.shiftl (1700000000000 - 1420070400000) 22 /\
    n2 = Z.shiftl (1700000000001 - 1420070400000) 22 /\
    n1 <= n2 /\
    (1700000000000 < 1700000000001 ->
     laterNonceIsGreater 1700000000000 1700000000001) /\
    (1700000000000 = 1700000000001 ->
     generateNonce 1700000000000 = generateNonce 1700000000001).
Proof.
  split; [lia|].
  apply (generateNonce_ordered_by_clock 1700000000000 1700000000001). lia.
Defined.

End NonceFacts.

Section DispatcherFacts.
Import Plugin.
Context {Host : Type}.
Implicit Types (w : World Host) (send : HostFn Host SendArgs).

Lemma bestEffort_returns {A} (f : option (HostFn Host A)) (a : A) w :
  exists w', bestEffort Host f a w = (w', Returned tt)
             /\ sendCalls w' = sendCalls w /\ lastPrimedAt w' = lastPrimedAt w.
Proof.
  destruct f as [fn|]; simpl; [|now exists w].
  unfold tryCatch, callHost. destruct (fn a (host w)) as [h [[]|]]; simpl; eauto.
Qed.

Lemma primeChannel_returns actions channelId now w :
  exists w', primeChannel actions channelId now w = (w', Returned tt)
             /\ sendCalls w' = sendCalls w.
Proof.
  unfold primeChannel.
  destruct (now - default 0 (JsMap.get channelId (lastPrimedAt w)) <? PRIME_TTL_MS);
    [now exists w|].
  set (w1 := mkWorld _ _ _).
  unfold tryCatch at 1, bind.
  destruct (bestEffort_returns (actions ≫= jumpToPresent Host) channelId w1)
    as (w2 & -> & E2 & _).
  destruct (bestEffort_returns (actions ≫= fetchMessages Host) (channelId, 50) w2)
    as (w3 & -> & E3 & _).
  destruct (bestEffort_returns (actions ≫= fetchLocalMessages Host) channelId w3)
    as (w4 & -> & E4 & _).
  destruct (bestEffort_returns (actions ≫= fetchNewLocalMessages Host) channelId w4)
    as (w5 & -> & E5 & _).
  exists w5. split; [reflexivity|]. rewrite E5, E4, E3, E2. reflexivity.
Qed.

Lemma tryAttempts_spec send fns w :
  exists (b : bool) w' (k : nat),
    tryAttempts send fns w = (w', Returned b)
    /\ sendCalls w' = sendCalls w ++ callsOf fns k b
    /\ (if b then (k < length fns)%nat else k = length fns)
    /\ sendsThrewAsRecorded send (callsOf fns k b) (host w)
    /\ host w' = hostAfterSends send (callsOf fns k b) (host w)
    /\ lastPrimedAt w' = lastPrimedAt w.
Proof.
  revert w. induction fns as [|a fns IH]; intros w.
  - exists false, w, 0%nat. simpl. unfold callsOf. simpl.
    rewrite app_nil_r. repeat split.
  - simpl. unfold tryCatch, bind, callSend.
    destruct (send a (host w)) as [h [[]|]] eqn:Es; simpl.
    + exists true, (mkWorld h (lastPrimedAt w) (sendCalls w ++ [(a, false)])), 0%nat.
      unfold callsOf. simpl. rewrite Es. simpl. repeat split. lia.
    + destruct (IH (mkWorld h (lastPrimedAt w) (sendCalls w ++ [(a, true)])))
        as (b & w' & k & -> & Ec & Hk & Ht & Hh & Hp).
      exists b, w', (S k). split; [reflexivity|]. simpl in *.
      assert (Hcalls : callsOf (a :: fns) (S k) b = (a, true) :: callsOf fns k b)
        by reflexivity.
      rewrite Hcalls. simpl. rewrite Es. simpl. repeat split; try assumption.
      * rewrite Ec. now rewrite <- app_assoc.
      * destruct b; lia.
Qed.



End DispatcherFacts.

Section DispatcherExamples.
Import Plugin.


End DispatcherExamples.

(* ===================================================================== *)
(** * Properties of the insertion-ordered map *)
(* ===================================================================== *)

Section JsMapFacts.
Context {V : Type}.
Implicit Types (m : list (string * V)) (k key : string) (v : V).

Lemma get_set_eq key v m : JsMap.get key (JsMap.set key v m) = Some v.
Proof.
  induction m as [|[k v0] m IH]; simpl.
  - now rewrite String.eqb_refl.
  - destruct (String.eqb k key) eqn:E; simpl; rewrite E; [reflexivity|exact IH].
Qed.

Lemma get_set_ne key k v m : key <> k -> JsMap.get k (JsMap.set key v m) = JsMap.get k m.
Proof.
  intros Hne. induction m as [|[k0 v0] m IH]; simpl.
  - destruct (String.eqb_spec key k); [contradiction|reflexivity].
  - destruct (String.eqb_spec k0 key) as [->|Hk]; simpl.
    + destruct (String.eqb_spec key k); [contradiction|reflexivity].
    + destruct (String.eqb k0 k); [reflexivity|exact IH].
Qed.

Lemma get_delete_eq key m : JsMap.get key (JsMap.delete key m) = None.
Proof.
  induction m as [|[k v0] m IH]; simpl; [reflexivity|].
  destruct (String.eqb k key) eqn:E; simpl; [exact IH|now rewrite E].
Qed.

Lemma get_delete_ne key k m : key <> k -> JsMap.get k (JsMap.delete key m) = JsMap.get k m.
Proof.
  intros Hne. induction m as [|[k0 v0] m IH]; simpl; [reflexivity|].
  destruct (String.eqb_spec k0 key) as [->|Hk]; simpl.
  - destruct (String.eqb_spec key k); [contradiction|exact IH].
  - destruct (String.eqb k0 k); [reflexivity|exact IH].
Qed.

Lemma delete_absent key m : JsMap.get key m = None -> JsMap.delete key m = m.
Proof.
  induction m as [|[k v0] m IH]; simpl; [reflexivity|].
  destruct (String.eqb k key); [discriminate|]. intros H. now rewrite IH.
Qed.

Lemma delete_delete key m : JsMap.delete key (JsMap.delete key m) = JsMap.delete key m.
Proof. apply delete_absent, get_delete_eq. Qed.

Lemma set_absent key v m : JsMap.get key m = None -> JsMap.set key v m = m ++ [(key, v)].
Proof.
  induction m as [|[k v0] m IH]; simpl; [reflexivity|].
  destruct (String.eqb k key); [discriminate|]. intros H. now rewrite IH.
Qed.

Lemma length_set_present key v v0 m :
  JsMap.get key m = Some v0 -> length (JsMap.set key v m) = length m.
Proof.
  induction m as [|[k v1] m IH]; simpl; [discriminate|].
  destruct (String.eqb k key); simpl; [reflexivity|]. intros H. now rewrite IH.
Qed.

Lemma length_set_le key v m : (length (JsMap.set key v m) <= S (length m))%nat.
Proof.
  induction m as [|[k v1] m IH]; simpl; [lia|].
  destruct (String.eqb k key); simpl; lia.
Qed.

Lemma length_delete_le key m : (length (JsMap.delete key m) <= length m)%nat.
Proof.
  induction m as [|[k v1] m IH]; simpl; [lia|].
  destruct (String.eqb k key); simpl; lia.
Qed.

Lemma length_delete_first key v m :
  (length (JsMap.delete key ((key, v) :: m)) <= length m)%nat.
Proof. simpl. rewrite String.eqb_refl. apply length_delete_le. Qed.

Lemma get_Some_elem key v m : JsMap.get key m = Some v -> (key, v) ∈ m.
Proof.
  induction m as [|[k v1] m IH]; simpl; [discriminate|].
  destruct (String.eqb_spec k key) as [->|Hk].
  - intros [= ->]. apply list_elem_of_here.
  - intros H. apply list_elem_of_further. now apply IH.
Qed.

Lemma Forall_set (P : string * V -> Prop) key v m :
  P (key, v) -> Forall P m -> Forall P (JsMap.set key v m).
Proof.
  intros Hv. induction 1 as [|[k v1] m Hx Hm IH]; simpl.
  - now constructor.
  - destruct (String.eqb_spec k key) as [->|Hk]; constructor; auto.
Qed.

Lemma Forall_delete (P : string * V -> Prop) key m :
  Forall P m -> Forall P (JsMap.delete key m).
Proof.
  induction 1 as [|[k v1] m Hx Hm IH]; simpl; [constructor|].
  destruct (String.eqb k key); [exact IH|now constructor].
Qed.

Lemma delete_sublist key m : sublist (JsMap.delete key m) m.
Proof.
  induction m as [|[k v1] m IH]; simpl; [constructor|].
  destruct (String.eqb k key); [now apply sublist_cons|now apply sublist_skip].
Qed.

End JsMapFacts.

(* ===================================================================== *)
(** * The layout pass *)
(* ===================================================================== *)

Section LayoutFacts.
Import Native Layout.
Implicit Types (ws : list BrowserWindow.t) (entries : list (string * WindowState.t)).

Lemma isLive_alter ws x y h h' :
  isLive (alter (BrowserWindow.setPosition x y) h ws) h' = isLive ws h'.
Proof.
  unfold isLive. destruct (decide (h = h')) as [->|Hne].
  - rewrite list_lookup_alter_eq. destruct (ws !! h'); reflexivity.
  - now rewrite list_lookup_alter_ne.
Qed.

Lemma placed_ext ws1 ws2 st :
  (forall h, isLive ws1 h = isLive ws2 h) -> placed ws1 st = placed ws2 st.
Proof. intros H. unfold placed. now rewrite H. Qed.

Lemma layoutWrites_ext area i sb entries ws1 ws2 :
  (forall h, isLive ws1 h = isLive ws2 h) ->
  layoutWrites area i sb entries ws1 = layoutWrites area i sb entries ws2.
Proof.
  intros H. revert i sb. induction entries as [|[k st] rest IH]; intros i sb; simpl.
  - reflexivity.
  - rewrite (placed_ext ws1 ws2 st H). destruct (placed ws2 st); now rewrite IH.
Qed.

Lemma isLive_applyWrites writes ws h : isLive (applyWrites writes ws) h = isLive ws h.
Proof.
  revert ws. induction writes as [|[h' [x y]] rest IH]; intros ws; simpl; [reflexivity|].
  rewrite IH. unfold applyWrite. simpl. apply isLive_alter.
Qed.

Lemma length_applyWrites writes ws : length (applyWrites writes ws) = length ws.
Proof.
  revert ws. induction writes as [|[h' [x y]] rest IH]; intros ws; simpl; [reflexivity|].
  rewrite IH. unfold applyWrite. now rewrite length_alter.
Qed.

(** The loop is the sequence of its [setPosition] calls. *)
Lemma repositionLoop_writes area i sb entries ws :
  repositionLoop area i sb entries ws = applyWrites (layoutWrites area i sb entries ws) ws.
Proof.
  revert i sb ws. induction entries as [|[k st] rest IH]; intros i sb ws; simpl.
  - reflexivity.
  - unfold placed, isLive.
    destruct (ws !! WindowState.win st) as [w|] eqn:Ew; simpl; [|apply IH].
    destruct (BrowserWindow.isDestroyed w) eqn:Ed; simpl; [apply IH|].
    destruct (WindowState.manualPos st) as [p|]; simpl; [apply IH|].
    rewrite IH. unfold applyWrites at 2. simpl. unfold applyWrite at 2. simpl.
    set (pos := getWindowPosition _ _ _ _).
    assert (Ealt : <[WindowState.win st := BrowserWindow.setPosition pos.1 pos.2 w]> ws
                   = alter (BrowserWindow.setPosition pos.1 pos.2) (WindowState.win st) ws).
    { apply list_eq. intros j. destruct (decide (WindowState.win st = j)) as [<-|Hne].
      - rewrite list_lookup_alter_eq, Ew. simpl.
        apply list_lookup_insert_eq. now apply lookup_lt_Some in Ew.
      - now rewrite list_lookup_insert_ne, list_lookup_alter_ne. }
    rewrite Ealt. f_equal. apply layoutWrites_ext. intros h. apply isLive_alter.
Qed.

Lemma lookup_applyWrites writes ws j :
  applyWrites writes ws !! j =
  match lastWrite j writes with
  | Some p => BrowserWindow.setPosition p.1 p.2 <$> ws !! j
  | None => ws !! j
  end.
Proof.
  revert ws. induction writes as [|[h p] rest IH]; intros ws; simpl; [reflexivity|].
  rewrite IH. unfold applyWrite. simpl.
  destruct (lastWrite j rest) as [q|].
  - destruct (decide (h = j)) as [->|Hne].
    + rewrite list_lookup_alter_eq. now destruct (ws !! j).
    + now rewrite list_lookup_alter_ne.
  - destruct (Nat.eqb_spec h j) as [->|Hne].
    + now rewrite list_lookup_alter_eq.
    + now rewrite list_lookup_alter_ne.
Qed.

Lemma applyWrites_twice writes ws :
  applyWrites writes (applyWrites writes ws) = applyWrites writes ws.
Proof.
  apply list_eq. intros j. rewrite !lookup_applyWrites.
  destruct (lastWrite j writes) as [p|]; [|reflexivity].
  now destruct (ws !! j).
Qed.

(** Running the layout pass a second time changes nothing. *)
Lemma repositionWindows_idempotent s :
  repositionWindows (repositionWindows s) = repositionWindows s.
Proof.
  unfold repositionWindows, withWindows. simpl. f_equal.
  rewrite (repositionLoop_writes _ _ _ _ (windows s)).
  rewrite repositionLoop_writes.
  rewrite (layoutWrites_ext _ _ _ _ _ (windows s)) by (intros h; apply isLive_applyWrites).
  apply applyWrites_twice.
Qed.

End LayoutFacts.

(* ===================================================================== *)
(** * Closing an overlay *)
(* ===================================================================== *)

Section CloseFacts.
Import Native Layout.

Lemma activeWindows_repositionWindows s :
  activeWindows (repositionWindows s) = activeWindows s.
Proof. reflexivity. Qed.

Lemma isLive_repositionWindows s h :
  isLive (windows (repositionWindows s)) h = isLive (windows s) h.
Proof.
  unfold repositionWindows. simpl. rewrite repositionLoop_writes.
  apply isLive_applyWrites.
Qed.

Lemma length_windows_repositionWindows s :
  length (windows (repositionWindows s)) = length (windows s).
Proof.
  unfold repositionWindows. simpl. rewrite repositionLoop_writes.
  apply length_applyWrites.
Qed.

Lemma closeNotification_absent id s :
  JsMap.get id (activeWindows s) = None -> closeNotification id s = repositionWindows s.
Proof.
  intros H. unfold closeNotification. rewrite H, (delete_absent _ _ H).
  now destruct s.
Qed.

(** C7. Closing the same conversation twice gives the state the first
    close gave: nothing more is removed, no further window is closed and no
    window moves. The same holds of the ["closed"] listener that the first
    close sets off. Closing a conversation that has no entry removes nothing
    and closes nothing; it only runs the layout pass. No step of
    [closeNotification] can throw, so the model is a total function. *)
Theorem closeNotification_twice (id : string) (s : State) :
  closeNotification id (closeNotification id s) = closeNotification id s
  /\ onClosed id (closeNotification id s) = closeNotification id s
  /\ JsMap.get id (activeWindows (closeNotification id s)) = None
  /\ (JsMap.get id (activeWindows s) = None ->
      closeNotification id s = repositionWindows s
      /\ activeWindows (closeNotification id s) = activeWindows s
      /\ forall h, isLive (windows (closeNotification id s)) h = isLive (windows s) h).
Proof.
  assert (Hgone : JsMap.get id (activeWindows (closeNotification id s)) = None).
  { unfold closeNotification. rewrite activeWindows_repositionWindows. simpl.
    apply get_delete_eq. }
  split; [|split; [|split; [exact Hgone|]]].
  - rewrite (closeNotification_absent id (closeNotification id s) Hgone).
    unfold closeNotification. apply repositionWindows_idempotent.
  - unfold onClosed. rewrite (delete_absent _ _ Hgone).
    replace (withRegistry (activeWindows (closeNotification id s)) (closeNotification id s))
      with (closeNotification id s) by (now destruct (closeNotification id s)).
    unfold closeNotification. apply repositionWindows_idempotent.
  - intros Habs. rewrite (closeNotification_absent id s Habs).
    split; [reflexivity|]. split; [reflexivity|].
    intros h. apply isLive_repositionWindows.
Qed.

End CloseFacts.

(* ===================================================================== *)
(** * Invariants of the registry entries *)
(* ===================================================================== *)

Section EntryInvariants.
Import Native.

(** A property of entries that holds of a new entry and survives the three
    ways the code updates an entry holds of every entry of every state the
    registry can reach. *)
Variable P : WindowState.t -> Prop.
Hypothesis P_created :
  forall h key name avatar msg manual,
    P (WindowState.mk h key name avatar [msg] (OverlayMessage.timestamp msg)
         WINDOW_MIN_HEIGHT manual).
Hypothesis P_message :
  forall st msg,
    P st ->
    P (WindowState.withMessages (pushMessage (WindowState.messages st) msg)
         (OverlayMessage.timestamp msg) st).
Hypothesis P_height :
  forall st v, P st -> P (WindowState.withCurrentHeight (normalizeRequestedHeight v) st).
Hypothesis P_manual : forall st p, P st -> P (WindowState.withManualPos p st).

Local Abbreviation holds s := (Forall (fun e => P e.2) (activeWindows s)).

Lemma holds_get s key st : holds s -> JsMap.get key (activeWindows s) = Some st -> P st.
Proof.
  intros Hs Hg. apply get_Some_elem in Hg.
  rewrite Forall_forall in Hs. exact (Hs _ Hg).
Qed.

Lemma holds_closeNotification id s : holds s -> holds (closeNotification id s).
Proof. intros Hs. unfold closeNotification. simpl. now apply Forall_delete. Qed.

Lemma holds_limitOverlays s : holds s -> holds (limitOverlays s).
Proof.
  intros Hs. unfold limitOverlays.
  destruct (MAX_OVERLAY_WINDOWS <=? length (activeWindows s))%nat; [|exact Hs].
  destruct (JsMap.firstKey (activeWindows s)) as [oldest|]; [|exact Hs].
  destruct (Js.truthy oldest); [|exact Hs]. now apply holds_closeNotification.
Qed.

Lemma holds_createOverlay key data msg s : holds s -> holds (createOverlay key data msg s).
Proof.
  intros Hs. unfold createOverlay. simpl.
  apply Forall_set; [apply P_created|exact Hs].
Qed.

Lemma holds_step s e : holds s -> holds (step s e).
Proof.
  intros Hs. destruct e as [data now|id| |payload|key h|key| |h x y|h]; simpl.
  - unfold showNotification.
    destruct (JsMap.get _ (activeWindows s)) as [existing|] eqn:Eg.
    + destruct (isLive _ _).
      * unfold appendToExisting. simpl.
        apply Forall_set; [|now apply Forall_delete].
        simpl. apply P_message. exact (holds_get _ _ _ Hs Eg).
      * now apply holds_createOverlay, holds_limitOverlays.
    + now apply holds_createOverlay, holds_limitOverlays.
  - now apply holds_closeNotification.
  - constructor.
  - unfold onResize. destruct payload as [p|]; [|exact Hs].
    destruct (Js.truthy _); [|exact Hs].
    destruct (JsMap.get _ (activeWindows s)) as [st|] eqn:Eg; [|exact Hs].
    destruct (windows s !! _) as [w|]; [|exact Hs].
    destruct (BrowserWindow.isDestroyed w); [exact Hs|].
    destruct (_ =? _); [exact Hs|].
    simpl. apply Forall_set; [|exact Hs].
    simpl. apply P_height. exact (holds_get _ _ _ Hs Eg).
  - unfold updateDraggedPosition. destruct (windows s !! h) as [w|]; [|exact Hs].
    destruct (BrowserWindow.isDestroyed w); [exact Hs|].
    simpl.
    destruct (JsMap.get key (activeWindows s)) as [st|] eqn:Eg; [|exact Hs].
    apply Forall_set; [|exact Hs]. simpl. apply P_manual. exact (holds_get _ _ _ Hs Eg).
  - unfold onClosed. simpl. now apply Forall_delete.
  - exact Hs.
  - unfold moveWindow. destruct (windows s !! h) as [w|]; [|exact Hs].
    destruct (BrowserWindow.isDestroyed w); exact Hs.
  - exact Hs.
Qed.

Lemma holds_run s events : holds s -> holds (run s events).
Proof.
  revert s. induction events as [|e events IH]; intros s Hs; simpl; [exact Hs|].
  apply IH, holds_step, Hs.
Qed.

Lemma reachable_entry persisted area events key st :
  JsMap.get key (activeWindows (run (initialState persisted area) events)) = Some st -> P st.
Proof.
  apply holds_get, holds_run. constructor.
Qed.

End EntryInvariants.

(* ===================================================================== *)
(** * Window heights *)
(* ===================================================================== *)

Section HeightFacts.
Import Native.

Lemma clamp_range n :
  WINDOW_MIN_HEIGHT <= clamp n WINDOW_MIN_HEIGHT WINDOW_MAX_HEIGHT <= WINDOW_MAX_HEIGHT.
Proof. unfold clamp, WINDOW_MIN_HEIGHT, WINDOW_MAX_HEIGHT. lia. Qed.

Lemma normalizeRequestedHeight_range h :
  WINDOW_MIN_HEIGHT <= normalizeRequestedHeight h <= WINDOW_MAX_HEIGHT.
Proof.
  unfold normalizeRequestedHeight. destruct (Js.toNumber h); try apply clamp_range.
  all: unfold WINDOW_MIN_HEIGHT, WINDOW_MAX_HEIGHT; lia.
Qed.




End HeightFacts.

(* ===================================================================== *)
(** * Resize requests *)
(* ===================================================================== *)

Section ResizeFacts.
Import Native Layout.

Lemma Qceiling_below q z : (q < inject_Z z)%Q -> Qceiling q <= z.
Proof.
  intros H. pose proof (Qceiling_lt q) as H1.
  pose proof (Qlt_trans _ _ _ H1 H) as H2. rewrite <- Zlt_Qlt in H2. lia.
Qed.

Lemma Qceiling_above q z : (inject_Z z < q)%Q -> z < Qceiling q.
Proof.
  intros H. pose proof (Qle_ceiling q) as H1.
  pose proof (Qlt_le_trans _ _ _ H H1) as H2. now rewrite <- Zlt_Qlt in H2.
Qed.

(** C5, as stated, fails: [Infinity] is above [WINDOW_MAX_HEIGHT], and a
    request carrying it shrinks the 300 pixel overlay to
    [WINDOW_MIN_HEIGHT]. *)
Lemma onResize_infinity_stores_minimum :
  storedHeight "a" Sample.oneOverlay = Some 300
  /\ storedHeight "a"
       (onResize (Some (mkResize "a" (Js.Num Js.PosInfinity))) Sample.oneOverlay)
     = Some WINDOW_MIN_HEIGHT
  /\ ~ heightAboveMaxStoresMax Sample.oneOverlay "a" (Js.Num Js.PosInfinity).
Proof.
  split; [reflexivity|]. split; [reflexivity|].
  intros H. specialize (H I). discriminate H.
Qed.

(** C5, amended. A resize request whose id is a non-empty key of an entry
    with an open window stores the normalized height: [WINDOW_MIN_HEIGHT]
    for a finite height below it, [WINDOW_MAX_HEIGHT] for a finite height
    above it, and [WINDOW_MIN_HEIGHT] for a height that is not finite. When
    the normalized height is the stored one the state is left as it is:
    no size is set and no layout pass runs. Otherwise the window gets the
    new size and the layout pass runs. *)
Theorem onResize_stores_normalized_height
    (s : State) (key : string) (st : WindowState.t) (w : BrowserWindow.t) (h : Js.value)
    (Hkey : Js.truthy key = true)
    (Hentry : JsMap.get key (activeWindows s) = Some st)
    (Hwin : windows s !! WindowState.win st = Some w)
    (Hopen : BrowserWindow.isDestroyed w = false) :
  let s' := onResize (Some (mkResize key h)) s in
  storedHeight key s' = Some (normalizeRequestedHeight h)
  /\ (forall q, Js.toNumber h = Js.Finite q ->
        ((q < inject_Z WINDOW_MIN_HEIGHT)%Q -> storedHeight key s' = Some WINDOW_MIN_HEIGHT)
        /\ ((inject_Z WINDOW_MAX_HEIGHT < q)%Q -> storedHeight key s' = Some WINDOW_MAX_HEIGHT))
  /\ (Js.isFinite (Js.toNumber h) = false -> storedHeight key s' = Some WINDOW_MIN_HEIGHT)
  /\ (normalizeRequestedHeight h = WindowState.currentHeight st -> s' = s)
  /\ (normalizeRequestedHeight h <> WindowState.currentHeight st ->
      s' = repositionWindows
             (mkState
                (JsMap.set key
                   (WindowState.withCurrentHeight (normalizeRequestedHeight h) st)
                   (activeWindows s))
                (<[WindowState.win st :=
                     BrowserWindow.setSize WINDOW_WIDTH (normalizeRequestedHeight h) w]>
                   (windows s))
                (lastDraggedPos s) (workAreaSize s))).
Proof.
  intros s'.
  assert (Hs' : s' = if WindowState.currentHeight st =? normalizeRequestedHeight h then s
                     else repositionWindows
             (mkState
                (JsMap.set key
                   (WindowState.withCurrentHeight (normalizeRequestedHeight h) st)
                   (activeWindows s))
                (<[WindowState.win st :=
                     BrowserWindow.setSize WINDOW_WIDTH (normalizeRequestedHeight h) w]>
                   (windows s))
                (lastDraggedPos s) (workAreaSize s))).
  { unfold s', onResize. simpl. now rewrite Hkey, Hentry, Hwin, Hopen. }
  assert (Hstored : storedHeight key s' = Some (normalizeRequestedHeight h)).
  { rewrite Hs'. destruct (Z.eqb_spec (WindowState.currentHeight st) (normalizeRequestedHeight h))
      as [E|E].
    - unfold storedHeight. rewrite Hentry. simpl. now rewrite E.
    - unfold storedHeight. rewrite activeWindows_repositionWindows. simpl.
      now rewrite get_set_eq. }
  split; [exact Hstored|]. split; [|split; [|split]].
  - intros q Hq. rewrite Hstored. unfold normalizeRequestedHeight. rewrite Hq.
    split; intros Hlt; f_equal.
    + apply Qceiling_below in Hlt. unfold clamp. revert Hlt.
      unfold WINDOW_MIN_HEIGHT, WINDOW_MAX_HEIGHT. lia.
    + apply Qceiling_above in Hlt. unfold clamp. revert Hlt.
      unfold WINDOW_MIN_HEIGHT, WINDOW_MAX_HEIGHT. lia.
  - intros Hnf. rewrite Hstored. unfold normalizeRequestedHeight.
    destruct (Js.toNumber h); [discriminate Hnf|reflexivity..].
  - intros E. rewrite Hs', E. now rewrite Z.eqb_refl.
  - intros E. rewrite Hs'.
    destruct (Z.eqb_spec (WindowState.currentHeight st) (normalizeRequestedHeight h)) as [E'|_];
      [now symmetry in E'|reflexivity].
Qed.

(** The 300 pixel overlay of conversation ["a"] asked to take 1000 pixels. *)
Lemma onResize_stores_normalized_height_witness :
  storedHeight "a"
    (onResize (Some (mkResize "a" (Js.Num (Js.Finite (1000 # 1))))) Sample.oneOverlay)
  = Some WINDOW_MAX_HEIGHT.
Proof.
  refine (proj2 (proj1 (proj2
    (onResize_stores_normalized_height Sample.oneOverlay "a"
       (WindowState.mk 0 "a" "Ann" "https://cdn.discordapp.com/embed/avatars/0.png"
          [OverlayMessage.mk "m1" "hi" 1000] 1000 300 None)
       (BrowserWindow.mk false (1406, 760) (WINDOW_WIDTH, 300))
       (Js.Num (Js.Finite (1000 # 1)))
       eq_refl eq_refl eq_refl eq_refl)) (1000 # 1)%Q eq_refl) _).
  reflexivity.
Defined.

End ResizeFacts.

(* ===================================================================== *)
(** * The message buffer *)
(* ===================================================================== *)

Section BufferFacts.
Import Native.

Lemma length_lastN {A} n (l : list A) : length (lastN n l) = Nat.min n (length l).
Proof. unfold lastN. rewrite length_drop. lia. Qed.

Lemma lastN_all {A} n (l : list A) : (length l <= n)%nat -> lastN n l = l.
Proof. intros H. unfold lastN. now replace (length l - n)%nat with 0%nat by lia. Qed.

Lemma lastN_app_lastN {A} n (l l' : list A) : lastN n (lastN n l ++ l') = lastN n (l ++ l').
Proof.
  destruct (decide (length l <= n)%nat) as [Hle|Hgt].
  - now rewrite (lastN_all n l Hle).
  - unfold lastN. rewrite !length_app, length_drop.
    replace (length l - (length l - n) + length l' - n)%nat with (length l')%nat by lia.
    replace (length l + length l' - n)%nat with ((length l - n) + length l')%nat by lia.
    rewrite <- drop_drop. f_equal. rewrite drop_app_le by lia. reflexivity.
Qed.

Lemma pushMessage_lastN msgs msg :
  pushMessage msgs msg = lastN MAX_RENDERED_MESSAGES (msgs ++ [msg]).
Proof.
  unfold pushMessage.
  destruct (Nat.ltb_spec MAX_RENDERED_MESSAGES (length (msgs ++ [msg]))) as [H|H].
  - reflexivity.
  - now rewrite lastN_all.
Qed.

Lemma fold_pushMessage more buffer :
  lastN MAX_RENDERED_MESSAGES (fold_left pushMessage more buffer)
  = lastN MAX_RENDERED_MESSAGES (buffer ++ more)
  /\ (more <> [] ->
      fold_left pushMessage more buffer = lastN MAX_RENDERED_MESSAGES (buffer ++ more)).
Proof.
  revert buffer. induction more as [|m more IH]; intros buffer.
  - rewrite app_nil_r. split; [reflexivity|congruence].
  - simpl. destruct (IH (pushMessage buffer m)) as [IH1 IH2].
    assert (E : lastN MAX_RENDERED_MESSAGES (pushMessage buffer m ++ more)
                = lastN MAX_RENDERED_MESSAGES (buffer ++ m :: more)).
    { rewrite pushMessage_lastN, lastN_app_lastN, <- app_assoc. reflexivity. }
    split.
    + now rewrite IH1.
    + intros _. destruct more as [|m' more'].
      * simpl. rewrite pushMessage_lastN. reflexivity.
      * rewrite IH2 by discriminate. exact E.
Qed.

(** After [showNotification] the conversation has an open overlay. *)
Lemma isLive_new_window ws w :
  BrowserWindow.isDestroyed w = false -> isLive (ws ++ [w]) (length ws) = true.
Proof.
  intros H. unfold isLive. rewrite lookup_app_r by lia.
  rewrite Nat.sub_diag. simpl. now rewrite H.
Qed.

Lemma createOverlay_entry key data msg s :
  exists st,
    JsMap.get key (activeWindows (createOverlay key data msg s)) = Some st
    /\ WindowState.messages st = [msg]
    /\ WindowState.win st = length (windows s)
    /\ WindowState.manualPos st = lastDraggedPos s
    /\ isLive (windows (createOverlay key data msg s)) (WindowState.win st) = true.
Proof.
  eexists. unfold createOverlay. simpl. rewrite get_set_eq.
  split; [reflexivity|]. simpl. repeat split.
  now apply isLive_new_window.
Qed.

Lemma appendToExisting_entry key existing msg s :
  JsMap.get key (activeWindows (appendToExisting key existing msg s))
  = Some (WindowState.withMessages (pushMessage (WindowState.messages existing) msg)
            (OverlayMessage.timestamp msg) existing)
  /\ forall h, isLive (windows (appendToExisting key existing msg s)) h = isLive (windows s) h.
Proof.
  unfold appendToExisting. split.
  - rewrite activeWindows_repositionWindows. simpl. apply get_set_eq.
  - intros h. now rewrite isLive_repositionWindows.
Qed.

Lemma showNotification_on_open data now s existing :
  JsMap.get (NotificationData.channelId data) (activeWindows s) = Some existing ->
  isLive (windows s) (WindowState.win existing) = true ->
  showNotification data now s
  = appendToExisting (NotificationData.channelId data) existing (makeMessage data now) s.
Proof. intros Hg Hl. unfold showNotification. now rewrite Hg, Hl. Qed.

Lemma showNotification_on_closed data now s :
  hasOpenOverlay (NotificationData.channelId data) s = false ->
  showNotification data now s
  = createOverlay (NotificationData.channelId data) data (makeMessage data now)
      (limitOverlays s).
Proof.
  unfold hasOpenOverlay, showNotification.
  destruct (JsMap.get _ _) as [st|]; [|reflexivity]. now intros ->.
Qed.

Lemma showAll_on_open key calls s existing :
  Forall (fun c => NotificationData.channelId c.1 = key) calls ->
  JsMap.get key (activeWindows s) = Some existing ->
  isLive (windows s) (WindowState.win existing) = true ->
  hasOpenOverlay key (showAll calls s) = true
  /\ bufferOf key (showAll calls s)
     = Some (fold_left pushMessage (map (fun c => makeMessage c.1 c.2) calls)
               (WindowState.messages existing)).
Proof.
  intros Hall. revert s existing.
  induction Hall as [|[data now] calls Hkey Hall IH]; intros s existing Hg Hl.
  - unfold showAll, hasOpenOverlay, bufferOf. simpl. now rewrite Hg, Hl.
  - simpl in Hkey. subst key. unfold showAll. simpl.
    rewrite (showNotification_on_open data now s existing Hg Hl).
    destruct (appendToExisting_entry (NotificationData.channelId data) existing
                (makeMessage data now) s) as [Hg' Hl'].
    apply (IH _ _ Hg'). rewrite Hl'. exact Hl.
Qed.

(** C4. In every reachable state every entry buffers at most
    [MAX_RENDERED_MESSAGES] messages. A message for a conversation with an
    open overlay is appended and the buffer is cut at the front to its last
    [MAX_RENDERED_MESSAGES] elements; a message for a conversation without
    one starts a buffer holding just that message. So after any run of
    messages for one conversation the buffer holds the most recent
    [min total MAX_RENDERED_MESSAGES] of them, in arrival order. *)
Theorem message_buffer_keeps_most_recent :
  (forall persisted area events key st,
     JsMap.get key (activeWindows (run (initialState persisted area) events)) = Some st ->
     (length (WindowState.messages st) <= MAX_RENDERED_MESSAGES)%nat)
  /\ (forall msgs msg,
        pushMessage msgs msg = lastN MAX_RENDERED_MESSAGES (msgs ++ [msg])
        /\ (length msgs = MAX_RENDERED_MESSAGES ->
            pushMessage msgs msg = drop 1 msgs ++ [msg]))
  /\ (forall key s existing calls,
        Forall (fun c => NotificationData.channelId c.1 = key) calls ->
        calls <> [] ->
        JsMap.get key (activeWindows s) = Some existing ->
        isLive (windows s) (WindowState.win existing) = true ->
        bufferOf key (showAll calls s)
        = Some (lastN MAX_RENDERED_MESSAGES
                  (WindowState.messages existing
                   ++ map (fun c => makeMessage c.1 c.2) calls)))
  /\ (forall key s calls,
        Forall (fun c => NotificationData.channelId c.1 = key) calls ->
        calls <> [] ->
        hasOpenOverlay key s = false ->
        let arrived := map (fun c => makeMessage c.1 c.2) calls in
        bufferOf key (showAll calls s) = Some (lastN MAX_RENDERED_MESSAGES arrived)
        /\ length (lastN MAX_RENDERED_MESSAGES arrived)
           = Nat.min (length calls) MAX_RENDERED_MESSAGES).
Proof.
  split; [|split; [|split]].
  - intros persisted area events key st.
    apply (reachable_entry
             (fun st => (length (WindowState.messages st) <= MAX_RENDERED_MESSAGES)%nat)).
    + intros. simpl. unfold MAX_RENDERED_MESSAGES. lia.
    + intros st0 msg _. simpl. rewrite pushMessage_lastN, length_lastN. lia.
    + intros st0 v H. exact H.
    + intros st0 p H. exact H.
  - intros msgs msg. split; [apply pushMessage_lastN|].
    intros Hlen. rewrite pushMessage_lastN. unfold lastN.
    rewrite length_app, Hlen. simpl.
    replace (MAX_RENDERED_MESSAGES + 1 - MAX_RENDERED_MESSAGES)%nat with 1%nat by lia.
    rewrite drop_app_le by (rewrite Hlen; unfold MAX_RENDERED_MESSAGES; lia).
    reflexivity.
  - intros key s existing calls Hall Hne Hg Hl.
    destruct (showAll_on_open key calls s existing Hall Hg Hl) as [_ ->].
    f_equal. apply fold_pushMessage. now destruct calls.
  - intros key s calls Hall Hne Hclosed arrived.
    destruct calls as [|[data now] calls]; [contradiction|].
    inversion Hall as [|c cs Hkey Hall']. subst c cs. simpl in Hkey. subst key.
    split.
    + unfold showAll. simpl.
      rewrite (showNotification_on_closed data now s Hclosed).
      destruct (createOverlay_entry (NotificationData.channelId data) data
                  (makeMessage data now) (limitOverlays s))
        as (st & Hg & Hm & _ & _ & Hl).
      destruct (showAll_on_open _ calls _ st Hall' Hg Hl) as [_ Hb].
      unfold showAll in Hb. rewrite Hb, Hm. f_equal.
      destruct calls as [|c calls]; [reflexivity|].
      pose proof (proj2 (fold_pushMessage
                           (map (fun c => makeMessage c.1 c.2) (c :: calls))
                           [makeMessage data now])) as E.
      rewrite E by (simpl; discriminate). reflexivity.
    + rewrite length_lastN. unfold arrived. rewrite length_map. lia.
Qed.

End BufferFacts.

(* ===================================================================== *)
(** * Where the layout pass puts each window *)
(* ===================================================================== *)

Section LayoutPositions.
Import Native Layout.
Implicit Types (ws : list BrowserWindow.t) (entries : list (string * WindowState.t)).

Lemma layoutWrites_app area i sb pre post ws :
  layoutWrites area i sb (pre ++ post) ws
  = layoutWrites area i sb pre ws
    ++ layoutWrites area (i + placedCount ws pre) (sb + placedHeight ws pre) post ws.
Proof.
  revert i sb. induction pre as [|[k st] pre IH]; intros i sb; simpl.
  - now rewrite !Z.add_0_r.
  - destruct (placed ws st); simpl; rewrite IH.
    + now rewrite !Z.add_assoc.
    + reflexivity.
Qed.

Lemma lastWrite_app h writes1 writes2 :
  lastWrite h (writes1 ++ writes2)
  = match lastWrite h writes2 with
    | Some q => Some q
    | None => lastWrite h writes1
    end.
Proof.
  induction writes1 as [|[h' p] writes1 IH]; simpl.
  - now destruct (lastWrite h writes2).
  - rewrite IH. now destruct (lastWrite h writes2).
Qed.

Lemma lastWrite_not_held area i sb entries ws h :
  h ∉ handles entries -> lastWrite h (layoutWrites area i sb entries ws) = None.
Proof.
  revert i sb. induction entries as [|[k st] entries IH]; intros i sb Hh; simpl.
  - reflexivity.
  - unfold handles in Hh. simpl in Hh. rewrite not_elem_of_cons in Hh.
    destruct Hh as [Hne Hh].
    destruct (placed ws st); simpl; rewrite (IH _ _ Hh); [|reflexivity].
    destruct (Nat.eqb_spec (WindowState.win st) h); [congruence|reflexivity].
Qed.

Lemma handles_app pre post : handles (pre ++ post) = handles pre ++ handles post.
Proof. unfold handles. apply fmap_app. Qed.

(** The call made for one entry of the registry. *)
Lemma lastWrite_entry area pre key st post ws :
  NoDup (handles (pre ++ (key, st) :: post)) ->
  lastWrite (WindowState.win st) (layoutWrites area 0 0 (pre ++ (key, st) :: post) ws)
  = if placed ws st
    then Some (getWindowPosition area (placedCount ws pre) (WindowState.currentHeight st)
                 (placedHeight ws pre))
    else None.
Proof.
  intros Hnd. rewrite handles_app in Hnd. apply NoDup_app in Hnd.
  destruct Hnd as (_ & Hdisj & Hnd). simpl in Hnd. apply NoDup_cons in Hnd.
  destruct Hnd as [Hpost _].
  assert (Hpre : WindowState.win st ∉ handles pre).
  { intros Hin. apply (Hdisj _ Hin). simpl. apply list_elem_of_here. }
  rewrite layoutWrites_app, lastWrite_app. simpl.
  destruct (placed ws st); simpl.
  - rewrite (lastWrite_not_held _ _ _ _ _ _ Hpost). now rewrite Nat.eqb_refl.
  - rewrite (lastWrite_not_held _ _ _ _ _ _ Hpost).
    apply lastWrite_not_held, Hpre.
Qed.

(** Where the pass puts the window of an entry it places. *)
Lemma repositionWindows_places s pre key st post :
  activeWindows s = pre ++ (key, st) :: post ->
  NoDup (handles (activeWindows s)) ->
  placed (windows s) st = true ->
  BrowserWindow.position <$> windows (repositionWindows s) !! WindowState.win st
  = Some (getWindowPosition (workAreaSize s) (placedCount (windows s) pre)
            (WindowState.currentHeight st) (placedHeight (windows s) pre)).
Proof.
  intros Hsplit Hnd Hp. unfold repositionWindows. simpl.
  rewrite repositionLoop_writes, lookup_applyWrites, Hsplit.
  rewrite Hsplit in Hnd. rewrite (lastWrite_entry _ _ _ _ _ _ Hnd), Hp.
  unfold placed, isLive in Hp.
  destruct (windows s !! WindowState.win st) as [w|]; [|discriminate Hp].
  simpl. now destruct (getWindowPosition _ _ _ _).
Qed.

Lemma placedCount_nonneg ws entries : 0 <= placedCount ws entries.
Proof.
  induction entries as [|[k st] entries IH]; simpl; [lia|].
  destruct (placed ws st); lia.
Qed.

Lemma placedHeight_nonneg ws entries :
  Forall (fun e => 0 <= WindowState.currentHeight e.2) entries ->
  0 <= placedHeight ws entries.
Proof.
  induction 1 as [|[k st] entries Hh _ IH]; simpl; [lia|].
  simpl in Hh. destruct (placed ws st); lia.
Qed.

Lemma placedCount_app ws pre post :
  placedCount ws (pre ++ post) = placedCount ws pre + placedCount ws post.
Proof. induction pre as [|[k st] pre IH]; simpl; [reflexivity|]. rewrite IH. lia. Qed.

Lemma placedHeight_app ws pre post :
  placedHeight ws (pre ++ post) = placedHeight ws pre + placedHeight ws post.
Proof. induction pre as [|[k st] pre IH]; simpl; [reflexivity|]. rewrite IH. lia. Qed.

End LayoutPositions.

Section LayoutTheorems.
Import Native Layout.

(** C3, as stated, fails on the walk order: the pass walks the registry in
    iteration order, so the entry updated least recently takes the first
    slot and the most recently updated one is stacked above it. With
    ["a"] shown before ["b"], the pass puts ["a"] in slot 0 and ["b"] in
    slot 1; walking the most recent entry first would swap them. *)
Lemma repositionWindows_walks_oldest_first :
  map fst (activeWindows Sample.twoOverlays) = ["a"; "b"]%string
  /\ positionOf "a" (repositionWindows Sample.twoOverlays) = Some (1406, 900)
  /\ positionOf "b" (repositionWindows Sample.twoOverlays) = Some (1406, 730)
  /\ positionOf "b" (repositionWindows_mostRecentFirst Sample.twoOverlays) = Some (1406, 900)
  /\ repositionWindows Sample.twoOverlays
     <> repositionWindows_mostRecentFirst Sample.twoOverlays.
Proof.
  repeat split; try reflexivity.
  intros E. apply (f_equal (positionOf "b")) in E. vm_compute in E. discriminate E.
Qed.

(** C3, amended. The layout pass walks the registry in iteration order,
    least recently created or promoted entry first. An entry with an open
    window and no manual position is placed at
    [x = width - WINDOW_WIDTH - WINDOW_MARGIN] and
    [y = height - WINDOW_MARGIN - H - currentHeight - n * WINDOW_SPACING],
    where [n] and [H] are the number and the summed heights of the placed
    entries before it. Every other entry keeps its window untouched and
    adds nothing to [n] or [H]; [n] and [H] grow along the walk. The pass
    changes neither the registry nor any window the registry does not
    hold. *)
Theorem repositionWindows_stacks_in_iteration_order
    (s : State) (pre post : list (string * WindowState.t))
    (key : string) (st : WindowState.t)
    (Hsplit : activeWindows s = pre ++ (key, st) :: post)
    (Hnodup : NoDup (handles (activeWindows s))) :
  let s' := repositionWindows s in
  let ws := windows s in
  activeWindows s' = activeWindows s
  /\ (placed ws st = true ->
      BrowserWindow.position <$> windows s' !! WindowState.win st
      = Some ((workAreaSize s).1 - WINDOW_WIDTH - WINDOW_MARGIN,
              (workAreaSize s).2 - WINDOW_MARGIN - placedHeight ws pre
              - WindowState.currentHeight st - placedCount ws pre * WINDOW_SPACING)
      /\ placedCount ws (pre ++ [(key, st)]) = placedCount ws pre + 1
      /\ placedHeight ws (pre ++ [(key, st)])
         = placedHeight ws pre + WindowState.currentHeight st)
  /\ (placed ws st = false ->
      windows s' !! WindowState.win st = windows s !! WindowState.win st
      /\ placedCount ws (pre ++ [(key, st)]) = placedCount ws pre
      /\ placedHeight ws (pre ++ [(key, st)]) = placedHeight ws pre)
  /\ (forall p, WindowState.manualPos st = Some p -> placed ws st = false)
  /\ (forall pre1 key1 st1 mid,
        pre = pre1 ++ (key1, st1) :: mid ->
        placed ws st1 = true ->
        Forall (fun e => 0 <= WindowState.currentHeight e.2) pre ->
        placedCount ws pre1 + 1 <= placedCount ws pre
        /\ placedHeight ws pre1 + WindowState.currentHeight st1 <= placedHeight ws pre)
  /\ (forall h, h ∉ handles (activeWindows s) -> windows s' !! h = windows s !! h).
Proof.
  intros s' ws.
  assert (Hlook : forall h, windows s' !! h =
            match lastWrite h (layoutWrites (workAreaSize s) 0 0 (activeWindows s) ws) with
            | Some p => BrowserWindow.setPosition p.1 p.2 <$> ws !! h
            | None => ws !! h
            end).
  { intros h. unfold s', repositionWindows. simpl.
    rewrite repositionLoop_writes. apply lookup_applyWrites. }
  rewrite Hsplit in Hnodup.
  pose proof (lastWrite_entry (workAreaSize s) pre key st post ws Hnodup) as Hlast.
  split; [reflexivity|]. split; [|split; [|split; [|split]]].
  - intros Hp. rewrite Hp in Hlast. split.
    + rewrite Hlook, Hsplit, Hlast.
      unfold placed, isLive in Hp. fold ws.
      destruct (ws !! WindowState.win st) as [w|]; [|discriminate Hp].
      simpl. unfold getWindowPosition. destruct (workAreaSize s) as [width height].
      simpl. repeat f_equal; lia.
    + rewrite placedCount_app, placedHeight_app. simpl. rewrite Hp. lia.
  - intros Hp. rewrite Hp in Hlast. split.
    + now rewrite Hlook, Hsplit, Hlast.
    + rewrite placedCount_app, placedHeight_app. simpl. rewrite Hp. lia.
  - intros p Hm. unfold placed. rewrite Hm. apply andb_false_r.
  - intros pre1 key1 st1 mid -> Hp1 Hheights.
    rewrite placedCount_app, placedHeight_app. simpl. rewrite Hp1.
    apply Forall_app in Hheights. destruct Hheights as [_ Hheights].
    apply Forall_cons in Hheights. destruct Hheights as [_ Hmid].
    pose proof (placedCount_nonneg ws mid).
    pose proof (placedHeight_nonneg ws mid Hmid). lia.
  - intros h Hh. rewrite Hlook.
    now rewrite (lastWrite_not_held _ _ _ _ _ _ Hh).
Qed.

(** In [Sample.threeOverlays] the entry of ["c"] comes after the placed
    ["a"] and the dragged ["b"]: it takes slot 1, right above ["a"]. *)
Lemma repositionWindows_stacks_in_iteration_order_witness :
  positionOf "c" (repositionWindows Sample.threeOverlays) = Some (1406, 590)
  /\ positionOf "b" (repositionWindows Sample.threeOverlays) = Some (100, 200).
Proof.
  pose proof (repositionWindows_stacks_in_iteration_order Sample.threeOverlays
    [("a"%string,
      WindowState.mk 0 "a" "Ann" "https://cdn.discordapp.com/embed/avatars/0.png"
        [OverlayMessage.mk "m1" "hi" 1000] 1000 160 None);
     ("b"%string,
      WindowState.mk 1 "b" "Ann" "https://cdn.discordapp.com/embed/avatars/0.png"
        [OverlayMessage.mk "m1" "yo" 1000] 1000 160 (Some (100, 200)))]
    [] "c"
    (WindowState.mk 2 "c" "Ann" "https://cdn.discordapp.com/embed/avatars/0.png"
       [OverlayMessage.mk "m1" "hey" 1000] 1000 300 None)
    eq_refl) as H.
  split; [|reflexivity].
  refine (proj1 (proj1 (proj2 (H _)) eq_refl)).
  unfold handles. simpl.
  repeat (apply NoDup_cons; split;
          [rewrite ?elem_of_cons, elem_of_nil; intros Hin;
           repeat (destruct Hin as [Hin|Hin]; [discriminate Hin|]); exact Hin|]).
  apply NoDup_nil. exact I.
Defined.

End LayoutTheorems.

(* ===================================================================== *)
(** * Every entry owns its window *)
(* ===================================================================== *)

Section WellFormed.
Import Native Layout.
Implicit Types (m : list (string * WindowState.t)) (ws : list BrowserWindow.t).

Lemma handles_delete_sublist key m : sublist (handles (JsMap.delete key m)) (handles m).
Proof. unfold handles. apply fmap_sublist, delete_sublist. Qed.

Lemma NoDup_handles_delete key m : NoDup (handles m) -> NoDup (handles (JsMap.delete key m)).
Proof. intros H. eapply sublist_NoDup; [exact H|apply handles_delete_sublist]. Qed.

Lemma handles_cons k v m : handles ((k, v) :: m) = WindowState.win v :: handles m.
Proof. reflexivity. Qed.

Lemma handles_set_elem key v m h :
  h ∈ handles (JsMap.set key v m) -> h = WindowState.win v \/ h ∈ handles m.
Proof.
  induction m as [|[k v0] m IH]; simpl.
  - rewrite handles_cons, elem_of_cons. tauto.
  - destruct (String.eqb k key); rewrite !handles_cons, !elem_of_cons.
    + tauto.
    + intros [->|H]; [tauto|]. destruct (IH H); tauto.
Qed.

Lemma NoDup_handles_set key v m :
  WindowState.win v ∉ handles m -> NoDup (handles m) -> NoDup (handles (JsMap.set key v m)).
Proof.
  induction m as [|[k v0] m IH]; simpl; intros Hfresh Hnd.
  - rewrite handles_cons. apply NoDup_singleton.
  - rewrite handles_cons in Hfresh, Hnd.
    rewrite not_elem_of_cons in Hfresh. destruct Hfresh as [Hne Hfresh].
    apply NoDup_cons in Hnd. destruct Hnd as [Hv0 Hnd].
    destruct (String.eqb k key); rewrite handles_cons; apply NoDup_cons.
    + split; assumption.
    + split; [|now apply IH].
      intros Hin. apply handles_set_elem in Hin. destruct Hin as [E|Hin]; auto.
Qed.

Lemma handles_set_same key v v0 m :
  JsMap.get key m = Some v0 -> WindowState.win v = WindowState.win v0 ->
  handles (JsMap.set key v m) = handles m.
Proof.
  intros Hg Hw. induction m as [|[k v1] m IH]; simpl in *; [discriminate|].
  destruct (String.eqb k key); rewrite !handles_cons.
  - injection Hg as ->. now rewrite Hw.
  - now rewrite IH.
Qed.

Lemma get_elem_handles key v m : JsMap.get key m = Some v -> WindowState.win v ∈ handles m.
Proof.
  intros H. apply get_Some_elem in H. unfold handles.
  apply list_elem_of_fmap. now exists (key, v).
Qed.

Lemma handle_gone_after_delete key v m :
  NoDup (handles m) -> JsMap.get key m = Some v ->
  WindowState.win v ∉ handles (JsMap.delete key m).
Proof.
  induction m as [|[k v0] m IH]; simpl; [discriminate|].
  intros Hnd Hg. rewrite handles_cons in Hnd.
  apply NoDup_cons in Hnd. destruct Hnd as [Hv0 Hnd].
  destruct (String.eqb k key).
  - injection Hg as ->. intros Hin. apply Hv0.
    eapply elem_of_sublist; [exact Hin|apply handles_delete_sublist].
  - rewrite handles_cons, not_elem_of_cons. split; [|now apply IH].
    intros E. apply Hv0. rewrite <- E. now apply get_elem_handles with (key := key).
Qed.

Lemma distinct_keys_distinct_handles k1 k2 v1 v2 m :
  NoDup (handles m) -> JsMap.get k1 m = Some v1 -> JsMap.get k2 m = Some v2 ->
  k1 <> k2 -> WindowState.win v1 <> WindowState.win v2.
Proof.
  intros Hnd H1 H2 Hne E.
  apply (handle_gone_after_delete k1 v1 m Hnd H1).
  rewrite E. apply get_elem_handles with (key := k2).
  now rewrite get_delete_ne.
Qed.

Lemma inRange_mono (n n' : nat) m :
  (n <= n')%nat ->
  Forall (fun e => (WindowState.win e.2 < n)%nat) m ->
  Forall (fun e => (WindowState.win e.2 < n')%nat) m.
Proof.
  intros Hle H. eapply Forall_impl; [exact H|]. intros e He. simpl in *. lia.
Qed.

Lemma length_closeIfLive h ws : length (closeIfLive h ws) = length ws.
Proof.
  unfold closeIfLive. destruct (ws !! h) as [w|]; [|reflexivity].
  destruct (BrowserWindow.isDestroyed w); [reflexivity|apply length_insert].
Qed.

Lemma wellFormed_repositionWindows s : wellFormed s -> wellFormed (repositionWindows s).
Proof.
  intros [Hnd Hr]. split; [exact Hnd|].
  rewrite length_windows_repositionWindows. exact Hr.
Qed.

Lemma wellFormed_closeNotification id s : wellFormed s -> wellFormed (closeNotification id s).
Proof.
  intros [Hnd Hr]. unfold closeNotification. apply wellFormed_repositionWindows.
  split; simpl.
  - now apply NoDup_handles_delete.
  - apply Forall_delete.
    replace (length _) with (length (windows s)); [exact Hr|].
    destruct (JsMap.get id (activeWindows s)); [now rewrite length_closeIfLive|reflexivity].
Qed.

Lemma wellFormed_limitOverlays s : wellFormed s -> wellFormed (limitOverlays s).
Proof.
  intros Hs. unfold limitOverlays.
  destruct (MAX_OVERLAY_WINDOWS <=? length (activeWindows s))%nat; [|exact Hs].
  destruct (JsMap.firstKey (activeWindows s)) as [oldest|]; [|exact Hs].
  destruct (Js.truthy oldest); [|exact Hs]. now apply wellFormed_closeNotification.
Qed.

Lemma wellFormed_createOverlay key data msg s :
  wellFormed s -> wellFormed (createOverlay key data msg s).
Proof.
  intros [Hnd Hr]. unfold createOverlay. split; simpl.
  - apply NoDup_handles_set; [|exact Hnd]. simpl.
    intros Hin. unfold handles in Hin. apply list_elem_of_fmap in Hin.
    destruct Hin as (e & He & Hin). rewrite Forall_forall in Hr.
    specialize (Hr e Hin). lia.
  - rewrite length_app. simpl. apply Forall_set; [simpl; lia|].
    eapply inRange_mono; [|exact Hr]. lia.
Qed.

Lemma wellFormed_appendToExisting key existing msg s :
  JsMap.get key (activeWindows s) = Some existing ->
  wellFormed s -> wellFormed (appendToExisting key existing msg s).
Proof.
  intros Hg [Hnd Hr]. unfold appendToExisting. apply wellFormed_repositionWindows.
  split; simpl.
  - apply NoDup_handles_set; [|now apply NoDup_handles_delete].
    simpl. now apply handle_gone_after_delete.
  - apply Forall_set; [|now apply Forall_delete].
    simpl. rewrite Forall_forall in Hr. apply (Hr (key, existing)).
    now apply get_Some_elem.
Qed.

Lemma wellFormed_updateDraggedPosition key h s :
  wellFormed s -> wellFormed (updateDraggedPosition key h s).
Proof.
  intros [Hnd Hr]. unfold updateDraggedPosition.
  destruct (windows s !! h) as [w|]; [|now split].
  destruct (BrowserWindow.isDestroyed w); [now split|].
  destruct (JsMap.get key (activeWindows s)) as [st|] eqn:Hg; [|now split].
  split; simpl.
  - now rewrite (handles_set_same key _ st _ Hg).
  - apply Forall_set; [|exact Hr]. simpl.
    rewrite Forall_forall in Hr. apply (Hr (key, st)). now apply get_Some_elem.
Qed.

Lemma wellFormed_moveWindow h x y s : wellFormed s -> wellFormed (moveWindow h x y s).
Proof.
  intros [Hnd Hr]. unfold moveWindow.
  destruct (windows s !! h) as [w|]; [|now split].
  destruct (BrowserWindow.isDestroyed w); [now split|].
  split; simpl; [exact Hnd|]. now rewrite length_insert.
Qed.

Lemma wellFormed_step s e : wellFormed s -> wellFormed (step s e).
Proof.
  intros Hs. destruct e as [data now|id| |payload|key h|key| |h x y|h]; simpl.
  - unfold showNotification.
    destruct (JsMap.get _ (activeWindows s)) as [existing|] eqn:Eg.
    + destruct (isLive _ _).
      * now apply wellFormed_appendToExisting.
      * now apply wellFormed_createOverlay, wellFormed_limitOverlays.
    + now apply wellFormed_createOverlay, wellFormed_limitOverlays.
  - now apply wellFormed_closeNotification.
  - split; simpl; constructor.
  - destruct Hs as [Hnd Hr]. unfold onResize. destruct payload as [p|]; [|now split].
    destruct (Js.truthy _); [|now split].
    destruct (JsMap.get _ (activeWindows s)) as [st|] eqn:Eg; [|now split].
    destruct (windows s !! _) as [w|]; [|now split].
    destruct (BrowserWindow.isDestroyed w); [now split|].
    destruct (_ =? _); [now split|].
    apply wellFormed_repositionWindows. split; simpl.
    + now rewrite (handles_set_same _ _ st _ Eg).
    + rewrite length_insert. apply Forall_set; [|exact Hr]. simpl.
      rewrite Forall_forall in Hr. apply (Hr (payload_id p, st)). now apply get_Some_elem.
  - now apply wellFormed_updateDraggedPosition.
  - destruct Hs as [Hnd Hr]. unfold onClosed. apply wellFormed_repositionWindows.
    split; simpl; [now apply NoDup_handles_delete|now apply Forall_delete].
  - now apply wellFormed_repositionWindows.
  - now apply wellFormed_moveWindow.
  - destruct Hs as [Hnd Hr]. split; simpl; [exact Hnd|].
    now rewrite length_closeIfLive.
Qed.

(** Every reachable state is well formed. *)
Lemma wellFormed_run s events : wellFormed s -> wellFormed (run s events).
Proof.
  revert s. induction events as [|e events IH]; intros s Hs; simpl; [exact Hs|].
  apply IH, wellFormed_step, Hs.
Qed.

Lemma wellFormed_reachable persisted area events :
  wellFormed (run (initialState persisted area) events).
Proof. apply wellFormed_run. split; simpl; constructor. Qed.

End WellFormed.

(* ===================================================================== *)
(** * The limit on concurrent overlays *)
(* ===================================================================== *)

Section LimitFacts.
Import Native Layout.
Implicit Types (m : list (string * WindowState.t)).

Lemma length_delete_present key v m :
  JsMap.get key m = Some v -> (length (JsMap.delete key m) < length m)%nat.
Proof.
  induction m as [|[k v0] m IH]; simpl; [discriminate|].
  destruct (String.eqb k key).
  - intros _. pose proof (length_delete_le key m). lia.
  - intros H. specialize (IH H). simpl. lia.
Qed.

(** C1 fails on the code for a conversation whose channel id is the empty
    string: [if (oldest)] treats that key as no key, so nothing is evicted
    while it is the oldest entry and the registry grows past
    [MAX_OVERLAY_WINDOWS]. *)
Lemma showNotification_empty_key_exceeds_limit :
  let s5 := showAll (take 5 Sample.sixConversations) Sample.start in
  let s6 := showAll Sample.sixConversations Sample.start in
  registrySize s5 = MAX_OVERLAY_WINDOWS
  /\ JsMap.firstKey (activeWindows s5) = Some EmptyString
  /\ hasOpenOverlay "e" s5 = false
  /\ limitOverlays s5 = s5
  /\ registrySize s6 = 6%nat
  /\ map fst (activeWindows s6) = [EmptyString; "a"; "b"; "c"; "d"; "e"]%string
  /\ Forall (fun e => isLive (windows s6) (WindowState.win e.2) = true) (activeWindows s6)
  /\ (MAX_OVERLAY_WINDOWS < registrySize s6)%nat.
Proof.
  vm_compute. repeat split; try reflexivity; try lia.
  repeat constructor.
Qed.

Lemma bounded_closeNotification id s :
  boundedWithTruthyKeys s -> boundedWithTruthyKeys (closeNotification id s).
Proof.
  intros [Hn Hk]. split.
  - unfold registrySize, closeNotification in *. simpl.
    pose proof (length_delete_le id (activeWindows s)). lia.
  - unfold closeNotification. simpl. now apply Forall_delete.
Qed.

Lemma limitOverlays_makes_room s :
  boundedWithTruthyKeys s ->
  (registrySize (limitOverlays s) < MAX_OVERLAY_WINDOWS)%nat
  /\ Forall (fun e => Js.truthy e.1 = true) (activeWindows (limitOverlays s)).
Proof.
  intros [Hn Hk]. unfold limitOverlays, registrySize in *.
  destruct (Nat.leb_spec MAX_OVERLAY_WINDOWS (length (activeWindows s))) as [Hfull|Hroom];
    [|split; [lia|exact Hk]].
  destruct (activeWindows s) as [|[oldest st] rest] eqn:Ea; simpl in *.
  - unfold MAX_OVERLAY_WINDOWS in Hfull. lia.
  - apply Forall_cons in Hk. destruct Hk as [Hold Hk]. simpl in Hold. rewrite Hold.
    unfold closeNotification. simpl. rewrite Ea. simpl. rewrite String.eqb_refl.
    split.
    + pose proof (length_delete_le oldest rest). unfold MAX_OVERLAY_WINDOWS in *. lia.
    + now apply Forall_delete.
Qed.

Lemma bounded_step s e :
  showsTruthyKey e -> boundedWithTruthyKeys s -> boundedWithTruthyKeys (step s e).
Proof.
  intros He Hs. destruct e as [data now|id| |payload|key h|key| |h x y|h]; simpl.
  - simpl in He.
    assert (Hcreate : boundedWithTruthyKeys
              (createOverlay (NotificationData.channelId data) data (makeMessage data now)
                 (limitOverlays s))).
    { destruct (limitOverlays_makes_room s Hs) as [Hn Hk]. split.
      - unfold registrySize, createOverlay in *. simpl.
        eapply Nat.le_trans; [apply length_set_le|]. unfold MAX_OVERLAY_WINDOWS in *. lia.
      - unfold createOverlay. simpl. now apply Forall_set. }
    unfold showNotification.
    destruct (JsMap.get _ (activeWindows s)) as [existing|] eqn:Eg; [|exact Hcreate].
    destruct (isLive _ _); [|exact Hcreate].
    destruct Hs as [Hn Hk]. split.
    + unfold registrySize, appendToExisting in *. simpl.
      pose proof (length_delete_present _ _ _ Eg).
      eapply Nat.le_trans; [apply length_set_le|]. unfold MAX_OVERLAY_WINDOWS in *. lia.
    + unfold appendToExisting. simpl. apply Forall_set; [exact He|now apply Forall_delete].
  - now apply bounded_closeNotification.
  - split; [unfold registrySize; simpl; unfold MAX_OVERLAY_WINDOWS; lia|constructor].
  - destruct Hs as [Hn Hk]. unfold onResize. destruct payload as [p|]; [|now split].
    destruct (Js.truthy _) eqn:Et; [|now split].
    destruct (JsMap.get _ (activeWindows s)) as [st|] eqn:Eg; [|now split].
    destruct (windows s !! _) as [w|]; [|now split].
    destruct (BrowserWindow.isDestroyed w); [now split|].
    destruct (_ =? _); [now split|].
    split.
    + unfold registrySize in *. simpl. now rewrite (length_set_present _ _ st _ Eg).
    + simpl. now apply Forall_set.
  - destruct Hs as [Hn Hk]. unfold updateDraggedPosition.
    destruct (windows s !! h) as [w|]; [|now split].
    destruct (BrowserWindow.isDestroyed w); [now split|].
    destruct (JsMap.get key (activeWindows s)) as [st|] eqn:Eg; [|now split].
    split.
    + unfold registrySize in *. simpl. now rewrite (length_set_present _ _ st _ Eg).
    + simpl. apply Forall_set; [|exact Hk].
      rewrite Forall_forall in Hk. apply (Hk (key, st)). now apply get_Some_elem.
  - destruct Hs as [Hn Hk]. split.
    + unfold registrySize, onClosed in *. simpl.
      pose proof (length_delete_le key (activeWindows s)). lia.
    + unfold onClosed. simpl. now apply Forall_delete.
  - exact Hs.
  - unfold moveWindow. destruct (windows s !! h) as [w|]; [|exact Hs].
    destruct (BrowserWindow.isDestroyed w); exact Hs.
  - exact Hs.
Qed.

(** X8. For conversation keys that are non-empty strings the registry never
    holds more than [MAX_OVERLAY_WINDOWS] entries, whatever else happens
    between the [showNotification] calls. *)
Lemma registry_bounded_for_truthy_keys persisted area events :
  Forall showsTruthyKey events ->
  (registrySize (run (initialState persisted area) events) <= MAX_OVERLAY_WINDOWS)%nat.
Proof.
  intros Hev.
  enough (H : boundedWithTruthyKeys (run (initialState persisted area) events))
    by apply H.
  assert (H0 : boundedWithTruthyKeys (initialState persisted area)).
  { split; [unfold registrySize; simpl; unfold MAX_OVERLAY_WINDOWS; lia|constructor]. }
  revert H0. generalize (initialState persisted area).
  induction Hev as [|e events He Hev IH]; intros s Hs; simpl; [exact Hs|].
  apply IH, bounded_step; assumption.
Qed.

(** X9. With a truthy oldest key, a message for a conversation without an open
    overlay arriving at a full registry closes the window of the first
    entry, removes that entry, and appends the new one. *)
Lemma showNotification_evicts_first_entry data now s oldest st rest :
  activeWindows s = (oldest, st) :: rest ->
  (MAX_OVERLAY_WINDOWS <= registrySize s)%nat ->
  Js.truthy oldest = true ->
  hasOpenOverlay (NotificationData.channelId data) s = false ->
  let evicted := closeNotification oldest s in
  showNotification data now s
  = createOverlay (NotificationData.channelId data) data (makeMessage data now) evicted
  /\ JsMap.get oldest (activeWindows evicted) = None
  /\ isLive (windows evicted) (WindowState.win st) = false.
Proof.
  intros Ea Hfull Hold Hclosed evicted.
  assert (Hlimit : limitOverlays s = evicted).
  { unfold limitOverlays, registrySize in *.
    destruct (Nat.leb_spec MAX_OVERLAY_WINDOWS (length (activeWindows s))); [|lia].
    rewrite Ea. simpl. now rewrite Hold. }
  split; [|split].
  - rewrite (showNotification_on_closed data now s Hclosed). now rewrite Hlimit.
  - unfold evicted, closeNotification. rewrite activeWindows_repositionWindows. simpl.
    apply get_delete_eq.
  - unfold evicted, closeNotification. rewrite isLive_repositionWindows. simpl.
    rewrite Ea. simpl. rewrite String.eqb_refl.
    unfold closeIfLive, isLive.
    destruct (windows s !! WindowState.win st) as [w|] eqn:Ew; [|now rewrite Ew].
    destruct (BrowserWindow.isDestroyed w) eqn:Ed.
    + now rewrite Ew, Ed.
    + rewrite list_lookup_insert_eq by (now apply lookup_lt_Some in Ew). reflexivity.
Qed.

End LimitFacts.

(* ===================================================================== *)
(** * Dragged windows *)
(* ===================================================================== *)

Section DragFacts.
Import Native Layout.

Lemma placed_manual ws st p : WindowState.manualPos st = Some p -> placed ws st = false.
Proof. intros H. unfold placed. rewrite H. apply andb_false_r. Qed.

(** The layout pass leaves the window of an entry it does not place. *)
Lemma repositionWindows_keeps_unplaced s key st :
  NoDup (handles (activeWindows s)) ->
  JsMap.get key (activeWindows s) = Some st ->
  placed (windows s) st = false ->
  windows (repositionWindows s) !! WindowState.win st = windows s !! WindowState.win st.
Proof.
  intros Hnd Hg Hp. apply get_Some_elem, list_elem_of_split in Hg.
  destruct Hg as (pre & post & Hsplit).
  unfold repositionWindows. simpl.
  rewrite repositionLoop_writes, lookup_applyWrites, Hsplit.
  rewrite Hsplit in Hnd.
  now rewrite (lastWrite_entry _ _ _ _ _ _ Hnd), Hp.
Qed.

Lemma lookup_closeIfLive_ne h h' ws : h <> h' -> closeIfLive h ws !! h' = ws !! h'.
Proof.
  intros Hne. unfold closeIfLive. destruct (ws !! h) as [w|]; [|reflexivity].
  destruct (BrowserWindow.isDestroyed w); [reflexivity|].
  now apply list_lookup_insert_ne.
Qed.

Lemma closeNotification_keeps_manual id s key st p :
  wellFormed s -> id <> key ->
  JsMap.get key (activeWindows s) = Some st ->
  WindowState.manualPos st = Some p ->
  JsMap.get key (activeWindows (closeNotification id s)) = Some st
  /\ windows (closeNotification id s) !! WindowState.win st
     = windows s !! WindowState.win st.
Proof.
  intros [Hnd Hr] Hne Hg Hm. unfold closeNotification.
  set (X := mkState _ _ _ _).
  assert (HgX : JsMap.get key (activeWindows X) = Some st).
  { unfold X. simpl. now rewrite get_delete_ne. }
  split; [exact HgX|].
  rewrite (repositionWindows_keeps_unplaced X key st).
  - unfold X. simpl.
    destruct (JsMap.get id (activeWindows s)) as [sto|] eqn:Ego; [|reflexivity].
    apply lookup_closeIfLive_ne.
    exact (distinct_keys_distinct_handles id key sto st _ Hnd Ego Hg Hne).
  - unfold X. simpl. now apply NoDup_handles_delete.
  - exact HgX.
  - exact (placed_manual _ _ _ Hm).
Qed.

Lemma limitOverlays_fields s :
  lastDraggedPos (limitOverlays s) = lastDraggedPos s
  /\ workAreaSize (limitOverlays s) = workAreaSize s.
Proof.
  unfold limitOverlays.
  destruct (MAX_OVERLAY_WINDOWS <=? length (activeWindows s))%nat; [|now split].
  destruct (JsMap.firstKey (activeWindows s)) as [oldest|]; [|now split].
  destruct (Js.truthy oldest); now split.
Qed.

Lemma limitOverlays_keeps_manual s key st p :
  wellFormed s ->
  JsMap.get key (activeWindows s) = Some st ->
  WindowState.manualPos st = Some p ->
  JsMap.get key (activeWindows (limitOverlays s)) = None
  \/ (JsMap.get key (activeWindows (limitOverlays s)) = Some st
      /\ windows (limitOverlays s) !! WindowState.win st = windows s !! WindowState.win st).
Proof.
  intros Hwf Hg Hm. unfold limitOverlays.
  destruct (MAX_OVERLAY_WINDOWS <=? length (activeWindows s))%nat; [|now right].
  destruct (JsMap.firstKey (activeWindows s)) as [oldest|]; [|now right].
  destruct (Js.truthy oldest); [|now right].
  destruct (String.eqb_spec oldest key) as [->|Hne].
  - left. unfold closeNotification. rewrite activeWindows_repositionWindows. simpl.
    apply get_delete_eq.
  - right. exact (closeNotification_keeps_manual oldest s key st p Hwf Hne Hg Hm).
Qed.

Lemma limitOverlays_room s :
  (registrySize s < MAX_OVERLAY_WINDOWS)%nat -> limitOverlays s = s.
Proof.
  intros H. unfold limitOverlays, registrySize in *.
  destruct (Nat.leb_spec MAX_OVERLAY_WINDOWS (length (activeWindows s))); [lia|reflexivity].
Qed.

(** What a drag of the open window of [key] does to the state. *)
Lemma userDrag_open key x y s st w :
  JsMap.get key (activeWindows s) = Some st ->
  windows s !! WindowState.win st = Some w ->
  BrowserWindow.isDestroyed w = false ->
  userDrag key x y s
  = mkState (JsMap.set key (WindowState.withManualPos (x, y) st) (activeWindows s))
            (<[WindowState.win st := BrowserWindow.setPosition x y w]> (windows s))
            (Some (x, y)) (workAreaSize s).
Proof.
  intros Hg Hw Hd. unfold userDrag, moveWindow, updateDraggedPosition.
  rewrite Hg, Hw, Hd. simpl.
  rewrite list_lookup_insert_eq by (now apply lookup_lt_Some in Hw). simpl.
  now rewrite Hd, Hg.
Qed.

(** C2, as stated, fails: with overlays for ["a"] and ["b"] open and ["b"]
    dragged to [(100, 200)], the overlay opened for ["c"] starts at
    [(100, 200)] with that position as its own manual position, and the
    layout pass leaves it there instead of stacking it. *)
Lemma overlay_created_after_drag_is_pinned :
  let s2 := showNotification (Sample.message "c" "hey") 3000
              (userDrag "b" 100 200 Sample.twoOverlays) in
  (WindowState.manualPos <$> JsMap.get "c" (activeWindows s2)) = Some (Some (100, 200))
  /\ positionOf "c" s2 = Some (100, 200)
  /\ positionOf "c" (repositionWindows s2) = Some (100, 200)
  /\ positionOf "b" (repositionWindows s2) = Some (100, 200)
  /\ positionOf "a" (repositionWindows s2) = Some (1406, 900)
  /\ ~ laterOverlayIsAutoPlaced Sample.twoOverlays "b" 100 200 (Sample.message "c" "hey") 3000.
Proof.
  repeat split; try reflexivity.
  intros (st & Hg & Hm & _). vm_compute in Hg. injection Hg as <-. discriminate Hm.
Qed.

Lemma wellFormed_userDrag key x y s : wellFormed s -> wellFormed (userDrag key x y s).
Proof.
  intros Hs. unfold userDrag. destruct (JsMap.get key (activeWindows s)); [|exact Hs].
  now apply wellFormed_updateDraggedPosition, wellFormed_moveWindow.
Qed.

Lemma positionOf_repositionWindows_manual s key st p :
  wellFormed s ->
  JsMap.get key (activeWindows s) = Some st ->
  WindowState.manualPos st = Some p ->
  positionOf key (repositionWindows s) = positionOf key s.
Proof.
  intros [Hnd _] Hg Hm. unfold positionOf, windowOf.
  rewrite activeWindows_repositionWindows, Hg.
  now rewrite (repositionWindows_keeps_unplaced s key st Hnd Hg (placed_manual _ _ _ Hm)).
Qed.

(** C2, amended. Dragging the open window of [B] to [(x, y)] records
    [(x, y)] as the manual position of [B] and as the last dragged
    position, and changes no other entry: the entries the layout pass
    placed before are placed by it as before. The overlay that a later message
    opens for a conversation without an open overlay starts at [(x, y)] and
    takes [(x, y)] as its own manual position, so the layout pass skips it
    as well. [B] keeps its manual position and its window stays at
    [(x, y)] for as long as [B] has an entry, which it does unless it was
    the oldest entry of a full registry. *)
Theorem drag_pins_entry_and_later_overlays
    (s : State) (B : string) (stB : WindowState.t) (wB : BrowserWindow.t) (x y : Z)
    (data : NotificationData.t) (now : Z)
    (Hwf : wellFormed s)
    (HB : JsMap.get B (activeWindows s) = Some stB)
    (HwB : windows s !! WindowState.win stB = Some wB)
    (HopenB : BrowserWindow.isDestroyed wB = false)
    (HC : hasOpenOverlay (NotificationData.channelId data) (userDrag B x y s) = false) :
  let C := NotificationData.channelId data in
  let s1 := userDrag B x y s in
  let s2 := showNotification data now s1 in
  (lastDraggedPos s1 = Some (x, y)
   /\ JsMap.get B (activeWindows s1) = Some (WindowState.withManualPos (x, y) stB)
   /\ positionOf B s1 = Some (x, y)
   /\ forall k, k <> B -> JsMap.get k (activeWindows s1) = JsMap.get k (activeWindows s))
  /\ (forall pre k st post,
        activeWindows s1 = pre ++ (k, st) :: post ->
        placed (windows s1) st = true ->
        BrowserWindow.position <$> windows (repositionWindows s1) !! WindowState.win st
        = Some (getWindowPosition (workAreaSize s1) (placedCount (windows s1) pre)
                  (WindowState.currentHeight st) (placedHeight (windows s1) pre)))
  /\ (exists stC,
        JsMap.get C (activeWindows s2) = Some stC
        /\ WindowState.manualPos stC = Some (x, y)
        /\ placed (windows s2) stC = false
        /\ positionOf C s2 = Some (x, y)
        /\ positionOf C (repositionWindows s2) = Some (x, y))
  /\ (forall stB2,
        JsMap.get B (activeWindows s2) = Some stB2 ->
        stB2 = WindowState.withManualPos (x, y) stB
        /\ positionOf B s2 = Some (x, y)
        /\ positionOf B (repositionWindows s2) = Some (x, y))
  /\ ((registrySize s < MAX_OVERLAY_WINDOWS)%nat ->
      JsMap.get B (activeWindows s2) <> None).
Proof.
  intros C s1 s2.
  pose proof (userDrag_open B x y s stB wB HB HwB HopenB) as Hs1. fold s1 in Hs1.
  assert (Hwf1 : wellFormed s1) by now apply wellFormed_userDrag.
  assert (Hh : (WindowState.win stB < length (windows s))%nat)
    by now apply lookup_lt_Some in HwB.
  assert (HB1 : JsMap.get B (activeWindows s1) = Some (WindowState.withManualPos (x, y) stB)).
  { rewrite Hs1. simpl. apply get_set_eq. }
  assert (HwB1 : windows s1 !! WindowState.win stB = Some (BrowserWindow.setPosition x y wB)).
  { rewrite Hs1. simpl. now apply list_lookup_insert_eq. }
  assert (Hldp1 : lastDraggedPos s1 = Some (x, y)) by now rewrite Hs1.
  assert (Hne : B <> C).
  { intros E. fold s1 C in HC. unfold hasOpenOverlay in HC. rewrite <- E, HB1 in HC.
    simpl in HC. unfold isLive in HC. rewrite HwB1 in HC. simpl in HC.
    rewrite HopenB in HC. discriminate HC. }
  assert (Hs2 : s2 = createOverlay C data (makeMessage data now) (limitOverlays s1)).
  { unfold s2. now apply showNotification_on_closed. }
  assert (HwfL : wellFormed (limitOverlays s1)) by now apply wellFormed_limitOverlays.
  assert (Hwf2 : wellFormed s2).
  { rewrite Hs2. now apply wellFormed_createOverlay. }
  destruct (limitOverlays_fields s1) as [HldpL _].
  split; [|split; [|split; [|split]]].
  - split; [exact Hldp1|]. split; [exact HB1|]. split.
    + unfold positionOf, windowOf. rewrite HB1. simpl. now rewrite HwB1.
    + intros k Hk. rewrite Hs1. simpl. now apply get_set_ne.
  - intros pre k st post Hsplit Hp.
    exact (repositionWindows_places s1 pre k st post Hsplit (proj1 Hwf1) Hp).
  - destruct (createOverlay_entry C data (makeMessage data now) (limitOverlays s1))
      as (stC & HgC & _ & HwinC & HmC & HliveC).
    rewrite <- Hs2 in HgC, HliveC. rewrite HldpL, Hldp1 in HmC.
    assert (HposC : positionOf C s2 = Some (x, y)).
    { unfold positionOf, windowOf. rewrite HgC, HwinC, Hs2. unfold createOverlay. simpl.
      rewrite lookup_app_r by lia. rewrite Nat.sub_diag. simpl.
      now rewrite HldpL, Hldp1. }
    exists stC. split; [exact HgC|]. split; [exact HmC|].
    split; [exact (placed_manual _ _ _ HmC)|]. split; [exact HposC|].
    now rewrite (positionOf_repositionWindows_manual s2 C stC (x, y) Hwf2 HgC HmC).
  - intros stB2 HB2.
    assert (HgL : JsMap.get B (activeWindows s2) = JsMap.get B (activeWindows (limitOverlays s1))).
    { rewrite Hs2. unfold createOverlay. simpl. apply get_set_ne. congruence. }
    destruct (limitOverlays_keeps_manual s1 B (WindowState.withManualPos (x, y) stB) (x, y)
                Hwf1 HB1 eq_refl) as [Hgone|[Hkept HwL]].
    + rewrite HgL, Hgone in HB2. discriminate HB2.
    + rewrite HgL, Hkept in HB2. injection HB2 as <-.
      assert (Hpos2 : positionOf B s2 = Some (x, y)).
      { unfold positionOf, windowOf. rewrite HgL, Hkept. simpl.
        rewrite Hs2. unfold createOverlay. simpl.
        rewrite lookup_app_l.
        - simpl in HwL. rewrite HwL, HwB1. reflexivity.
        - destruct HwfL as [_ HrL]. rewrite Forall_forall in HrL.
          apply (HrL (B, WindowState.withManualPos (x, y) stB)).
          now apply get_Some_elem. }
      split; [reflexivity|]. split; [exact Hpos2|].
      rewrite (positionOf_repositionWindows_manual s2 B
                 (WindowState.withManualPos (x, y) stB) (x, y) Hwf2); auto.
      now rewrite HgL.
  - intros Hroom.
    assert (Hsize : registrySize s1 = registrySize s).
    { rewrite Hs1. unfold registrySize. simpl. now apply (length_set_present _ _ stB). }
    rewrite Hs2, limitOverlays_room by lia.
    unfold createOverlay. simpl. rewrite get_set_ne by congruence. now rewrite HB1.
Qed.

(** In [Sample.twoOverlays] the user drags ["b"] to [(100, 200)] and a
    message for ["c"] arrives. *)
Lemma drag_pins_entry_and_later_overlays_witness :
  let s2 := showNotification (Sample.message "c" "hey") 3000
              (userDrag "b" 100 200 Sample.twoOverlays) in
  (exists stC,
     JsMap.get "c" (activeWindows s2) = Some stC
     /\ WindowState.manualPos stC = Some (100, 200)
     /\ placed (windows s2) stC = false
     /\ positionOf "c" s2 = Some (100, 200)
     /\ positionOf "c" (repositionWindows s2) = Some (100, 200))
  /\ JsMap.get "b" (activeWindows s2) <> None.
Proof.
  pose proof (drag_pins_entry_and_later_overlays Sample.twoOverlays "b"
    (WindowState.mk 1 "b" "Ann" "https://cdn.discordapp.com/embed/avatars/0.png"
       [OverlayMessage.mk "m1" "yo" 1000] 1000 160 None)
    (BrowserWindow.mk false (1406, 890) (WINDOW_WIDTH, WINDOW_MIN_HEIGHT))
    100 200 (Sample.message "c" "hey") 3000
    (wellFormed_reachable None (1920, 1080)
       [ShowNotification (Sample.message "a" "hi") 1000;
        ShowNotification (Sample.message "b" "yo") 2000])
    eq_refl eq_refl eq_refl eq_refl) as H.
  split.
  - exact (proj1 (proj2 (proj2 H))).
  - apply (proj2 (proj2 (proj2 (proj2 H)))). vm_compute. lia.
Defined.

End DragFacts.

(* ===================================================================== *)
(** * The end-to-end scenarios of the specification *)
(* ===================================================================== *)

Section Scenarios.
Import Native Layout Plugin.

(** Scenario 1: two messages of one friend share one overlay. *)
Example two_messages_one_overlay :
  let s := showAll [ (Sample.message "a" "hi", 1000);
                     (Sample.message "a" "you there?", 2000) ] Sample.start in
  registrySize s = 1%nat
  /\ (map OverlayMessage.content <$> bufferOf "a" s) = Some ["hi"; "you there?"]%string.
Proof. split; reflexivity. Qed.

(** Scenario 2: with five overlays open, a sixth conversation closes the
    window of the oldest one and takes a place at the end. *)
Example sixth_conversation_evicts_oldest :
  let s := showAll [ (Sample.message "a" "1", 1000); (Sample.message "b" "2", 2000);
                     (Sample.message "c" "3", 3000); (Sample.message "d" "4", 4000);
                     (Sample.message "e" "5", 5000); (Sample.message "f" "6", 6000) ]
             Sample.start in
  map fst (activeWindows s) = ["b"; "c"; "d"; "e"; "f"]%string
  /\ isLive (windows s) 0 = false
  /\ hasOpenOverlay "f" s = true.
Proof. repeat split; reflexivity. Qed.

(** A promoted conversation is no longer the oldest: after ["a"] receives
    a second message, the sixth conversation evicts ["b"]. *)
Example promoted_conversation_survives :
  let s := showAll [ (Sample.message "a" "1", 1000); (Sample.message "b" "2", 2000);
                     (Sample.message "c" "3", 3000); (Sample.message "d" "4", 4000);
                     (Sample.message "e" "5", 5000); (Sample.message "a" "again", 5500);
                     (Sample.message "f" "6", 6000) ]
             Sample.start in
  map fst (activeWindows s) = ["c"; "d"; "e"; "a"; "f"]%string.
Proof. reflexivity. Qed.

(** Scenario 4: the first three variants throw, the fourth returns, and the
    result is [true]. *)
Example fourth_variant_succeeds :
  let '(w, r) := sendMessageSafe (Some twoArgumentHost) "dm" "hello" 1700000000000
                   1700000000001 (mkWorld tt [] []) in
  r = Returned true
  /\ map snd (sendCalls w) = [true; true; true; false]
  /\ map (fun c => args_flag c.1) (sendCalls w) = [Some true; Some false; Some true; None].
Proof. vm_compute. repeat split; reflexivity. Qed.

(** The 201st message of a conversation pushes the first one out. *)
Example buffer_drops_oldest :
  let numbered := map (fun n => OverlayMessage.mk (Js.toString (Z.of_nat n)) "x" 0) (seq 0 201) in
  fold_left pushMessage (drop 1 numbered) (take 1 numbered) = drop 1 numbered
  /\ length (drop 1 numbered) = MAX_RENDERED_MESSAGES.
Proof. vm_compute. split; reflexivity. Qed.

End Scenarios.

(* ===================================================================== *)
(** * Escaping for script text *)
(* ===================================================================== *)

Section ScriptEscaping.
Import Template.
Local Open Scope string_scope.
#[local] Arguments String.append !_ _ / : simpl nomatch.

Lemma escapeJs_cons a s : escapeJs (String a s) = escapeJsChar a ++ escapeJs s.
Proof.
  unfold escapeJs, escapeJsChar, escaped. simpl.
  destruct (Ascii.eqb a backslash) eqn:Eb; [reflexivity|].
  simpl. destruct (Ascii.eqb a squote) eqn:Es; [reflexivity|].
  simpl. destruct (Ascii.eqb a dquote) eqn:Ed; [reflexivity|].
  simpl. destruct (Ascii.eqb a lineFeed) eqn:El; [reflexivity|].
  simpl. destruct (Ascii.eqb a carriageReturn) eqn:Ec; reflexivity.
Qed.

Lemma occurs_app c s1 s2 : occurs c (s1 ++ s2) = occurs c s1 || occurs c s2.
Proof.
  induction s1 as [|a s1 IH]; simpl; [reflexivity|].
  now rewrite IH, orb_assoc.
Qed.

Lemma replaceAll_absent c rep s : occurs c s = false -> replaceAll c rep s = s.
Proof.
  induction s as [|a s IH]; simpl; [reflexivity|].
  destruct (Ascii.eqb a c); simpl; [discriminate|]. intros H. now rewrite IH.
Qed.

Lemma occurs_replaceAll c rep s : occurs c rep = false -> occurs c (replaceAll c rep s) = false.
Proof.
  intros Hrep. induction s as [|a s IH]; simpl; [reflexivity|].
  destruct (Ascii.eqb a c) eqn:E.
  - now rewrite occurs_app, Hrep, IH.
  - simpl. now rewrite E, IH.
Qed.

(** X1. Text escaped by [escapeJs] and put between quotes is read back by
    JavaScript as exactly the original text: no raw quote ends the literal
    early, every backslash starts one of the five escapes, and decoding
    them returns the input. The escaped text holds no raw line break. Text
    without any of the five characters is left as it is. *)
Theorem escapeJs_reads_back :
  (forall text, readLiteralBody (escapeJs text) = Some text)
  /\ (forall text, occurs lineFeed (escapeJs text) = false
                   /\ occurs carriageReturn (escapeJs text) = false)
  /\ (forall text,
        occurs backslash text = false -> occurs squote text = false ->
        occurs dquote text = false -> occurs lineFeed text = false ->
        occurs carriageReturn text = false -> escapeJs text = text).
Proof.
  assert (Hread : forall text, readLiteralBody (escapeJs text) = Some text).
  { induction text as [|a s IH]; [reflexivity|].
    rewrite escapeJs_cons. unfold escapeJsChar, escaped.
    destruct (Ascii.eqb_spec a backslash) as [->|Hb]; [simpl; now rewrite IH|].
    destruct (Ascii.eqb_spec a squote) as [->|Hs]; [simpl; now rewrite IH|].
    destruct (Ascii.eqb_spec a dquote) as [->|Hd]; [simpl; now rewrite IH|].
    destruct (Ascii.eqb_spec a lineFeed) as [->|Hl]; [simpl; now rewrite IH|].
    destruct (Ascii.eqb_spec a carriageReturn) as [->|Hc]; [simpl; now rewrite IH|].
    simpl.
    destruct (Ascii.eqb_spec a backslash); [contradiction|].
    destruct (Ascii.eqb_spec a squote); [contradiction|].
    destruct (Ascii.eqb_spec a dquote); [contradiction|].
    destruct (Ascii.eqb_spec a lineFeed); [contradiction|].
    destruct (Ascii.eqb_spec a carriageReturn); [contradiction|].
    simpl. now rewrite IH. }
  split; [exact Hread|]. split.
  - intros text. induction text as [|a s [IHl IHc]]; [split; reflexivity|].
    rewrite escapeJs_cons, !occurs_app, IHl, IHc. unfold escapeJsChar, escaped.
    destruct (Ascii.eqb_spec a backslash) as [->|Hb]; [split; reflexivity|].
    destruct (Ascii.eqb_spec a squote) as [->|Hs]; [split; reflexivity|].
    destruct (Ascii.eqb_spec a dquote) as [->|Hd]; [split; reflexivity|].
    destruct (Ascii.eqb_spec a lineFeed) as [->|Hl]; [split; reflexivity|].
    destruct (Ascii.eqb_spec a carriageReturn) as [->|Hc]; [split; reflexivity|].
    simpl.
    destruct (Ascii.eqb_spec a lineFeed); [contradiction|].
    destruct (Ascii.eqb_spec a carriageReturn); [contradiction|].
    split; reflexivity.
  - intros text Hb Hs Hd Hl Hc. unfold escapeJs.
    now rewrite (replaceAll_absent _ _ _ Hb), (replaceAll_absent _ _ _ Hs),
      (replaceAll_absent _ _ _ Hd), (replaceAll_absent _ _ _ Hl),
      (replaceAll_absent _ _ _ Hc).
Qed.

(** X2. The text [safeJsonForInlineScript] returns holds no [<], so it can
    hold neither the end tag of the script element nor the start of an HTML
    comment; serialized text without [<] is returned as it is. *)
Theorem safeJsonForInlineScript_has_no_tag_open :
  (forall json, occurs lt (safeJsonForInlineScript json) = false)
  /\ (forall json, occurs lt json = false -> safeJsonForInlineScript json = json)
  /\ (forall json1 json2,
        safeJsonForInlineScript (json1 ++ json2)
        = safeJsonForInlineScript json1 ++ safeJsonForInlineScript json2).
Proof.
  split; [|split].
  - intros json. unfold safeJsonForInlineScript. now apply occurs_replaceAll.
  - intros json H. unfold safeJsonForInlineScript. now apply replaceAll_absent.
  - intros json1 json2. unfold safeJsonForInlineScript. apply replaceAll_app.
Qed.

End ScriptEscaping.

(* ===================================================================== *)
(** * The reply control of the overlay page *)
(* ===================================================================== *)

Section SurfaceFacts.
Import Surface.
Variable trim : string -> string.
Variable channelId : string.
Variable bridge : bool.

Lemma pageInvariant_doSend p :
  pageInvariant channelId bridge p ->
  pageInvariant channelId bridge (doSend trim channelId bridge p).
Proof.
  intros Hp. unfold doSend.
  destruct (sending p) eqn:E; [exact Hp|].
  destruct (Js.truthy (trim (inputValue p))) eqn:Et; simpl; [|exact Hp].
  destruct Hp as (Ht & Hr & Hs). rewrite E in Hs.
  destruct bridge eqn:Eb; unfold pageInvariant; simpl; rewrite Hs; simpl.
  - split; [now rewrite Ht, Hs|]. split; [|now split].
    constructor; [|constructor]. simpl. now repeat split.
  - split; [now rewrite Ht, Hs|]. split; [constructor|reflexivity].
Qed.

Lemma pageInvariant_act p a :
  pageInvariant channelId bridge p ->
  pageInvariant channelId bridge (act trim channelId bridge p a).
Proof.
  intros Hp. destruct a as [value| |key]; simpl.
  - exact Hp.
  - now apply pageInvariant_doSend.
  - destruct (String.eqb key "Enter"); [now apply pageInvariant_doSend|exact Hp].
Qed.

Lemma pageInvariant_actAll actions :
  pageInvariant channelId bridge (actAll trim channelId bridge actions).
Proof.
  unfold actAll.
  assert (H0 : pageInvariant channelId bridge initialPage) by (repeat split; constructor).
  revert H0. generalize initialPage.
  induction actions as [|a actions IH]; intros p Hp; simpl; [exact Hp|].
  apply IH, pageInvariant_act, Hp.
Qed.

End SurfaceFacts.

(** X3. However often the user clicks Send or presses Enter, an overlay
    page hands at most one reply to the bridge: once a reply is sent the
    [sending] flag stays set. The reply carries the page's channel id and a
    non-empty trimmed text, and one close timer is started per reply. A
    page without a bridge never sends. *)
Theorem page_sends_at_most_one_reply :
  forall (trim : string -> string) (channelId : string) (bridge : bool)
         (actions : list Surface.Action),
    let p := Surface.actAll trim channelId bridge actions in
    (length (Surface.replies p) <= 1)%nat
    /\ Surface.closeTimers p = length (Surface.replies p)
    /\ Forall (fun r => Js.truthy (Surface.reply_content r) = true
                        /\ Surface.reply_channelId r = channelId
                        /\ Surface.reply_notificationId r = channelId)
              (Surface.replies p)
    /\ (bridge = false -> Surface.replies p = [])
    /\ (Surface.sending p = true <-> Surface.replies p <> [])
    /\ (forall more,
          Surface.sending p = true ->
          Surface.replies (fold_left (Surface.act trim channelId bridge) more p)
          = Surface.replies p).
Proof.
  intros trim channelId bridge actions p.
  destruct (pageInvariant_actAll trim channelId bridge actions) as (Ht & Hr & Hs).
  fold p in Ht, Hr, Hs.
  split; [|split; [exact Ht|split; [exact Hr|split; [|split]]]].
  - destruct (Surface.sending p); [destruct Hs as [_ ->]; lia|rewrite Hs; simpl; lia].
  - intros Hb. destruct (Surface.sending p); [|exact Hs].
    destruct Hs as [Hb' _]. congruence.
  - destruct (Surface.sending p).
    + destruct Hs as [_ Hlen]. split; [|reflexivity].
      intros _ E. rewrite E in Hlen. discriminate Hlen.
    + split; [discriminate|]. intros H. now elim H.
  - intros more. generalize p. clear.
    induction more as [|a more IH]; intros p Hp; simpl; [reflexivity|].
    assert (Hstep : Surface.act trim channelId bridge p a
                    = match a with
                      | Surface.TypeText value =>
                          Surface.mkPage (Surface.sending p) value (Surface.buttonText p)
                            (Surface.buttonDisabled p) (Surface.replies p)
                            (Surface.closeTimers p)
                      | _ => p
                      end).
    { destruct a as [value| |key]; simpl; unfold Surface.doSend; rewrite ?Hp;
        try reflexivity. now destruct (String.eqb key "Enter"). }
    rewrite Hstep. destruct a as [value| |key]; rewrite IH; auto.
Qed.

(* ===================================================================== *)
(** * More about the native helper *)
(* ===================================================================== *)

Section NativeMore.
Import Native Layout.
Implicit Types (ws : list BrowserWindow.t) (m : list (string * WindowState.t)).

(** X4. [clamp n min max] is never below [min]; when [min <= max] it lies
    in the interval, leaves a value of the interval alone and is
    idempotent; when the bounds are crossed it returns [min]. *)
Theorem clamp_bounds (n lo hi : Z) :
  lo <= clamp n lo hi
  /\ (lo <= hi ->
      clamp n lo hi <= hi
      /\ (lo <= n <= hi -> clamp n lo hi = n)
      /\ (n < lo -> clamp n lo hi = lo)
      /\ (hi < n -> clamp n lo hi = hi)
      /\ clamp (clamp n lo hi) lo hi = clamp n lo hi)
  /\ (hi < lo -> clamp n lo hi = lo).
Proof. unfold clamp. repeat split; intros; lia. Qed.

Lemma lookup_closeIfLive h h' ws :
  closeIfLive h ws !! h'
  = if decide (h = h') then BrowserWindow.close <$> ws !! h' else ws !! h'.
Proof.
  unfold closeIfLive. destruct (decide (h = h')) as [->|Hne].
  - destruct (ws !! h') as [w|] eqn:Ew; [|now rewrite Ew].
    destruct (BrowserWindow.isDestroyed w) eqn:Ed.
    + rewrite Ew. simpl. f_equal. destruct w. simpl in *. now subst.
    + rewrite list_lookup_insert_eq by (now apply lookup_lt_Some in Ew). reflexivity.
  - destruct (ws !! h) as [w|]; [|reflexivity].
    destruct (BrowserWindow.isDestroyed w); [reflexivity|].
    now apply list_lookup_insert_ne.
Qed.

Lemma lookup_closeAll_windows m ws h :
  fold_left (fun ws e => closeIfLive (WindowState.win e.2) ws) m ws !! h
  = if decide (h ∈ handles m) then BrowserWindow.close <$> ws !! h else ws !! h.
Proof.
  revert ws. induction m as [|[k st] m IH]; intros ws; simpl.
  - destruct (decide (h ∈ handles [])) as [Hin|_]; [|reflexivity].
    unfold handles in Hin. simpl in Hin. now apply elem_of_nil in Hin.
  - rewrite IH, lookup_closeIfLive, handles_cons.
    destruct (decide (h ∈ handles m)) as [Hin|Hout];
      destruct (decide (WindowState.win st = h)) as [E|Hne];
      destruct (decide (h ∈ WindowState.win st :: handles m)) as [Hin'|Hout'];
      try reflexivity; try (now destruct (ws !! h)); exfalso.
    + apply Hout'. apply elem_of_cons. now right.
    + apply Hout'. apply elem_of_cons. now right.
    + apply Hout'. apply elem_of_cons. now left.
    + apply elem_of_cons in Hin'. destruct Hin' as [E|Hin']; [now apply Hne|now apply Hout].
Qed.

(** X5. [closeAll] empties the registry and leaves no window of a registry
    entry open; it touches no other window, moves and resizes nothing, and
    keeps the last dragged position. Calling it again changes nothing. *)
Theorem closeAll_leaves_nothing_open (s : State) :
  activeWindows (closeAll s) = []
  /\ (forall key st, (key, st) ∈ activeWindows s ->
                     isLive (windows (closeAll s)) (WindowState.win st) = false)
  /\ (forall h, h ∉ handles (activeWindows s) -> windows (closeAll s) !! h = windows s !! h)
  /\ (forall h w, windows (closeAll s) !! h = Some w ->
        exists w0, windows s !! h = Some w0
                   /\ BrowserWindow.position w = BrowserWindow.position w0
                   /\ BrowserWindow.size w = BrowserWindow.size w0)
  /\ lastDraggedPos (closeAll s) = lastDraggedPos s
  /\ closeAll (closeAll s) = closeAll s.
Proof.
  split; [reflexivity|]. split; [|split; [|split; [|split; [reflexivity|]]]].
  - intros key st Hin. unfold closeAll, isLive. simpl.
    rewrite lookup_closeAll_windows, decide_True.
    + now destruct (windows s !! WindowState.win st).
    + unfold handles. apply list_elem_of_fmap. now exists (key, st).
  - intros h Hh. unfold closeAll. simpl.
    now rewrite lookup_closeAll_windows, decide_False.
  - intros h w. unfold closeAll. simpl. rewrite lookup_closeAll_windows.
    destruct (decide (h ∈ handles (activeWindows s))).
    + destruct (windows s !! h) as [w0|]; [|discriminate].
      simpl. intros [= <-]. now exists w0.
    + intros H. now exists w.
  - reflexivity.
Qed.

Lemma toString_truthy z : Js.truthy (Js.toString z) = true.
Proof.
  unfold Js.truthy. destruct (String.eqb_spec (Js.toString z) EmptyString) as [E|]; [|reflexivity].
  pose proof (parseInteger_toString z) as H. rewrite E in H. vm_compute in H.
  discriminate H.
Qed.

Lemma last_lastN {A} n (l : list A) x : (0 < n)%nat -> last (lastN n (l ++ [x])) = Some x.
Proof.
  intros Hn. unfold lastN. rewrite length_app. simpl.
  rewrite drop_app_le by lia. apply last_snoc.
Qed.

(** What [showNotification] leaves for the conversation of the
    notification: an open overlay whose newest message is the new one. *)
Lemma showNotification_entry_after (data : NotificationData.t) (now : Z) (s : State) :
  let key := NotificationData.channelId data in
  let s' := showNotification data now s in
  hasOpenOverlay key s' = true
  /\ (exists buffer, bufferOf key s' = Some buffer
                     /\ last buffer = Some (makeMessage data now)
                     /\ (WindowState.lastTimestamp <$> JsMap.get key (activeWindows s'))
                        = Some (OverlayMessage.timestamp (makeMessage data now))).
Proof.
  intros key s'. split.
  - unfold s', showNotification, hasOpenOverlay. fold key.
    destruct (JsMap.get key (activeWindows s)) as [existing|] eqn:Eg.
    + destruct (isLive (windows s) (WindowState.win existing)) eqn:El.
      * destruct (appendToExisting_entry key existing (makeMessage data now) s) as [-> Hl].
        simpl. now rewrite Hl.
      * destruct (createOverlay_entry key data (makeMessage data now) (limitOverlays s))
          as (st & -> & _ & _ & _ & Hl). exact Hl.
    + destruct (createOverlay_entry key data (makeMessage data now) (limitOverlays s))
        as (st & -> & _ & _ & _ & Hl). exact Hl.
  - unfold s', showNotification, bufferOf. fold key.
    assert (Hnew : exists buffer,
              WindowState.messages
                <$> JsMap.get key
                      (activeWindows
                         (createOverlay key data (makeMessage data now) (limitOverlays s)))
              = Some buffer
              /\ last buffer = Some (makeMessage data now)
              /\ (WindowState.lastTimestamp
                    <$> JsMap.get key
                          (activeWindows
                             (createOverlay key data (makeMessage data now) (limitOverlays s))))
                 = Some (OverlayMessage.timestamp (makeMessage data now))).
    { unfold createOverlay. simpl. rewrite get_set_eq. simpl.
      exists [makeMessage data now]. repeat split. }
    destruct (JsMap.get key (activeWindows s)) as [existing|] eqn:Eg; [|exact Hnew].
    destruct (isLive (windows s) (WindowState.win existing)); [|exact Hnew].
    destruct (appendToExisting_entry key existing (makeMessage data now) s) as [-> _].
    simpl. eexists. split; [reflexivity|]. split; [|reflexivity].
    rewrite pushMessage_lastN. apply last_lastN. unfold MAX_RENDERED_MESSAGES. lia.
Qed.


End NativeMore.

(* ===================================================================== *)
(** * Promotion, and what the layout pass leaves alone *)
(* ===================================================================== *)

Section PromotionAndFrame.
Import Native Layout.
Implicit Types (ws : list BrowserWindow.t) (m : list (string * WindowState.t)).

Lemma keys_delete key m :
  map fst (JsMap.delete key m) = filter (fun k => k <> key) (map fst m).
Proof.
  induction m as [|[k v] m IH]; simpl; [reflexivity|].
  destruct (String.eqb_spec k key) as [->|Hne].
  - rewrite filter_cons_False by (intros H; now apply H). exact IH.
  - rewrite filter_cons_True by exact Hne. simpl. now rewrite IH.
Qed.

Lemma keys_set_absent key (v : WindowState.t) m :
  JsMap.get key m = None -> map fst (JsMap.set key v m) = map fst m ++ [key].
Proof. intros H. rewrite (set_absent _ _ _ H), map_app. reflexivity. Qed.

(** X7. A message for a conversation whose overlay is open moves its entry
    to the end of the iteration order and keeps the order of the others;
    no other entry changes and the registry does not grow. So the
    conversation is not the next one to be evicted as long as the registry
    holds another conversation. *)
Theorem showNotification_promotes_to_most_recent
    (data : NotificationData.t) (now : Z) (s : State) (existing : WindowState.t)
    (Hentry : JsMap.get (NotificationData.channelId data) (activeWindows s) = Some existing)
    (Hopen : isLive (windows s) (WindowState.win existing) = true) :
  let key := NotificationData.channelId data in
  let s' := showNotification data now s in
  keys s' = filter (fun k => k <> key) (keys s) ++ [key]
  /\ (forall k, k <> key -> JsMap.get k (activeWindows s') = JsMap.get k (activeWindows s))
  /\ (registrySize s' <= registrySize s)%nat
  /\ (forall k, k ∈ keys s -> k <> key -> JsMap.firstKey (activeWindows s') <> Some key).
Proof.
  intros key s'.
  assert (Hs' : activeWindows s'
                = JsMap.set key
                    (WindowState.withMessages
                       (pushMessage (WindowState.messages existing) (makeMessage data now))
                       (OverlayMessage.timestamp (makeMessage data now)) existing)
                    (JsMap.delete key (activeWindows s))).
  { unfold s'. rewrite (showNotification_on_open data now s existing Hentry Hopen).
    reflexivity. }
  assert (Hkeys : keys s' = filter (fun k => k <> key) (keys s) ++ [key]).
  { unfold keys. rewrite Hs', keys_set_absent by apply get_delete_eq.
    now rewrite keys_delete. }
  split; [exact Hkeys|]. split; [|split].
  - intros k Hk. rewrite Hs'. rewrite get_set_ne by congruence.
    apply get_delete_ne. congruence.
  - unfold registrySize. rewrite Hs'.
    pose proof (length_delete_present _ _ _ Hentry).
    eapply Nat.le_trans; [apply length_set_le|]. fold key in H. lia.
  - intros k Hin Hk Hfirst.
    assert (Hhead : head (keys s') = Some key).
    { unfold keys. destruct (activeWindows s') as [|[k0 v0] rest]; [discriminate|].
      simpl in *. congruence. }
    rewrite Hkeys in Hhead.
    assert (Hk' : k ∈ filter (fun k => k <> key) (keys s))
      by (apply list_elem_of_filter; now split).
    destruct (filter (fun k => k <> key) (keys s)) as [|k1 rest] eqn:Ef.
    + now apply elem_of_nil in Hk'.
    + simpl in Hhead. injection Hhead as ->.
      assert (Hk1 : key ∈ filter (fun k => k <> key) (keys s))
        by (rewrite Ef; apply list_elem_of_here).
      apply list_elem_of_filter in Hk1. destruct Hk1 as [Hne _]. now apply Hne.
Qed.

(** With ["a"] and ["b"] open, a second message for ["a"] makes ["b"] the
    oldest entry. *)
Lemma showNotification_promotes_to_most_recent_witness :
  keys (showNotification (Sample.message "a" "again") 3000 Sample.twoOverlays)
  = ["b"; "a"]%string.
Proof.
  exact (proj1 (showNotification_promotes_to_most_recent
                  (Sample.message "a" "again") 3000 Sample.twoOverlays
                  (WindowState.mk 0 "a" "Ann" "https://cdn.discordapp.com/embed/avatars/0.png"
                     [OverlayMessage.mk "m1" "hi" 1000] 1000 160 None)
                  eq_refl eq_refl)).
Defined.

Lemma lastWrite_unplaced area i sb entries ws h :
  (forall e, e ∈ entries -> WindowState.win e.2 = h -> placed ws e.2 = false) ->
  lastWrite h (layoutWrites area i sb entries ws) = None.
Proof.
  revert i sb. induction entries as [|[k st] entries IH]; intros i sb Hh; simpl.
  - reflexivity.
  - assert (Hrest : forall e, e ∈ entries -> WindowState.win e.2 = h -> placed ws e.2 = false).
    { intros e He. apply Hh. now apply list_elem_of_further. }
    destruct (placed ws st) eqn:Ep; simpl; rewrite (IH _ _ Hrest); [|reflexivity].
    destruct (Nat.eqb_spec (WindowState.win st) h) as [E|]; [|reflexivity].
    pose proof (Hh (k, st) (list_elem_of_here _ _) E) as Hp. simpl in Hp. congruence.
Qed.

(** X10. The layout pass only moves windows. It leaves the registry, the
    last dragged position and the work area as they are, opens, closes and
    resizes nothing, and does not touch a window unless an entry with an
    open window and no manual position holds it. A second pass right after
    the first changes nothing. *)
Theorem repositionWindows_only_moves_placed_windows (s : State) :
  let s' := repositionWindows s in
  activeWindows s' = activeWindows s
  /\ lastDraggedPos s' = lastDraggedPos s
  /\ workAreaSize s' = workAreaSize s
  /\ length (windows s') = length (windows s)
  /\ (forall h,
        (BrowserWindow.isDestroyed <$> windows s' !! h)
        = (BrowserWindow.isDestroyed <$> windows s !! h)
        /\ (BrowserWindow.size <$> windows s' !! h) = (BrowserWindow.size <$> windows s !! h))
  /\ (forall h,
        (forall e, e ∈ activeWindows s -> WindowState.win e.2 = h ->
                   placed (windows s) e.2 = false) ->
        windows s' !! h = windows s !! h)
  /\ repositionWindows s' = s'.
Proof.
  intros s'.
  assert (Hlook : forall h, windows s' !! h =
            match lastWrite h (layoutWrites (workAreaSize s) 0 0 (activeWindows s) (windows s)) with
            | Some p => BrowserWindow.setPosition p.1 p.2 <$> windows s !! h
            | None => windows s !! h
            end).
  { intros h. unfold s', repositionWindows. simpl.
    rewrite repositionLoop_writes. apply lookup_applyWrites. }
  split; [reflexivity|]. split; [reflexivity|]. split; [reflexivity|].
  split; [apply length_windows_repositionWindows|]. split; [|split].
  - intros h. rewrite Hlook.
    destruct (lastWrite h _) as [p|]; [|now split].
    destruct (windows s !! h) as [w|]; now split.
  - intros h Hh. rewrite Hlook. now rewrite (lastWrite_unplaced _ _ _ _ _ _ Hh).
  - apply repositionWindows_idempotent.
Qed.

End PromotionAndFrame.

(* ===================================================================== *)
(** * The stack of placed windows *)
(* ===================================================================== *)

Section StackFacts.
Import Native Layout.
Implicit Types (ws : list BrowserWindow.t) (m : list (string * WindowState.t)).

Lemma workAreaSize_step s e : workAreaSize (step s e) = workAreaSize s.
Proof.
  destruct e as [data now|id| |payload|key h|key| |h x y|h]; simpl; try reflexivity.
  - unfold showNotification.
    assert (Hc : workAreaSize (createOverlay (NotificationData.channelId data) data
                                 (makeMessage data now) (limitOverlays s)) = workAreaSize s).
    { unfold createOverlay. simpl. apply limitOverlays_fields. }
    destruct (JsMap.get _ _); [destruct (isLive _ _)|]; auto.
  - unfold onResize. destruct payload as [p|]; [|reflexivity].
    destruct (Js.truthy _); [|reflexivity].
    destruct (JsMap.get _ _); [|reflexivity].
    destruct (windows s !! _) as [w|]; [|reflexivity].
    destruct (BrowserWindow.isDestroyed w); [reflexivity|].
    now destruct (_ =? _).
  - unfold updateDraggedPosition. destruct (windows s !! h) as [w|]; [|reflexivity].
    now destruct (BrowserWindow.isDestroyed w).
  - unfold moveWindow. destruct (windows s !! h) as [w|]; [|reflexivity].
    now destruct (BrowserWindow.isDestroyed w).
Qed.

Lemma workAreaSize_run s events : workAreaSize (run s events) = workAreaSize s.
Proof.
  revert s. induction events as [|e events IH]; intros s; simpl; [reflexivity|].
  now rewrite IH, workAreaSize_step.
Qed.

(** X11. After a layout pass in any reachable state the placed windows
    form one column: they share the left edge at
    [width - WINDOW_WIDTH - WINDOW_MARGIN], the first placed entry rests
    [WINDOW_MARGIN] above the bottom of the work area or higher, and a
    placed entry that comes later in iteration order lies wholly above an
    earlier one, at least [WINDOW_SPACING] apart. *)
Theorem placed_windows_do_not_overlap :
  forall persisted area events pre k1 st1 mid k2 st2 post,
    let s := run (initialState persisted area) events in
    let s' := repositionWindows s in
    activeWindows s = pre ++ (k1, st1) :: mid ++ (k2, st2) :: post ->
    placed (windows s) st1 = true ->
    placed (windows s) st2 = true ->
    exists y1 y2,
      BrowserWindow.position <$> windows s' !! WindowState.win st1
      = Some (area.1 - WINDOW_WIDTH - WINDOW_MARGIN, y1)
      /\ BrowserWindow.position <$> windows s' !! WindowState.win st2
         = Some (area.1 - WINDOW_WIDTH - WINDOW_MARGIN, y2)
      /\ y2 + WindowState.currentHeight st2 + WINDOW_SPACING <= y1
      /\ y1 + WindowState.currentHeight st1 <= area.2 - WINDOW_MARGIN.
Proof.
  intros persisted area events pre k1 st1 mid k2 st2 post s s' Hsplit Hp1 Hp2.
  pose proof (wellFormed_reachable persisted area events) as [Hnd _]. fold s in Hnd.
  assert (Harea : workAreaSize s = area) by (unfold s; now rewrite workAreaSize_run).
  assert (Hheights : Forall (fun e => 0 <= WindowState.currentHeight e.2) (activeWindows s)).
  { apply Forall_forall. intros [k st] Hin.
    simpl.
    enough (H : WINDOW_MIN_HEIGHT <= WindowState.currentHeight st <= WINDOW_MAX_HEIGHT)
      by (unfold WINDOW_MIN_HEIGHT in H; lia).
    revert k st Hin. unfold s.
    assert (Hall : Forall (fun e => WINDOW_MIN_HEIGHT <= WindowState.currentHeight e.2
                                    <= WINDOW_MAX_HEIGHT)
                     (activeWindows (run (initialState persisted area) events))).
    { apply (holds_run (fun st => WINDOW_MIN_HEIGHT <= WindowState.currentHeight st
                                 <= WINDOW_MAX_HEIGHT)).
      - intros. simpl. unfold WINDOW_MIN_HEIGHT, WINDOW_MAX_HEIGHT. lia.
      - intros st0 msg H. exact H.
      - intros st0 v _. simpl. apply normalizeRequestedHeight_range.
      - intros st0 p H. exact H.
      - constructor. }
    rewrite Forall_forall in Hall. intros k st Hin. exact (Hall (k, st) Hin). }
  pose proof (repositionWindows_places s pre k1 st1 (mid ++ (k2, st2) :: post)
                Hsplit Hnd Hp1) as H1.
  assert (Hsplit2 : activeWindows s = (pre ++ (k1, st1) :: mid) ++ (k2, st2) :: post)
    by (rewrite Hsplit, <- app_assoc; reflexivity).
  pose proof (repositionWindows_places s _ k2 st2 post Hsplit2 Hnd Hp2) as H2.
  fold s' in H1, H2. rewrite Harea in H1, H2.
  unfold getWindowPosition in H1, H2. destruct area as [width height]. simpl.
  eexists. eexists. split; [exact H1|]. split; [exact H2|].
  rewrite placedCount_app, placedHeight_app. simpl. rewrite Hp1.
  rewrite Hsplit in Hheights. apply Forall_app in Hheights. destruct Hheights as [Hpre Hrest].
  apply Forall_cons in Hrest. destruct Hrest as [Hh1 Hrest]. simpl in Hh1.
  apply Forall_app in Hrest. destruct Hrest as [Hmid _].
  pose proof (placedCount_nonneg (windows s) pre).
  pose proof (placedHeight_nonneg (windows s) pre Hpre).
  pose proof (placedCount_nonneg (windows s) mid).
  pose proof (placedHeight_nonneg (windows s) mid Hmid).
  unfold WINDOW_SPACING. lia.
Qed.

Lemma elem_of_set_in_place key (v v0 : WindowState.t) m e :
  NoDup (handles m) -> JsMap.get key m = Some v0 ->
  e ∈ JsMap.set key v m ->
  e = (key, v) \/ (e ∈ m /\ WindowState.win e.2 <> WindowState.win v0).
Proof.
  induction m as [|[k v1] m IH]; simpl; [discriminate|].
  intros Hnd Hg. rewrite handles_cons in Hnd. apply NoDup_cons in Hnd.
  destruct Hnd as [Hv1 Hnd].
  destruct (String.eqb_spec k key) as [->|Hk].
  - injection Hg as ->. rewrite elem_of_cons. intros [->|He]; [now left|right].
    split; [now apply list_elem_of_further|].
    intros E. apply Hv1. rewrite <- E. unfold handles.
    apply list_elem_of_fmap. now exists e.
  - rewrite elem_of_cons. intros [->|He].
    + right. split; [apply list_elem_of_here|]. simpl.
      intros E. apply Hv1. rewrite E. now apply get_elem_handles with (key := key).
    + destruct (IH Hnd Hg He) as [->|[Hin Hne]]; [now left|right].
      split; [now apply list_elem_of_further|exact Hne].
Qed.

Lemma sizesKept_entries ws ws' (m m' : list (string * WindowState.t)) :
  sizesKept ws ws' -> (forall e, e ∈ m' -> e ∈ m) ->
  Forall (fun e => forall w, ws !! WindowState.win e.2 = Some w ->
            BrowserWindow.size w = (WINDOW_WIDTH, WindowState.currentHeight e.2)) m ->
  Forall (fun e => forall w, ws' !! WindowState.win e.2 = Some w ->
            BrowserWindow.size w = (WINDOW_WIDTH, WindowState.currentHeight e.2)) m'.
Proof.
  intros Hk Hsub Hm. rewrite Forall_forall in *. intros e He w' Hw'.
  destruct (Hk _ _ Hw') as (w & Hw & ->). exact (Hm e (Hsub e He) w Hw).
Qed.

Lemma sizesKept_refl ws : sizesKept ws ws.
Proof. intros h w H. now exists w. Qed.

Lemma sizesKept_trans ws1 ws2 ws3 : sizesKept ws1 ws2 -> sizesKept ws2 ws3 -> sizesKept ws1 ws3.
Proof.
  intros H12 H23 h w3 Hw3. destruct (H23 _ _ Hw3) as (w2 & Hw2 & ->).
  destruct (H12 _ _ Hw2) as (w1 & Hw1 & ->). now exists w1.
Qed.

Lemma sizesKept_closeIfLive h ws : sizesKept ws (closeIfLive h ws).
Proof.
  intros h' w'. rewrite lookup_closeIfLive.
  destruct (decide (h = h')); [|intros H; now exists w'].
  destruct (ws !! h') as [w|]; [|discriminate]. simpl. intros [= <-]. now exists w.
Qed.

Lemma sizesKept_reposition s : sizesKept (windows s) (windows (repositionWindows s)).
Proof.
  intros h w'. unfold repositionWindows. simpl.
  rewrite repositionLoop_writes, lookup_applyWrites.
  destruct (lastWrite h _) as [p|]; [|intros H; now exists w'].
  destruct (windows s !! h) as [w|]; [|discriminate]. simpl. intros [= <-]. now exists w.
Qed.

Lemma sizesAgree_reposition s : sizesAgree s -> sizesAgree (repositionWindows s).
Proof.
  intros H. unfold sizesAgree. rewrite activeWindows_repositionWindows.
  eapply sizesKept_entries; [apply sizesKept_reposition| |exact H]. auto.
Qed.

Lemma delete_subset key m e : e ∈ JsMap.delete key m -> e ∈ m.
Proof. intros H. eapply elem_of_sublist; [exact H|apply delete_sublist]. Qed.

Lemma sizesAgree_closeNotification id s : sizesAgree s -> sizesAgree (closeNotification id s).
Proof.
  intros H. unfold closeNotification. apply sizesAgree_reposition.
  unfold sizesAgree. simpl.
  eapply sizesKept_entries; [|apply delete_subset|exact H].
  destruct (JsMap.get id (activeWindows s)); [apply sizesKept_closeIfLive|apply sizesKept_refl].
Qed.

Lemma sizesAgree_limitOverlays s : sizesAgree s -> sizesAgree (limitOverlays s).
Proof.
  intros Hs. unfold limitOverlays.
  destruct (MAX_OVERLAY_WINDOWS <=? length (activeWindows s))%nat; [|exact Hs].
  destruct (JsMap.firstKey (activeWindows s)) as [oldest|]; [|exact Hs].
  destruct (Js.truthy oldest); [|exact Hs]. now apply sizesAgree_closeNotification.
Qed.

Lemma sizesAgree_createOverlay key data msg s :
  wellFormed s -> sizesAgree s -> sizesAgree (createOverlay key data msg s).
Proof.
  intros [_ Hr] Hs. unfold sizesAgree, createOverlay. simpl.
  apply Forall_set.
  - simpl. intros w. rewrite lookup_app_r by lia. rewrite Nat.sub_diag. simpl.
    now intros [= <-].
  - unfold sizesAgree in Hs. rewrite Forall_forall in *. intros e He w Hw.
    rewrite lookup_app_l in Hw by exact (Hr e He). exact (Hs e He w Hw).
Qed.

Lemma sizesAgree_step s e : wellFormed s -> sizesAgree s -> sizesAgree (step s e).
Proof.
  intros Hwf Hs. destruct e as [data now|id| |payload|key h|key| |h x y|h]; simpl.
  - unfold showNotification.
    assert (Hc : sizesAgree (createOverlay (NotificationData.channelId data) data
                               (makeMessage data now) (limitOverlays s))).
    { apply sizesAgree_createOverlay;
        [now apply wellFormed_limitOverlays|now apply sizesAgree_limitOverlays]. }
    destruct (JsMap.get _ (activeWindows s)) as [existing|] eqn:Eg; [|exact Hc].
    destruct (isLive _ _); [|exact Hc].
    unfold appendToExisting. apply sizesAgree_reposition.
    unfold sizesAgree in *. simpl. apply Forall_set; [|now apply Forall_delete].
    simpl. rewrite Forall_forall in Hs.
    exact (Hs _ (get_Some_elem _ _ _ Eg)).
  - now apply sizesAgree_closeNotification.
  - constructor.
  - unfold onResize. destruct payload as [p|]; [|exact Hs].
    destruct (Js.truthy _); [|exact Hs].
    destruct (JsMap.get _ (activeWindows s)) as [st|] eqn:Eg; [|exact Hs].
    destruct (windows s !! _) as [w|] eqn:Ew; [|exact Hs].
    destruct (BrowserWindow.isDestroyed w); [exact Hs|].
    destruct (_ =? _); [exact Hs|].
    apply sizesAgree_reposition. unfold sizesAgree in *. simpl.
    apply Forall_forall. intros e He w' Hw'.
    destruct (elem_of_set_in_place _ _ st _ _ (proj1 Hwf) Eg He) as [->|[Hin Hne]].
    + simpl in *. rewrite list_lookup_insert_eq in Hw' by (now apply lookup_lt_Some in Ew).
      now injection Hw' as <-.
    + rewrite list_lookup_insert_ne in Hw' by congruence.
      rewrite Forall_forall in Hs. exact (Hs e Hin w' Hw').
  - unfold updateDraggedPosition. destruct (windows s !! h) as [w|]; [|exact Hs].
    destruct (BrowserWindow.isDestroyed w); [exact Hs|].
    destruct (JsMap.get key (activeWindows s)) as [st|] eqn:Eg; [|exact Hs].
    unfold sizesAgree in *. simpl. apply Forall_set; [|exact Hs].
    simpl. rewrite Forall_forall in Hs. exact (Hs _ (get_Some_elem _ _ _ Eg)).
  - unfold onClosed. apply sizesAgree_reposition. unfold sizesAgree in *. simpl.
    now apply Forall_delete.
  - now apply sizesAgree_reposition.
  - unfold moveWindow. destruct (windows s !! h) as [w|] eqn:Ew; [|exact Hs].
    destruct (BrowserWindow.isDestroyed w); [exact Hs|].
    unfold sizesAgree in *. simpl.
    eapply sizesKept_entries; [|intros e He; exact He|exact Hs].
    intros h' w'. destruct (decide (h = h')) as [<-|Hne].
    + rewrite list_lookup_insert_eq by (now apply lookup_lt_Some in Ew).
      intros [= <-]. now exists w.
    + rewrite list_lookup_insert_ne by exact Hne. intros H. now exists w'.
  - unfold destroyWindow, sizesAgree in *. simpl.
    eapply sizesKept_entries; [apply sizesKept_closeIfLive|intros e He; exact He|exact Hs].
Qed.

Lemma sizesAgree_run s events :
  wellFormed s -> sizesAgree s -> wellFormed (run s events) /\ sizesAgree (run s events).
Proof.
  revert s. induction events as [|e events IH]; intros s Hwf Hs; simpl; [now split|].
  apply IH; [now apply wellFormed_step|now apply sizesAgree_step].
Qed.

Lemma sizesAgree_reachable persisted area events :
  sizesAgree (run (initialState persisted area) events).
Proof.
  apply sizesAgree_run; [split; simpl; constructor|constructor].
Qed.

(** X12. In every reachable state the window of each registry entry is
    [WINDOW_WIDTH] wide and as high as the height its entry stores: the
    heights the layout pass adds up are the heights on screen. *)
Theorem window_size_matches_stored_height :
  forall persisted area events key st w,
    let s := run (initialState persisted area) events in
    (key, st) ∈ activeWindows s ->
    windows s !! WindowState.win st = Some w ->
    BrowserWindow.size w = (WINDOW_WIDTH, WindowState.currentHeight st)
    /\ WINDOW_MIN_HEIGHT <= (BrowserWindow.size w).2 <= WINDOW_MAX_HEIGHT.
Proof.
  intros persisted area events key st w s Hin Hw.
  pose proof (sizesAgree_reachable persisted area events) as Hs. fold s in Hs.
  unfold sizesAgree in Hs. rewrite Forall_forall in Hs.
  pose proof (Hs (key, st) Hin w Hw) as Hsize. simpl in Hsize.
  split; [exact Hsize|]. rewrite Hsize. simpl.
  assert (Hall : Forall (fun e => WINDOW_MIN_HEIGHT <= WindowState.currentHeight e.2
                                  <= WINDOW_MAX_HEIGHT) (activeWindows s)).
  { apply (holds_run (fun st => WINDOW_MIN_HEIGHT <= WindowState.currentHeight st
                               <= WINDOW_MAX_HEIGHT)).
    - intros. simpl. unfold WINDOW_MIN_HEIGHT, WINDOW_MAX_HEIGHT. lia.
    - intros st0 msg H. exact H.
    - intros st0 v _. simpl. apply normalizeRequestedHeight_range.
    - intros st0 p H. exact H.
    - constructor. }
  rewrite Forall_forall in Hall. exact (Hall (key, st) Hin).
Qed.

(** [Sample.threeOverlays]: ["a"] and ["c"] are placed, the dragged ["b"]
    between them is not. *)
Lemma placed_windows_do_not_overlap_witness :
  exists y1 y2,
    BrowserWindow.position <$> windows (repositionWindows Sample.threeOverlays) !! 0%nat
    = Some (1920 - WINDOW_WIDTH - WINDOW_MARGIN, y1)
    /\ BrowserWindow.position <$> windows (repositionWindows Sample.threeOverlays) !! 2%nat
       = Some (1920 - WINDOW_WIDTH - WINDOW_MARGIN, y2)
    /\ y2 + 300 + WINDOW_SPACING <= y1
    /\ y1 + 160 <= 1080 - WINDOW_MARGIN.
Proof.
  exact (placed_windows_do_not_overlap None (1920, 1080)
    [ ShowNotification (Sample.message "a" "hi") 1000;
      ShowNotification (Sample.message "b" "yo") 2000;
      ShowNotification (Sample.message "c" "hey") 3000;
      UserMoves 1 100 200;
      Moved "b" 1;
      Resize (Some (mkResize "c" (Js.Num (Js.Finite (300 # 1))))) ]
    [] "a"
    (WindowState.mk 0 "a" "Ann" "https://cdn.discordapp.com/embed/avatars/0.png"
       [OverlayMessage.mk "m1" "hi" 1000] 1000 160 None)
    [("b"%string,
      WindowState.mk 1 "b" "Ann" "https://cdn.discordapp.com/embed/avatars/0.png"
        [OverlayMessage.mk "m1" "yo" 1000] 1000 160 (Some (100, 200)))]
    "c"
    (WindowState.mk 2 "c" "Ann" "https://cdn.discordapp.com/embed/avatars/0.png"
       [OverlayMessage.mk "m1" "hey" 1000] 1000 300 None)
    [] eq_refl eq_refl eq_refl).
Defined.

(** The window of ["c"] in [Sample.threeOverlays], grown to 300 pixels. *)
Lemma window_size_matches_stored_height_witness :
  (BrowserWindow.size <$> windows Sample.threeOverlays !! 2%nat) = Some (WINDOW_WIDTH, 300).
Proof.
  change (Some (BrowserWindow.size (BrowserWindow.mk false (1406, 590) (WINDOW_WIDTH, 300)))
          = Some (WINDOW_WIDTH, 300)).
  apply (f_equal Some).
  refine (proj1 (window_size_matches_stored_height None (1920, 1080)
    [ ShowNotification (Sample.message "a" "hi") 1000;
      ShowNotification (Sample.message "b" "yo") 2000;
      ShowNotification (Sample.message "c" "hey") 3000;
      UserMoves 1 100 200;
      Moved "b" 1;
      Resize (Some (mkResize "c" (Js.Num (Js.Finite (300 # 1))))) ]
    "c"
    (WindowState.mk 2 "c" "Ann" "https://cdn.discordapp.com/embed/avatars/0.png"
       [OverlayMessage.mk "m1" "hey" 1000] 1000 300 None)
    (BrowserWindow.mk false (1406, 590) (WINDOW_WIDTH, 300)) _ eq_refl)).
  vm_compute. do 2 apply list_elem_of_further. apply list_elem_of_here.
Defined.

End StackFacts.

(* ===================================================================== *)
(** * The last dragged position *)
(* ===================================================================== *)

Section PinnedFacts.
Import Native Layout.
Implicit Types (ws : list BrowserWindow.t) (m : list (string * WindowState.t)).

Lemma lastDraggedPos_step s e : lastDraggedPos s <> None -> lastDraggedPos (step s e) <> None.
Proof.
  intros Hs. destruct e as [data now|id| |payload|key h|key| |h x y|h]; simpl; try exact Hs.
  - unfold showNotification.
    assert (Hc : lastDraggedPos (createOverlay (NotificationData.channelId data) data
                                   (makeMessage data now) (limitOverlays s)) <> None).
    { unfold createOverlay. simpl. now rewrite (proj1 (limitOverlays_fields s)). }
    destruct (JsMap.get _ _); [destruct (isLive _ _)|]; auto.
  - unfold onResize. destruct payload as [p|]; [|exact Hs].
    destruct (Js.truthy _); [|exact Hs].
    destruct (JsMap.get _ _); [|exact Hs].
    destruct (windows s !! _) as [w|]; [|exact Hs].
    destruct (BrowserWindow.isDestroyed w); [exact Hs|].
    now destruct (_ =? _).
  - unfold updateDraggedPosition. destruct (windows s !! h) as [w|]; [|exact Hs].
    destruct (BrowserWindow.isDestroyed w); [exact Hs|]. discriminate.
  - unfold moveWindow. destruct (windows s !! h) as [w|]; [|exact Hs].
    now destruct (BrowserWindow.isDestroyed w).
Qed.

Lemma lastDraggedPos_run s events :
  lastDraggedPos s <> None -> lastDraggedPos (run s events) <> None.
Proof.
  revert s. induction events as [|e events IH]; intros s Hs; simpl; [exact Hs|].
  now apply IH, lastDraggedPos_step.
Qed.

(** An entry of the state after a step that has no manual position was
    there before the step, with no manual position and the same window. *)
Lemma unpinned_entry_is_old s e key st' :
  lastDraggedPos s <> None ->
  JsMap.get key (activeWindows (step s e)) = Some st' ->
  WindowState.manualPos st' = None ->
  exists st, JsMap.get key (activeWindows s) = Some st
             /\ WindowState.manualPos st = None
             /\ WindowState.win st = WindowState.win st'.
Proof.
  intros Hd Hg Hm.
  assert (Hdel : forall id,
            JsMap.get key (JsMap.delete id (activeWindows s)) = Some st' ->
            JsMap.get key (activeWindows s) = Some st').
  { intros id H. destruct (String.eqb_spec id key) as [->|Hne].
    - now rewrite get_delete_eq in H.
    - now rewrite get_delete_ne in H. }
  assert (Hlimit : JsMap.get key (activeWindows (limitOverlays s)) = Some st' ->
                   JsMap.get key (activeWindows s) = Some st').
  { unfold limitOverlays.
    destruct (MAX_OVERLAY_WINDOWS <=? length (activeWindows s))%nat; [|auto].
    destruct (JsMap.firstKey (activeWindows s)) as [oldest|]; [|auto].
    destruct (Js.truthy oldest); [|auto]. apply Hdel. }
  assert (Hcreate : forall data now,
            JsMap.get key (activeWindows
               (createOverlay (NotificationData.channelId data) data (makeMessage data now)
                  (limitOverlays s))) = Some st' ->
            JsMap.get key (activeWindows s) = Some st').
  { intros data now H. unfold createOverlay in H. simpl in H.
    destruct (String.eqb_spec (NotificationData.channelId data) key) as [E|Hne].
    - rewrite E, get_set_eq in H. injection H as <-. simpl in Hm.
      rewrite (proj1 (limitOverlays_fields s)) in Hm. contradiction.
    - rewrite get_set_ne in H by exact Hne. now apply Hlimit. }
  destruct e as [data now|id| |payload|k h|k| |h x y|h]; cbn [step] in Hg.
  - try unfold showNotification in Hg.
    destruct (JsMap.get (NotificationData.channelId data) (activeWindows s))
      as [existing|] eqn:Eg; [|exists st'; split; [eapply Hcreate; eauto|now split]].
    destruct (isLive _ _); [|exists st'; split; [eapply Hcreate; eauto|now split]].
    try unfold appendToExisting in Hg. rewrite ?activeWindows_repositionWindows in Hg.
    simpl in Hg.
    destruct (String.eqb_spec (NotificationData.channelId data) key) as [E|Hne].
    + rewrite E in *. rewrite get_set_eq in Hg. injection Hg as <-.
      exists existing. now repeat split.
    + rewrite get_set_ne in Hg by exact Hne. exists st'. split; [eapply Hdel; eauto|now split].
  - try unfold closeNotification in Hg. rewrite ?activeWindows_repositionWindows in Hg.
    simpl in Hg. exists st'. split; [eapply Hdel; eauto|now split].
  - discriminate Hg.
  - try unfold onResize in Hg. destruct payload as [p|]; [|now exists st'].
    destruct (Js.truthy _); [|now exists st'].
    destruct (JsMap.get (payload_id p) (activeWindows s)) as [st|] eqn:Eg; [|now exists st'].
    destruct (windows s !! _) as [w|]; [|now exists st'].
    destruct (BrowserWindow.isDestroyed w); [now exists st'|].
    destruct (_ =? _); [now exists st'|].
    rewrite ?activeWindows_repositionWindows in Hg. simpl in Hg.
    destruct (String.eqb_spec (payload_id p) key) as [E|Hne].
    + rewrite E in *. rewrite get_set_eq in Hg. injection Hg as <-.
      exists st. now repeat split.
    + rewrite get_set_ne in Hg by exact Hne. now exists st'.
  - try unfold updateDraggedPosition in Hg. destruct (windows s !! h) as [w|]; [|now exists st'].
    destruct (BrowserWindow.isDestroyed w); [now exists st'|]. simpl in Hg.
    destruct (JsMap.get k (activeWindows s)) as [st|] eqn:Eg; [|now exists st'].
    destruct (String.eqb_spec k key) as [E|Hne].
    + rewrite E in *. rewrite get_set_eq in Hg. injection Hg as <-. discriminate Hm.
    + rewrite get_set_ne in Hg by exact Hne. now exists st'.
  - try unfold onClosed in Hg. rewrite ?activeWindows_repositionWindows in Hg. simpl in Hg.
    exists st'. split; [eapply Hdel; eauto|now split].
  - now exists st'.
  - try unfold moveWindow in Hg. destruct (windows s !! h) as [w|]; [|now exists st'].
    destruct (BrowserWindow.isDestroyed w); now exists st'.
  - now exists st'.
Qed.

(** X14. Once a window has been dragged, no later step adds an entry
    without a manual position: whatever happens afterwards, an entry the
    layout pass may still place is one that was in the registry, unpinned
    and with the same window, when the drag was recorded. *)
Theorem no_unpinned_entry_appears_after_drag
    (s : State) (events : list Event) (key : string) (st' : WindowState.t)
    (Hdragged : lastDraggedPos s <> None)
    (Hentry : JsMap.get key (activeWindows (run s events)) = Some st')
    (Hunpinned : WindowState.manualPos st' = None) :
  exists st,
    JsMap.get key (activeWindows s) = Some st
    /\ WindowState.manualPos st = None
    /\ WindowState.win st = WindowState.win st'.
Proof.
  revert s Hdragged Hentry. induction events as [|e events IH]; intros s Hd Hg; simpl in Hg.
  - exists st'. now repeat split.
  - destruct (IH (step s e) (lastDraggedPos_step s e Hd) Hg) as (st1 & Hg1 & Hm1 & Hw1).
    destruct (unpinned_entry_is_old s e key st1 Hd Hg1 Hm1) as (st & Hg0 & Hm0 & Hw0).
    exists st. repeat split; auto. congruence.
Qed.

(** After ["b"] was dragged, ["c"] opens and ["a"] gets a second message:
    ["a"] is still unpinned, and it is the entry that was there before. *)
Lemma no_unpinned_entry_appears_after_drag_witness :
  exists st,
    JsMap.get "a" (activeWindows (userDrag "b" 100 200 Sample.twoOverlays)) = Some st
    /\ WindowState.manualPos st = None
    /\ WindowState.win st = 0%nat.
Proof.
  exact (no_unpinned_entry_appears_after_drag
           (userDrag "b" 100 200 Sample.twoOverlays)
           [ ShowNotification (Sample.message "c" "hey") 3000;
             ShowNotification (Sample.message "a" "again") 4000 ]
           "a"
           (WindowState.mk 0 "a" "Ann" "https://cdn.discordapp.com/embed/avatars/0.png"
              [OverlayMessage.mk "m1" "hi" 1000; OverlayMessage.mk "m1" "again" 1000]
              1000 160 None)
           ltac:(discriminate) eq_refl eq_refl).
Defined.

Lemma allPinned_step s e : allPinned s -> allPinned (step s e).
Proof.
  intros [Hd Hall]. split; [now apply lastDraggedPos_step|].
  assert (Hclose : forall id,
            Forall (fun e => WindowState.manualPos e.2 <> None)
                   (activeWindows (closeNotification id s))).
  { intros id. unfold closeNotification. simpl. now apply Forall_delete. }
  assert (Hlimit : Forall (fun e => WindowState.manualPos e.2 <> None)
                          (activeWindows (limitOverlays s))).
  { unfold limitOverlays.
    destruct (MAX_OVERLAY_WINDOWS <=? length (activeWindows s))%nat; [|exact Hall].
    destruct (JsMap.firstKey (activeWindows s)) as [oldest|]; [|exact Hall].
    destruct (Js.truthy oldest); [apply Hclose|exact Hall]. }
  assert (Hcreate : forall data now,
            Forall (fun e => WindowState.manualPos e.2 <> None)
                   (activeWindows (createOverlay (NotificationData.channelId data) data
                                     (makeMessage data now) (limitOverlays s)))).
  { intros data now. unfold createOverlay. simpl. apply Forall_set; [|exact Hlimit].
    simpl. now rewrite (proj1 (limitOverlays_fields s)). }
  destruct e as [data now|id| |payload|key h|key| |h x y|h]; simpl.
  - unfold showNotification.
    destruct (JsMap.get _ (activeWindows s)) as [existing|] eqn:Eg; [|apply Hcreate].
    destruct (isLive _ _); [|apply Hcreate].
    unfold appendToExisting. simpl. apply Forall_set; [|now apply Forall_delete].
    simpl. rewrite Forall_forall in Hall. exact (Hall _ (get_Some_elem _ _ _ Eg)).
  - apply Hclose.
  - constructor.
  - unfold onResize. destruct payload as [p|]; [|exact Hall].
    destruct (Js.truthy _); [|exact Hall].
    destruct (JsMap.get _ (activeWindows s)) as [st|] eqn:Eg; [|exact Hall].
    destruct (windows s !! _) as [w|]; [|exact Hall].
    destruct (BrowserWindow.isDestroyed w); [exact Hall|].
    destruct (_ =? _); [exact Hall|].
    simpl. apply Forall_set; [|exact Hall].
    simpl. rewrite Forall_forall in Hall. exact (Hall _ (get_Some_elem _ _ _ Eg)).
  - unfold updateDraggedPosition. destruct (windows s !! h) as [w|]; [|exact Hall].
    destruct (BrowserWindow.isDestroyed w); [exact Hall|]. simpl.
    destruct (JsMap.get key (activeWindows s)) as [st|]; [|exact Hall].
    apply Forall_set; [discriminate|exact Hall].
  - unfold onClosed. simpl. now apply Forall_delete.
  - exact Hall.
  - unfold moveWindow. destruct (windows s !! h) as [w|]; [|exact Hall].
    destruct (BrowserWindow.isDestroyed w); exact Hall.
  - exact Hall.
Qed.

Lemma allPinned_run s events : allPinned s -> allPinned (run s events).
Proof.
  revert s. induction events as [|e events IH]; intros s Hs; simpl; [exact Hs|].
  now apply IH, allPinned_step.
Qed.

Lemma layoutWrites_all_manual area i sb m ws :
  Forall (fun e => WindowState.manualPos e.2 <> None) m -> layoutWrites area i sb m ws = [].
Proof.
  induction 1 as [|[k st] m Hst _ IH]; simpl; [reflexivity|].
  simpl in Hst. unfold placed. destruct (WindowState.manualPos st); [|contradiction].
  now rewrite andb_false_r.
Qed.

(** X13. When a dragged position was loaded at start, every entry the
    registry ever holds has a manual position: each new overlay opens at
    the last dragged position and takes it as its own. The layout pass then
    never moves a window, and the stacked layout is not used at all. *)
Theorem persisted_position_pins_every_overlay :
  forall (p : Z * Z) (area : Z * Z) (events : list Event),
    let s := run (initialState (Some p) area) events in
    lastDraggedPos s <> None
    /\ Forall (fun e => WindowState.manualPos e.2 <> None) (activeWindows s)
    /\ repositionWindows s = s
    /\ (forall data now,
          hasOpenOverlay (NotificationData.channelId data) s = false ->
          positionOf (NotificationData.channelId data) (showNotification data now s)
          = lastDraggedPos s
          /\ (WindowState.manualPos
                <$> JsMap.get (NotificationData.channelId data)
                      (activeWindows (showNotification data now s)))
             = Some (lastDraggedPos s)).
Proof.
  intros p area events s.
  assert (Hp : allPinned s).
  { apply allPinned_run. split; [discriminate|constructor]. }
  destruct Hp as [Hd Hall]. split; [exact Hd|]. split; [exact Hall|]. split.
  - unfold repositionWindows. rewrite repositionLoop_writes.
    rewrite (layoutWrites_all_manual _ _ _ _ _ Hall). now destruct s.
  - intros data now Hclosed.
    rewrite (showNotification_on_closed data now s Hclosed).
    destruct (lastDraggedPos s) as [q|] eqn:Eq; [|contradiction].
    unfold positionOf, windowOf, createOverlay. simpl. rewrite get_set_eq. simpl.
    rewrite lookup_app_r by lia. rewrite Nat.sub_diag. simpl.
    now rewrite (proj1 (limitOverlays_fields s)), Eq.
Qed.

End PinnedFacts.

(* ===================================================================== *)
(** * The limit at work *)
(* ===================================================================== *)

Section LimitAtWork.
Import Native Layout.

(** Six conversations ["a"] to ["f"] receive a message each, with a resize
    request and a drag in between: five entries remain. *)
Lemma registry_bounded_for_truthy_keys_witness :
  let events :=
    [ ShowNotification (Sample.message "a" "one") 1000;
      ShowNotification (Sample.message "b" "two") 2000;
      Resize (Some (mkResize "a" (Js.Num (Js.Finite (300 # 1)))));
      ShowNotification (Sample.message "c" "three") 3000;
      UserMoves 1 100 200;
      Moved "b" 1;
      ShowNotification (Sample.message "d" "four") 4000;
      ShowNotification (Sample.message "e" "five") 5000;
      ShowNotification (Sample.message "f" "six") 6000 ]%string in
  let s := run (initialState None (1920, 1080)) events in
  Forall showsTruthyKey events
  /\ (registrySize s <= MAX_OVERLAY_WINDOWS)%nat
  /\ registrySize s = 5%nat.
Proof.
  intros events s.
  assert (H : Forall showsTruthyKey events) by (repeat constructor).
  split; [exact H|]. split; [|reflexivity].
  exact (registry_bounded_for_truthy_keys None (1920, 1080) events H).
Defined.

(** With the five overlays ["a"] to ["e"] open, a message for ["f"] closes
    window 0, the one of ["a"], and removes the entry of ["a"]. *)
Lemma showNotification_evicts_first_entry_witness :
  let s := fiveOverlays in
  let data := Sample.message "f" "six" in
  showNotification data 6000 s
  = createOverlay "f" data (makeMessage data 6000) (closeNotification "a" s)
  /\ JsMap.get "a"%string (activeWindows (closeNotification "a" s)) = None
  /\ isLive (windows (closeNotification "a" s)) 0 = false.
Proof.
  intros s data.
  pose proof (fun st rest E =>
                showNotification_evicts_first_entry data 6000 s "a" st rest E) as H.
  specialize (H _ _ ltac:(reflexivity)).
  apply H; [unfold MAX_OVERLAY_WINDOWS; vm_compute; lia|reflexivity|reflexivity].
Defined.

End LimitAtWork.

(* ===================================================================== *)
(** * Priming a channel *)
(* ===================================================================== *)

Section PrimeFacts.
Import Plugin Dispatch.
Context {Host : Type}.
Implicit Types (w : World Host) (actions : option (MessageActionsT Host)).

Lemma bestEffort_hostAfter {A} (f : option (HostFn Host A)) (a : A) w :
  bestEffort Host f a w
  = (mkWorld (hostAfter f a (host w)) (lastPrimedAt w) (sendCalls w), Returned tt).
Proof.
  destruct f as [fn|]; simpl.
  - unfold tryCatch, callHost. destruct (fn a (host w)) as [h [[]|]]; reflexivity.
  - now destruct w.
Qed.

Lemma primeChannel_fired actions channelId now w :
  PRIME_TTL_MS <= now - default 0 (JsMap.get channelId (lastPrimedAt w)) ->
  primeChannel actions channelId now w
  = (mkWorld
       (hostAfter (actions ≫= fetchNewLocalMessages Host) channelId
          (hostAfter (actions ≫= fetchLocalMessages Host) channelId
             (hostAfter (actions ≫= fetchMessages Host) (channelId, 50)
                (hostAfter (actions ≫= jumpToPresent Host) channelId (host w)))))
       (JsMap.set channelId now (lastPrimedAt w)) (sendCalls w),
     Returned tt).
Proof.
  intros Hfire. unfold primeChannel.
  destruct (Z.ltb_spec (now - default 0 (JsMap.get channelId (lastPrimedAt w))) PRIME_TTL_MS)
    as [Hlt|_]; [lia|].
  unfold tryCatch at 1, bind. now rewrite !bestEffort_hostAfter.
Qed.

(** X15. A call of [primeChannel] that finds the channel not primed within
    the last [PRIME_TTL_MS] milliseconds calls every priming function the
    host has, in the order [jumpToPresent], [fetchMessages] with a limit of
    50, [fetchLocalMessages], [fetchNewLocalMessages], each on the host as
    the one before left it, whether that one returned or threw; it records
    the time for the channel, makes no [sendMessage] call, and returns. *)
Theorem primeChannel_makes_every_call
    actions (channelId : string) (now : Z) w
    (Hdue : PRIME_TTL_MS <= now - default 0 (JsMap.get channelId (lastPrimedAt w))) :
  primeChannel actions channelId now w
  = (mkWorld
       (hostAfter (actions ≫= fetchNewLocalMessages Host) channelId
          (hostAfter (actions ≫= fetchLocalMessages Host) channelId
             (hostAfter (actions ≫= fetchMessages Host) (channelId, 50)
                (hostAfter (actions ≫= jumpToPresent Host) channelId (host w)))))
       (JsMap.set channelId now (lastPrimedAt w)) (sendCalls w),
     Returned tt).
Proof.
  unfold primeChannel.
  destruct (Z.ltb_spec (now - default 0 (JsMap.get channelId (lastPrimedAt w))) PRIME_TTL_MS)
    as [Hlt|_]; [lia|].
  unfold tryCatch at 1, bind.
  rewrite (bestEffort_hostAfter (actions ≫= jumpToPresent Host)). cbn [host lastPrimedAt sendCalls].
  rewrite (bestEffort_hostAfter (actions ≫= fetchMessages Host)). cbn [host lastPrimedAt sendCalls].
  rewrite (bestEffort_hostAfter (actions ≫= fetchLocalMessages Host)).
  cbn [host lastPrimedAt sendCalls].
  now rewrite (bestEffort_hostAfter (actions ≫= fetchNewLocalMessages Host)).
Qed.

(** X16. After a call of [primeChannel] that primed the channel at time
    [now], a call for the same channel less than [PRIME_TTL_MS]
    milliseconds later does nothing at all: no host call, no change of the
    recorded time. The time recorded for any other channel is as before, so
    priming one channel never delays priming another. *)
Theorem primeChannel_once_per_ttl
    actions (channelId : string) (now now' : Z) w
    (Hdue : PRIME_TTL_MS <= now - default 0 (JsMap.get channelId (lastPrimedAt w)))
    (Hsoon : now' - now < PRIME_TTL_MS) :
  let w1 := (primeChannel actions channelId now w).1 in
  JsMap.get channelId (lastPrimedAt w1) = Some now
  /\ primeChannel actions channelId now' w1 = (w1, Returned tt)
  /\ (forall other, other <> channelId ->
        JsMap.get other (lastPrimedAt w1) = JsMap.get other (lastPrimedAt w)).
Proof.
  intros w1. unfold w1. rewrite (primeChannel_fired actions channelId now w Hdue).
  cbn [fst lastPrimedAt]. split; [apply get_set_eq|]. split.
  - unfold primeChannel. cbn [lastPrimedAt]. rewrite get_set_eq. cbn [default].
    destruct (Z.ltb_spec (now' - id now) PRIME_TTL_MS) as [_|Hge]; [reflexivity|].
    unfold id in Hge. lia.
  - intros other Hne. apply get_set_ne. congruence.
Qed.

End PrimeFacts.

Section PrimeExamples.
Import Plugin Dispatch.

(** The first message of conversation ["dm1"]: [jumpToPresent] throws and
    [fetchMessages] is called all the same; [fetchLocalMessages] is missing
    and [fetchNewLocalMessages], which throws too, is still called. *)
Lemma primeChannel_makes_every_call_witness :
  PRIME_TTL_MS <= 1700000000000 - default 0 (JsMap.get "dm1"%string (@nil (string * Z)))
  /\ primeChannel (Some loggingActions) "dm1" 1700000000000 (mkWorld [] [] [])
     = (mkWorld ["jump dm1"; "fetch dm1"; "fetchNew dm1"]%string
          [("dm1"%string, 1700000000000)] [],
        Returned tt).
Proof.
  assert (H : PRIME_TTL_MS
              <= 1700000000000 - default 0 (JsMap.get "dm1"%string (@nil (string * Z))))
    by (unfold PRIME_TTL_MS; simpl; lia).
  split; [exact H|].
  exact (primeChannel_makes_every_call (Some loggingActions) "dm1" 1700000000000
           (mkWorld [] [] []) H).
Defined.

(** Half a minute after the channel was primed nothing is fetched again. *)
Lemma primeChannel_once_per_ttl_witness :
  let w1 := (primeChannel (Some loggingActions) "dm1" 1700000000000 (mkWorld [] [] [])).1 in
  primeChannel (Some loggingActions) "dm1" 1700000030000 w1 = (w1, Returned tt)
  /\ host w1 = ["jump dm1"; "fetch dm1"; "fetchNew dm1"]%string.
Proof.
  intros w1. split; [|reflexivity].
  refine (proj1 (proj2 (primeChannel_once_per_ttl (Some loggingActions) "dm1"
                          1700000000000 1700000030000 (mkWorld [] [] []) _ _))).
  - unfold PRIME_TTL_MS. simpl. lia.
  - unfold PRIME_TTL_MS. lia.
Defined.

End PrimeExamples.

(* ===================================================================== *)
(** * The notification sound *)
(* ===================================================================== *)

Section SoundFacts.
Import Plugin Dispatch.
Context {Host : Type}.
Implicit Types (sound : option (SoundModuleT Host)) (h : Host).

Lemma playKeys_none sound keys h :
  soundFunction sound = None -> playKeys sound keys h = (h, []).
Proof.
  intros E. revert h. induction keys as [|key keys IH]; intros h; simpl; [reflexivity|].
  rewrite E. apply IH.
Qed.

Lemma playKeys_spec sound fn f keys h :
  soundFunction sound = Some (fn, f) ->
  exists (k : nat) (played : bool),
    (playKeys sound keys h).2
    = map (fun key => mkSoundCall fn key true) (take k keys)
      ++ (if played
          then option_list ((fun key => mkSoundCall fn key false) <$> keys !! k)
          else [])
    /\ (if played then (k < length keys)%nat else k = length keys)
    /\ (playKeys sound keys h).1 = hostAfterCalls f (playKeys sound keys h).2 h
    /\ callsThrewAsRecorded f (playKeys sound keys h).2 h.
Proof.
  intros E. revert h. induction keys as [|key keys IH]; intros h.
  - exists 0%nat, false. simpl. repeat split.
  - simpl. rewrite E. destruct (f key h) as [h' [[]|]] eqn:Ef.
    + exists 0%nat, true. simpl. rewrite Ef. simpl. repeat split. lia.
    + destruct (IH h') as (k & played & Hc & Hk & Hh & Ht).
      destruct (playKeys sound keys h') as [h'' calls] eqn:Ep. simpl in *.
      exists (S k), played. simpl. rewrite Ef. simpl. rewrite Hc.
      repeat split; try assumption.
      * destruct played; lia.
      * now rewrite <- Hc.
      * now rewrite <- Hc.
Qed.

(** X17. [playOverlaySound] uses one function of the sound module for all
    its calls: [playUISound] when the module has it, [playSound] only when
    [playUISound] is missing, never as a second try for a key on which
    [playUISound] threw. It tries the four candidate keys in order and
    stops at the first call that returns, so at most one sound is played;
    every call before that one threw. Without either function it makes no
    call and leaves the host as it was. *)
Theorem playOverlaySound_first_key_that_plays sound h :
  let result := playOverlaySound sound h in
  match soundFunction sound with
  | None => result = (h, [])
  | Some (fn, f) =>
      (sound ≫= playUISound = Some f /\ fn = PlayUISound
       \/ sound ≫= playUISound = None /\ sound ≫= playSound = Some f /\ fn = PlaySound)
      /\ exists (k : nat) (played : bool),
           result.2
           = map (fun key => mkSoundCall fn key true) (take k candidates)
             ++ (if played
                 then option_list ((fun key => mkSoundCall fn key false) <$> candidates !! k)
                 else [])
           /\ (if played then (k < 4)%nat else k = 4%nat)
           /\ result.1 = hostAfterCalls f result.2 h
           /\ callsThrewAsRecorded f result.2 h
  end.
Proof.
  intros result. destruct (soundFunction sound) as [[fn f]|] eqn:E.
  - split.
    + unfold soundFunction in E. destruct (sound ≫= playUISound) as [g|].
      * left. now injection E as <- <-.
      * right. destruct (sound ≫= playSound) as [g|]; [|discriminate].
        simpl in E. now injection E as <- <-.
    + apply (playKeys_spec sound fn f candidates h E).
  - now apply playKeys_none.
Qed.

End SoundFacts.

(* ===================================================================== *)
(** * The avatar of an author *)
(* ===================================================================== *)

Section AvatarFacts.
Import Plugin Dispatch.

(** X18. For a user without an avatar hash whose id is a decimal number
    below [2^75], [getAvatarUrl] returns the address of one of the six
    default avatars: the index is the id shifted right by 22 bits, modulo
    6, and lies between 0 and 5. The conversions are exact there: [BigInt]
    reads a decimal text as its number and [Number] is exact below [2^53]. *)
Theorem getAvatarUrl_default_is_one_of_six
    (BigInt : string -> option Z) (Number : Z -> option Z)
    (n : Z) (avatar : option string)
    (HBigInt : forall m, 0 <= m -> BigInt (Js.toString m) = Some m)
    (HNumber : forall m, 0 <= m < 2 ^ 53 -> Number m = Some m)
    (Hid : 0 <= n < 2 ^ 75)
    (Hnone : Js.truthy (default EmptyString avatar) = false) :
  exists k,
    0 <= k < 6
    /\ k = (n / 2 ^ 22) mod 6
    /\ getAvatarUrl BigInt Number (Js.toString n) avatar
       = Returned ("https://cdn.discordapp.com/embed/avatars/" ++ Js.toString k ++ ".png")%string.
Proof.
  exists ((n / 2 ^ 22) mod 6). split; [apply Z.mod_pos_bound; lia|]. split; [reflexivity|].
  unfold getAvatarUrl. rewrite Hnone, (HBigInt n) by lia.
  rewrite Z.shiftr_div_pow2 by lia.
  assert (Hq : 0 <= n / 2 ^ 22 < 2 ^ 53).
  { split; [apply Z.div_pos; lia|].
    apply Z.div_lt_upper_bound; [lia|].
    replace (2 ^ 22 * 2 ^ 53) with (2 ^ 75) by reflexivity. lia. }
  rewrite (HNumber _ Hq). unfold remainderText.
  rewrite Z.rem_mod_nonneg by lia. reflexivity.
Qed.

(** The user with the id 80351110224678912 and no avatar gets the default
    avatar 5. *)
Lemma getAvatarUrl_default_is_one_of_six_witness :
  exists k,
    0 <= k < 6
    /\ k = (80351110224678912 / 2 ^ 22) mod 6
    /\ getAvatarUrl Js.parseInteger Some (Js.toString 80351110224678912) None
       = Returned ("https://cdn.discordapp.com/embed/avatars/" ++ Js.toString k ++ ".png")%string.
Proof.
  apply (getAvatarUrl_default_is_one_of_six Js.parseInteger Some 80351110224678912 None).
  - intros m _. apply parseInteger_toString.
  - reflexivity.
  - lia.
  - reflexivity.
Defined.

End AvatarFacts.

(* ===================================================================== *)
(** * From a message event to an overlay *)
(* ===================================================================== *)

Section DispatchFacts.
Import Native Layout Plugin Dispatch.
Context {Host : Type}.
Variable BigInt : string -> option Z.
Variable Number : Z -> option Z.
Variable currentUser : option string.
Variable isFriend : string -> bool.
Variable actions : option (MessageActionsT Host).
Variable sound : option (SoundModuleT Host).
Implicit Types (sys : System Host) (event : MessageEvent) (events : list SystemEvent).

Local Abbreviation handle :=
  (onMessageCreate Host BigInt Number currentUser isFriend actions sound).
Local Abbreviation friend := (friendMessage currentUser isFriend).
Local Abbreviation runAll :=
  (systemRun Host BigInt Number currentUser isFriend actions sound).

Lemma orElse_truthy a b : Js.truthy b = true -> Js.truthy (Js.orElse a b) = true.
Proof. intros Hb. unfold Js.orElse. now destruct (Js.truthy a) eqn:E. Qed.


(** A step of the helper that is no [showNotification] adds no key. *)
Lemma keys_step (Q : string -> Prop) (s : State) (e : Event) :
  (forall data now, e = ShowNotification data now -> Q (NotificationData.channelId data)) ->
  Forall (fun x => Q x.1) (activeWindows s) ->
  Forall (fun x => Q x.1) (activeWindows (step s e)).
Proof.
  intros Hshow Hall.
  assert (Hclose : forall id,
            Forall (fun x => Q x.1) (activeWindows (closeNotification id s))).
  { intros id. unfold closeNotification. simpl. now apply Forall_delete. }
  assert (Hlimit : Forall (fun x => Q x.1) (activeWindows (limitOverlays s))).
  { unfold limitOverlays.
    destruct (MAX_OVERLAY_WINDOWS <=? length (activeWindows s))%nat; [|exact Hall].
    destruct (JsMap.firstKey (activeWindows s)) as [oldest|]; [|exact Hall].
    destruct (Js.truthy oldest); [apply Hclose|exact Hall]. }
  assert (Hkey : forall key st, JsMap.get key (activeWindows s) = Some st -> Q key).
  { intros key st Hg. rewrite Forall_forall in Hall.
    exact (Hall _ (get_Some_elem _ _ _ Hg)). }
  destruct e as [data now|id| |payload|key h|key| |h x y|h]; cbn [step].
  - specialize (Hshow data now eq_refl). unfold showNotification.
    assert (Hcreate : Forall (fun x => Q x.1)
                        (activeWindows (createOverlay (NotificationData.channelId data) data
                                          (makeMessage data now) (limitOverlays s)))).
    { unfold createOverlay. simpl. now apply Forall_set. }
    destruct (JsMap.get _ (activeWindows s)) as [existing|]; [|exact Hcreate].
    destruct (isLive _ _); [|exact Hcreate].
    unfold appendToExisting. simpl. apply Forall_set; [exact Hshow|now apply Forall_delete].
  - apply Hclose.
  - constructor.
  - unfold onResize. destruct payload as [p|]; [|exact Hall].
    destruct (Js.truthy _); [|exact Hall].
    destruct (JsMap.get _ (activeWindows s)) as [st|] eqn:Eg; [|exact Hall].
    destruct (windows s !! _) as [w|]; [|exact Hall].
    destruct (BrowserWindow.isDestroyed w); [exact Hall|].
    destruct (_ =? _); [exact Hall|].
    simpl. apply Forall_set; [|exact Hall]. exact (Hkey _ _ Eg).
  - unfold updateDraggedPosition. destruct (windows s !! h) as [w|]; [|exact Hall].
    destruct (BrowserWindow.isDestroyed w); [exact Hall|]. simpl.
    destruct (JsMap.get key (activeWindows s)) as [st|] eqn:Eg; [|exact Hall].
    apply Forall_set; [|exact Hall]. exact (Hkey _ _ Eg).
  - unfold onClosed. simpl. now apply Forall_delete.
  - exact Hall.
  - unfold moveWindow. destruct (windows s !! h) as [w|]; [|exact Hall].
    destruct (BrowserWindow.isDestroyed w); exact Hall.
  - exact Hall.
Qed.

(** The handler leaves the helper alone or has it show the notification of
    a friend's message. *)
Lemma onMessageCreate_helper event now nowHelper nowPrime sys :
  helper (handle event now nowHelper nowPrime sys) = helper sys
  \/ exists msg url,
       friend event = Some msg
       /\ helper (handle event now nowHelper nowPrime sys)
          = showNotification (notificationOf msg url now) nowHelper (helper sys).
Proof.
  unfold friendMessage, onMessageCreate.
  destruct (optimistic event); [now left|].
  destruct (message event) as [msg|]; [|now left].
  destruct (Js.truthy (default EmptyString (guild_id msg))); [now left|].
  destruct currentUser as [me|]; [|now left].
  destruct (String.eqb (author_id (author msg)) me); [now left|].
  destruct (isFriend (author_id (author msg))); [|now left].
  cbn [negb andb].
  destruct (playOverlaySound sound (host (world sys))) as [h1 calls].
  destruct (getAvatarUrl BigInt Number (author_id (author msg)) (avatar (author msg)))
    as [url|]; [|now left].
  right. exists msg, url. now split.
Qed.

Lemma keys_systemRun (Q : string -> Prop) events sys :
  Forall helperOnly events ->
  (forall key, friendConversation currentUser isFriend events key -> Q key) ->
  Forall (fun x => Q x.1) (activeWindows (helper sys)) ->
  Forall (fun x => Q x.1) (activeWindows (helper (runAll sys events))).
Proof.
  intros Hev. revert sys. induction Hev as [|e events He Hev IH]; intros sys HQ Hall;
    [exact Hall|].
  simpl. apply IH.
  - intros key (event & a & b & c & msg & Hin & Hf & Hk). apply HQ.
    exists event, a, b, c, msg. split; [now apply list_elem_of_further|now split].
  - destruct e as [event a b c|e]; cbn [systemStep].
    + destruct (onMessageCreate_helper event a b c sys) as [->|(msg & url & Hf & ->)];
        [exact Hall|].
      apply (keys_step Q (helper sys) (ShowNotification (notificationOf msg url a) b));
        [|exact Hall].
      intros data now' [= <- <-]. cbn [notificationOf NotificationData.channelId].
      apply HQ. exists event, a, b, c, msg. split; [apply list_elem_of_here|now split].
    + cbn [helper]. apply keys_step; [|exact Hall].
      intros data now' ->. contradiction.
Qed.

(** X20. Overlays exist only for conversations in which a friend wrote:
    whatever message events are dispatched and whatever else happens in
    the helper in between, every key of the registry is the channel id of a
    dispatched event that was a friend's direct message. Messages of
    guilds, of strangers and of the user never get an overlay. *)
Theorem overlays_only_for_friend_dms
    (w : World Host) (persisted : option (Z * Z)) (area : Z * Z) events
    (Hhelper : Forall helperOnly events) :
  forall key,
    key ∈ keys (helper (runAll (mkSystem w (initialState persisted area) []) events)) ->
    friendConversation currentUser isFriend events key.
Proof.
  intros key Hin.
  pose proof (keys_systemRun (friendConversation currentUser isFriend events) events
                (mkSystem w (initialState persisted area) []) Hhelper
                (fun _ H => H) (List.Forall_nil _)) as Hall.
  unfold keys in Hin. apply list_elem_of_fmap in Hin. destruct Hin as ([k st] & -> & Hin).
  rewrite Forall_forall in Hall. exact (Hall _ Hin).
Qed.

End DispatchFacts.

Section DispatchExamples.
Import Native Layout Plugin Dispatch.

(** A guild message, a friend's direct message, and a resize request of
    its overlay: the registry holds the conversation ["dm1"] and nothing
    else. *)
Lemma overlays_only_for_friend_dms_witness :
  let events :=
    [ MessageCreate guildMessage 1000 1001 1002;
      MessageCreate friendDm 2000 2001 2002;
      Helper (Resize (Some (mkResize "dm1" (Js.Num (Js.Finite (300 # 1)))))) ] in
  let sys :=
    systemRun (list string) Js.parseInteger Some (Some "1"%string) (fun _ => true)
      (Some loggingActions) (Some pickySound)
      (mkSystem (mkWorld [] [] []) (initialState None (1920, 1080)) []) events in
  Forall helperOnly events
  /\ keys (helper sys) = ["dm1"%string]
  /\ (forall key, key ∈ keys (helper sys) ->
        friendConversation (Some "1"%string) (fun _ => true) events key).
Proof.
  intros events sys.
  assert (H : Forall helperOnly events) by (repeat constructor).
  split; [exact H|]. split; [reflexivity|].
  exact (overlays_only_for_friend_dms Js.parseInteger Some (Some "1"%string) (fun _ => true)
           (Some loggingActions) (Some pickySound)
           (mkWorld [] [] []) None (1920, 1080) events H).
Defined.

End DispatchExamples.

